(** * Deal reconciliation engine: a shallow embedding of the deal generator

  Sources embedded here:
  - [src/lib/model/database.ts], third part: [dealPropertiesForLicense],
    [contactIdsForLicense], [generateDeals], class [DealActionGenerator],
    [generateDealActions], [isFreeLicense], [olderThan90Days];
  - [src/lib/model/database.ts], second part: class [ActionGenerator],
    [makeCreateAction], [makeUpdateAction], [getLatestRecord];
  - [src/lib/model/deal.ts]: [Deal.isEval], [Deal.isClosed] and the two
    indexes of [DealManager] with [addIndexes];
  - the redaction script: [makeRedactor], the redactors [Redact.name] and
    [Redact.email], [redactContactInfo], [maybeRedactContactInfo] and
    [redactPartnerDetails].

  JavaScript objects used as property bags are finite maps from keys to
  values; arrays are lists; [x | undefined] is [option]; a method of a
  class with mutable fields is a computation in a state-and-exception
  monad over the object. *)

From stdpp Require Import gmap strings list fin_maps pretty.
From Stdlib Require Import ZArith String Ascii OrderedTypeEx Sorted.

Open Scope string_scope.
Open Scope Z_scope.
Open Scope list_scope.

(** ** The JavaScript runtime functions the code calls *)

Module JS.

(** A string is given by its UTF-8 bytes.  The bytes below 128 are the ASCII
    characters, each a character of its own, and the byte 64 is the at-sign
    wherever it occurs. *)
Definition isASCII (s : string) : Prop :=
  Forall (λ c, (N_of_ascii c < 128)%N) (list_ascii_of_string s).

(** The lowering of the letters A to Z, which is what
    [String.prototype.toLowerCase] does to a string of ASCII characters.  The
    function of the runtime itself, which lowers every cased letter, is the
    field [String_toLowerCase] of [Collaborators] below. *)
Definition lower_ascii (c : ascii) : ascii :=
  let n := N_of_ascii c in
  if ((65 <=? n) && (n <=? 90))%N then ascii_of_N (n + 32) else c.

Fixpoint toLowerCaseASCII (s : string) : string :=
  match s with
  | EmptyString => EmptyString
  | String c s' => String (lower_ascii c) (toLowerCaseASCII s')
  end.

Lemma lower_ascii_at c : lower_ascii c = "@"%char → c = "@"%char.
Proof.
  unfold lower_ascii. destruct (_ && _)%N eqn:Hupper; [|done].
  apply andb_true_iff in Hupper as [Hlo%N.leb_le Hhi%N.leb_le].
  intros Hat. apply (f_equal N_of_ascii) in Hat.
  rewrite N_ascii_embedding in Hat by lia. simpl in Hat. lia.
Qed.

Lemma toLowerCaseASCII_at s :
  "@"%char ∈ list_ascii_of_string (toLowerCaseASCII s) → "@"%char ∈ list_ascii_of_string s.
Proof.
  induction s as [|c s IH]; simpl; [done|].
  intros [Hc|Hs]%elem_of_cons; apply elem_of_cons.
  - left. symmetry in Hc. apply lower_ascii_at in Hc. by subst.
  - right. by apply IH.
Qed.

(** [s.split('@')]: the pieces of [s] between the separators. *)
Fixpoint split_go (sep : ascii) (cur : string) (s : string) : list string :=
  match s with
  | EmptyString => [String.rev cur]
  | String c s' =>
      if Ascii.eqb c sep then String.rev cur :: split_go sep EmptyString s'
      else split_go sep (String c cur) s'
  end.

Definition split (sep : ascii) (s : string) : list string :=
  split_go sep EmptyString s.

(** [arr.join(sep)] on an array of strings. *)
Definition join (sep : string) (l : list string) : string :=
  String.concat sep l.

(** lodash's [_.uniq]: the first occurrence of every element, in order. *)
Fixpoint uniq_go {A} `{EqDecision A} (seen : list A) (l : list A) : list A :=
  match l with
  | [] => []
  | x :: l' =>
      if decide (x ∈ seen) then uniq_go seen l'
      else x :: uniq_go (x :: seen) l'
  end.

Definition uniq {A} `{EqDecision A} (l : list A) : list A := uniq_go [] l.

(** [Array.prototype.sort(cmp)] is a stable sort.  [le a b] says that the
    comparator does not put [b] strictly before [a] ([cmp(a, b) <= 0]). *)
Fixpoint insert_sorted {A} (le : A → A → bool) (x : A) (l : list A) : list A :=
  match l with
  | [] => [x]
  | y :: l' => if le x y then x :: y :: l' else y :: insert_sorted le x l'
  end.

Definition sort {A} (le : A → A → bool) (l : list A) : list A :=
  foldr (insert_sorted le) [] l.

(** [arr.sort()] on strings: ascending order of code units. *)
Definition sort_strings (l : list string) : list string := sort String.leb l.

(** A [number] that holds an amount of money.  The feed gives amounts with
    at most two decimals; the model keeps the number of hundredths, so that
    [toFixed(2)] and [toString()] are exact. *)
Definition number := Z.

Definition truthy (n : number) : bool := negb (n =? 0).

Definition sign_prefix (n : number) : string := if n <? 0 then "-" else "".

Definition two_digits (r : Z) : string :=
  pretty (r / 10) +:+ pretty (r mod 10).

(** [n.toFixed(2)] *)
Definition toFixed2 (n : number) : string :=
  sign_prefix n +:+ pretty (Z.abs n / 100) +:+ "." +:+ two_digits (Z.abs n mod 100).

(** [n.toString()]: the shortest decimal that reads back as [n]. *)
Definition toString (n : number) : string :=
  let r := Z.abs n mod 100 in
  sign_prefix n +:+ pretty (Z.abs n / 100) +:+
    (if r =? 0 then ""
     else if r mod 10 =? 0 then "." +:+ pretty (r / 10)
     else "." +:+ two_digits r).

(** [Math.max(...tiers)] of integers; [None] stands for [-Infinity], the
    value on an empty argument list. *)
Definition Math_max (l : list Z) : option Z :=
  match l with
  | [] => None
  | x :: l' => Some (foldr Z.max x l')
  end.

(** [tier.toFixed()] of an integer or of [-Infinity]. *)
Definition toFixed0 (t : option Z) : string :=
  match t with
  | Some n => pretty n
  | None => "-Infinity"
  end.

End JS.

(** ** Data model *)

Inductive DealStage := EVAL | CLOSED_WON | CLOSED_LOST.

Inductive Pipeline := AtlassianMarketplace.

#[global] Instance DealStage_eq_dec : EqDecision DealStage.
Proof. solve_decision. Defined.

#[global] Instance Pipeline_eq_dec : EqDecision Pipeline.
Proof. solve_decision. Defined.

(** The values a deal property holds: text, or a member of one of the two
  enumerations of the configuration. *)
Inductive PropValue :=
| VString (s : string)
| VStage (d : DealStage)
| VPipeline (p : Pipeline).

#[global] Instance PropValue_eq_dec : EqDecision PropValue.
Proof. solve_decision. Defined.

(** [Deal['properties']] and [Partial<Deal['properties']>]: a property bag. *)
Abbreviation Properties := (gmap string PropValue).

Module ContactInfo.
Record t := mk { email : string; name : option string }.
End ContactInfo.

Module ContactDetails.
Record t := mk {
  country : string;
  technicalContact : ContactInfo.t;
  billingContact : option ContactInfo.t;
}.
End ContactDetails.

Module PartnerDetails.
Record t := mk { billingContact : option ContactInfo.t }.
End PartnerDetails.

Module License.
Record t := mk {
  addonLicenseId : string;
  addonKey : string;
  licenseType : string;
  status : string;
  hosting : string;
  maintenanceStartDate : string;
  contactDetails : ContactDetails.t;
  partnerDetails : option PartnerDetails.t;
}.
End License.

Module PurchaseDetails.
Record t := mk {
  saleDate : string;
  saleType : string;
  vendorAmount : JS.number;
}.
End PurchaseDetails.

Module Transaction.
Record t := mk {
  transactionId : string;
  addonLicenseId : string;
  purchaseDetails : PurchaseDetails.t;
}.
End Transaction.

Module LicenseContext.
Record t := mk {
  license : License.t;
  transactions : list Transaction.t;
}.
End LicenseContext.

Abbreviation RelatedLicenseSet := (list LicenseContext.t).

Module Deal.
Record t := mk {
  id : string;
  contactIds : list string;
  properties : Properties;
}.
End Deal.

Module Contact.
Record t := mk { hs_object_id : string }.
End Contact.

Abbreviation ContactsByEmail := (gmap string Contact.t).

(** [License | Transaction] *)
Inductive MpacRecord :=
| OfLicense (l : License.t)
| OfTransaction (t : Transaction.t).

#[global] Instance ContactInfo_eq_dec : EqDecision ContactInfo.t.
Proof. solve_decision. Defined.
#[global] Instance ContactDetails_eq_dec : EqDecision ContactDetails.t.
Proof. solve_decision. Defined.
#[global] Instance PartnerDetails_eq_dec : EqDecision PartnerDetails.t.
Proof. solve_decision. Defined.
#[global] Instance License_eq_dec : EqDecision License.t.
Proof. solve_decision. Defined.
#[global] Instance PurchaseDetails_eq_dec : EqDecision PurchaseDetails.t.
Proof. solve_decision. Defined.
#[global] Instance Transaction_eq_dec : EqDecision Transaction.t.
Proof. solve_decision. Defined.
#[global] Instance LicenseContext_eq_dec : EqDecision LicenseContext.t.
Proof. solve_decision. Defined.
#[global] Instance Deal_eq_dec : EqDecision Deal.t.
Proof. solve_decision. Defined.

(** ** Collaborators whose code is not among the sources

    The deal finder, the tier calculator, the record-to-property helpers of
    the action generator, the configuration constants, the clock and the
    lower-casing of the runtime are used by the code below but defined
    elsewhere.  They are parameters of the development: every theorem stated
    over [Collaborators] holds whatever they compute.  Of the lower-casing two
    facts of the language are kept, the only ones a proof below uses.

    The tier calculator is taken where it returns: the spec has it fail on a
    malformed tier string, and a run that stops inside it, which can only
    happen in [dealPropertiesForLicense], is not a run of this model.  What is
    said of a run that goes through [dealPropertiesForLicense] is said of the
    runs in which the calculator returns. *)

Module DealFinder.
Record t := mk {
  getDeal : list MpacRecord → option Deal.t;
  getDeals : list MpacRecord → list Deal.t;
}.
End DealFinder.

Class Collaborators := {
  (** [new DealFinder(initialDeals)] of deal-finder.js *)
  DealFinder_new : list Deal.t → DealFinder.t;
  (** [calculateTierFromLicenseContext] of tiers.js, on integer tiers *)
  calculateTierFromLicenseContext : LicenseContext.t → list Z;
  (** [mustache.render(config.constants.dealDealName, { license })] *)
  renderDealName : License.t → string;
  (** [config.constants.dealOrigin] and [config.constants.dealRelatedProducts] *)
  dealOrigin : string;
  dealRelatedProducts : string;
  (** [new Date(dateString).getTime()] in milliseconds; [None] is [NaN] *)
  Date_getTime : string → option Z;
  (** [Date.now()]: one reading of the clock stands for all the readings of
      a run *)
  Date_now : Z;
  (** [dealCreationProperties], [dealUpdateProperties], [getDate] of
      records.js; the record handed to the first is [undefined] when the
      event carries none *)
  dealCreationProperties : option MpacRecord → DealStage → Properties;
  dealUpdateProperties : Deal.t → MpacRecord → Properties;
  getDate : MpacRecord → string;
  (** [String.prototype.toLowerCase]: it lowers every cased letter, the
      letters outside ASCII too *)
  String_toLowerCase : string → string;
  (** on ASCII text it lowers the letters A to Z and leaves the rest *)
  String_toLowerCase_ascii :
    ∀ s, JS.isASCII s → String_toLowerCase s = JS.toLowerCaseASCII s;
  (** it gives no at-sign where there was none *)
  String_toLowerCase_at :
    ∀ s, "@"%char ∈ list_ascii_of_string (String_toLowerCase s) →
         "@"%char ∈ list_ascii_of_string s;
}.

(** The second argument of [sorter]: ['ASC'] or ['DSC']. *)
Inductive SortDirection := ASC | DSC.

(** Modelled from the spec: [sorter] of util/helpers.js, which is not among
    the sources.  The spec has the licenses and the transactions "sorted
    ascending" by their date and the latest record found by sorting
    "descending by event date"; dates are ISO strings compared as strings,
    and a call without direction sorts ascending.  The result is the
    comparator handed to [Array.prototype.sort], given as the relation "may
    stay before". *)
Definition sorter {A} (fn : A → string) (dir : SortDirection) (a b : A) : bool :=
  match dir with
  | ASC => String.leb (fn a) (fn b)
  | DSC => String.leb (fn b) (fn a)
  end.

(** [a || b] on a string that may be [undefined]: the empty string is falsy. *)
Definition or_else (a : option string) (b : string) : string :=
  match a with
  | Some s => if decide (s = "") then b else s
  | None => b
  end.

(** ** Errors and the method monad *)

Inductive Error := AssertionError.

Inductive result (A : Type) :=
| Ok (a : A)
| Throw (e : Error).
Arguments Ok {A} a.
Arguments Throw {A} e.

Definition Method (S A : Type) : Type := S → result (A * S).

#[global] Instance Method_ret {S} : MRet (Method S) :=
  λ A a this, Ok (a, this).

#[global] Instance Method_bind {S} : MBind (Method S) :=
  λ A B f m this,
    match m this with
    | Ok (a, this') => f a this'
    | Throw e => Throw e
    end.

Definition this_ {S} : Method S S := λ this, Ok (this, this).

Definition assert_ok {S} (b : bool) : Method S unit :=
  λ this, if b then Ok (tt, this) else Throw AssertionError.

(** [for (const x of l) body(x)] *)
Fixpoint for_of {S A} (l : list A) (body : A → Method S unit) : Method S unit :=
  match l with
  | [] => mret tt
  | x :: l' => body x ;; for_of l' body
  end.

(** ** database.ts, third part: the deal generator *)

Definition saleDateOf (tx : Transaction.t) : string :=
  PurchaseDetails.saleDate (Transaction.purchaseDetails tx).

Definition saleTypeOf (tx : Transaction.t) : string :=
  PurchaseDetails.saleType (Transaction.purchaseDetails tx).

Definition vendorAmountOf (tx : Transaction.t) : JS.number :=
  PurchaseDetails.vendorAmount (Transaction.purchaseDetails tx).

Definition technicalEmail (license : License.t) : string :=
  ContactInfo.email (ContactDetails.technicalContact (License.contactDetails license)).

Section Generator.
Context `{Collaborators}.

Definition dealPropertiesForLicense (license : License.t) (transactions : list Transaction.t)
  : Properties :=
  let tiers := calculateTierFromLicenseContext (LicenseContext.mk license transactions) in
  let tier := JS.Math_max tiers in
  let firstPaidTransaction :=
    List.find (λ tx, bool_decide (saleTypeOf tx ≠ "Refund"))
      (JS.sort (sorter saleDateOf ASC) transactions) in
  let amount := default 0 (vendorAmountOf <$> firstPaidTransaction) in
  <["addonlicenseid" := VString (License.addonLicenseId license)]> (
  <["transactionid" := VString ""]> (
  <["closedate" := VString (or_else (head (JS.sort_strings (map saleDateOf transactions)))
                                    (License.maintenanceStartDate license))]> (
  <["deployment" := VString (License.hosting license)]> (
  <["aa_app" := VString (License.addonKey license)]> (
  <["license_tier" := VString (JS.toFixed0 tier)]> (
  <["country" := VString (ContactDetails.country (License.contactDetails license))]> (
  <["origin" := VString dealOrigin]> (
  <["related_products" := VString dealRelatedProducts]> (
  <["dealname" := VString (renderDealName license)]> (
  <["pipeline" := VPipeline AtlassianMarketplace]> (
  <["amount" := VString (JS.toString amount)]> ∅))))))))))).

(** [email ? contacts[email] : undefined] for an optional contact *)
Definition lookupOptionalContact (contacts : ContactsByEmail) (c : option ContactInfo.t)
  : option Contact.t :=
  match c with
  | Some info =>
      if decide (ContactInfo.email info = "") then None
      else contacts !! ContactInfo.email info
  | None => None
  end.

Definition contactIdsForLicense (contacts : ContactsByEmail) (license : License.t)
  : list string :=
  let techEmail := technicalEmail license in
  let techContact := contacts !! techEmail in
  let billingContact :=
    lookupOptionalContact contacts
      (ContactDetails.billingContact (License.contactDetails license)) in
  let partnerContact :=
    lookupOptionalContact contacts
      (License.partnerDetails license ≫= PartnerDetails.billingContact) in
  JS.uniq (omap (fmap Contact.hs_object_id) [techContact; billingContact; partnerContact]).

Definition NINETY_DAYS_AS_MS : Z := 1000 * 60 * 60 * 24 * 90.

Definition isFreeLicense (license : License.t) : bool :=
  bool_decide (License.licenseType license = "EVALUATION")
  || bool_decide (License.licenseType license = "OPEN_SOURCE").

Definition olderThan90Days (dateString : string) : bool :=
  let now := Date_now in
  match Date_getTime dateString with
  | Some then_ => bool_decide (NINETY_DAYS_AS_MS < now - then_)
  | None => false
  end.

End Generator.

(** ** database.ts, second part: the action generator over events *)

(** [DealRelevantEvent] of events.js, as the generator reads it: every event
    carries its groups; the other fields depend on the event type. *)
Module DealRelevantEvent.
Inductive t :=
| eval (groups : list LicenseContext.t) (licenses : list License.t)
| purchase (groups : list LicenseContext.t) (licenses : list License.t)
    (transaction : option Transaction.t)
| renewal (groups : list LicenseContext.t) (transaction : Transaction.t)
| upgrade (groups : list LicenseContext.t) (transaction : Transaction.t)
| refund (groups : list LicenseContext.t) (refundedTxs : list Transaction.t).

Definition groups (e : t) : list LicenseContext.t :=
  match e with
  | eval g _ | purchase g _ _ | renewal g _ | upgrade g _ | refund g _ => g
  end.
End DealRelevantEvent.

Module Action.
Inductive t :=
| update (groups : list LicenseContext.t) (deal : Deal.t) (properties : Properties)
| create (groups : list LicenseContext.t) (properties : Properties).
End Action.

Module ActionGenerator.
Record t := mk { dealFinder : DealFinder.t }.
End ActionGenerator.

Definition dealstageOf (deal : Deal.t) : option PropValue :=
  Deal.properties deal !! "dealstage".

Section Actions.
Context `{Collaborators}.

Definition makeCreateAction (event : DealRelevantEvent.t) (record : option MpacRecord)
  (dealstage : DealStage) : Action.t :=
  Action.create (DealRelevantEvent.groups event) (dealCreationProperties record dealstage).

Definition makeUpdateAction (event : DealRelevantEvent.t) (deal : Deal.t)
  (record : option MpacRecord) (properties : Properties) : option Action.t :=
  let combinedProperties :=
    match record with
    | Some r => dealUpdateProperties deal r
    | None => ∅
    end in
  (* Object.assign(combinedProperties, properties) *)
  let combinedProperties := properties ∪ combinedProperties in
  if decide (size combinedProperties = 0%nat) then None
  else Some (Action.update (DealRelevantEvent.groups event) deal combinedProperties).

Definition getLatestRecord (licenses : list License.t) (transaction : option Transaction.t)
  : option MpacRecord :=
  let records := map OfLicense licenses ++ option_list (OfTransaction <$> transaction) in
  head (JS.sort (sorter getDate DSC) records).

Definition actionForEval (this : ActionGenerator.t) (event : DealRelevantEvent.t)
  (licenses : list License.t) : option Action.t :=
  let deal := DealFinder.getDeal (ActionGenerator.dealFinder this) (map OfLicense licenses) in
  let latestLicense := OfLicense <$> last licenses in
  match deal with
  | None => Some (makeCreateAction event latestLicense EVAL)
  | Some deal =>
      if decide (dealstageOf deal = Some (VStage EVAL))
      then makeUpdateAction event deal latestLicense ∅
      else None
  end.

Definition actionForPurchase (this : ActionGenerator.t) (event : DealRelevantEvent.t)
  (licenses : list License.t) (transaction : option Transaction.t) : option Action.t :=
  let finder := ActionGenerator.dealFinder this in
  let deal :=
    match DealFinder.getDeal finder (map OfLicense licenses) with
    | Some d => Some d
    | None => DealFinder.getDeal finder (option_list (OfTransaction <$> transaction))
    end in
  let record := getLatestRecord licenses transaction in
  match deal with
  | None => Some (makeCreateAction event record CLOSED_WON)
  | Some deal =>
      if decide (dealstageOf deal = Some (VStage EVAL))
      then makeUpdateAction event deal record {["dealstage" := VStage CLOSED_WON]}
      else None
  end.

Definition actionForRenewal (event : DealRelevantEvent.t) (transaction : Transaction.t)
  : Action.t :=
  makeCreateAction event (Some (OfTransaction transaction)) CLOSED_WON.

Definition actionForRefund (this : ActionGenerator.t) (event : DealRelevantEvent.t)
  (refundedTxs : list Transaction.t) : list Action.t :=
  let deals := DealFinder.getDeals (ActionGenerator.dealFinder this)
                 (map OfTransaction refundedTxs) in
  omap (λ deal, makeUpdateAction event deal None {["dealstage" := VStage CLOSED_LOST]})
    (filter (λ deal, dealstageOf deal ≠ Some (VStage CLOSED_LOST)) deals).

Definition actionsFor (this : ActionGenerator.t) (event : DealRelevantEvent.t)
  : list Action.t :=
  match event with
  | DealRelevantEvent.eval _ licenses =>
      option_list (actionForEval this event licenses)
  | DealRelevantEvent.purchase _ licenses transaction =>
      option_list (actionForPurchase this event licenses transaction)
  | DealRelevantEvent.renewal _ transaction => [actionForRenewal event transaction]
  | DealRelevantEvent.upgrade _ transaction => [actionForRenewal event transaction]
  | DealRelevantEvent.refund _ refundedTxs => actionForRefund this event refundedTxs
  end.

Definition generateFrom (this : ActionGenerator.t) (events : list DealRelevantEvent.t)
  : list Action.t :=
  List.flat_map (actionsFor this) events.

End Actions.

(** ** database.ts, third part: class [DealActionGenerator] *)

Module DealCreateAction.
Record t := mk {
  dealstage : DealStage;
  license : License.t;
  transactions : list Transaction.t;
  amount : string;
}.
End DealCreateAction.

Module DealUpdateAction.
Record t := mk {
  id : string;
  license : option License.t;
  transactions : list Transaction.t;
  properties : Properties;
}.
End DealUpdateAction.

(** [License & { reason: string }] *)
Module IgnoredLicense.
Record t := mk { reason : string; license : License.t }.
End IgnoredLicense.

Module DealActionGenerator.

Record t := mk {
  providerDomains : gset string;
  partnerDomains : gset string;
  actionGenerator : ActionGenerator.t;
  dealFinder : DealFinder.t;
  dealCreateActions : list DealCreateAction.t;
  dealUpdateActions : list DealUpdateAction.t;
  ignoredLicenseSets : list (list IgnoredLicense.t);
}.

Definition new `{Collaborators} (providerDomains partnerDomains : gset string)
  (initialDeals : list Deal.t) : t :=
  let dealFinder := DealFinder_new initialDeals in
  mk providerDomains partnerDomains (ActionGenerator.mk dealFinder) dealFinder [] [] [].

(** [this.dealCreateActions.push(a)] *)
Definition push_dealCreateAction (a : DealCreateAction.t) : Method t unit :=
  λ this,
    Ok (tt, mk (providerDomains this) (partnerDomains this) (actionGenerator this)
              (dealFinder this) (dealCreateActions this ++ [a]) (dealUpdateActions this)
              (ignoredLicenseSets this)).

(** [this.dealUpdateActions.push(a)] *)
Definition push_dealUpdateAction (a : DealUpdateAction.t) : Method t unit :=
  λ this,
    Ok (tt, mk (providerDomains this) (partnerDomains this) (actionGenerator this)
              (dealFinder this) (dealCreateActions this) (dealUpdateActions this ++ [a])
              (ignoredLicenseSets this)).

Definition ignoreLicenses (reason : string) (licenses : list License.t) : Method t unit :=
  λ this,
    Ok (tt, mk (providerDomains this) (partnerDomains this) (actionGenerator this)
              (dealFinder this) (dealCreateActions this) (dealUpdateActions this)
              (ignoredLicenseSets this ++ [map (IgnoredLicense.mk reason) licenses])).

(** [license.contactDetails.technicalContact.email.toLowerCase().split('@')[1]] *)
Definition domainOf `{Collaborators} (license : License.t) : option string :=
  JS.split "@" (String_toLowerCase (technicalEmail license)) !! 1%nat.

(** [partnerDomains.has(domain) || providerDomains.has(domain)]; no set of
    strings has [undefined]. *)
Definition isBadDomain (partnerDomains providerDomains : gset string)
  (domain : option string) : Prop :=
  match domain with
  | Some d => d ∈ partnerDomains ∨ d ∈ providerDomains
  | None => False
  end.

#[global] Instance isBadDomain_dec partnerDomains providerDomains domain :
  Decision (isBadDomain partnerDomains providerDomains domain).
Proof. destruct domain; simpl; apply _. Defined.

(** Ignore if every license's tech contact domain is partner or mass-provider *)
Definition ignoring `{Collaborators} (groups : RelatedLicenseSet) : Method t bool :=
  this ← this_;
  let licenses := map LicenseContext.license groups in
  let domains := map domainOf licenses in
  let badDomains :=
    filter (isBadDomain (partnerDomains this) (providerDomains this)) domains in
  if decide (List.length badDomains = List.length licenses) then
    ignoreLicenses
      ("bad-domains:" +:+ JS.join "," (map (default "") (JS.uniq badDomains)))
      licenses ;;
    mret true
  else mret false.

Definition allTransactions (groups : RelatedLicenseSet) : list Transaction.t :=
  List.flat_map LicenseContext.transactions groups.

(** The first deal put into the set [licenseDeals], if any. *)
Definition dealOfGroup (this : t) (groups : RelatedLicenseSet) : option Deal.t :=
  head (omap (λ license, DealFinder.getDeal (dealFinder this) [OfLicense license])
          (map LicenseContext.license groups)).

(** The override [...(price && { amount: price.toFixed(2) })] *)
Definition withAmount (price : option JS.number) (properties : Properties) : Properties :=
  match price with
  | Some p => if JS.truthy p then <["amount" := VString (JS.toFixed2 p)]> properties
              else properties
  | None => properties
  end.

(** [assert.ok(groups.length > 0)] is the match on [groups]: its first member
    stands in where the code reads [licenses[0]] and
    [licenses[licenses.length - 1]] of an array that is not empty. *)
Definition generateActionsForMatchedGroup `{Collaborators} (groups : RelatedLicenseSet)
  : Method t unit :=
  match groups with
  | [] => assert_ok false
  | g0 :: _ =>
    ignored ← ignoring groups;
    if ignored : bool then mret tt else
    this ← this_;
    let deal := dealOfGroup this groups in
    (* Licenses in this group *)
    let licenses :=
      JS.sort (sorter License.maintenanceStartDate ASC)
        (map LicenseContext.license groups) in
    if forallb isFreeLicense licenses then
      (* It's only evals *)
      assert_ok (bool_decide (List.length (allTransactions groups) = 0%nat)) ;;
      let latestLicense := List.last licenses (LicenseContext.license g0) in
      match deal with
      | Some deal =>
          (* Deal exists, update it *)
          if decide (License.status latestLicense = "active") then
            let closeDate :=
              or_else (head (JS.sort_strings (map saleDateOf (allTransactions groups))))
                (License.maintenanceStartDate latestLicense) in
            if decide (Some (VString closeDate) ≠ Deal.properties deal !! "closedate"
                       ∨ Some (VString (License.addonLicenseId latestLicense))
                         ≠ Deal.properties deal !! "addonlicenseid")
            then
              push_dealUpdateAction
                (DealUpdateAction.mk (Deal.id deal) None (allTransactions groups)
                   (<["addonlicenseid" := VString (License.addonLicenseId latestLicense)]>
                    (<["closedate" := VString closeDate]> ∅)))
            else
              ignoreLicenses "eval-up-to-date" licenses
          else
            push_dealUpdateAction
              (DealUpdateAction.mk (Deal.id deal) None (allTransactions groups)
                 (<["addonlicenseid" := VString (License.addonLicenseId latestLicense)]>
                  (<["dealstage" := VStage CLOSED_LOST]> ∅)))
      | None =>
          (* No deal for them yet. *)
          if decide (License.status latestLicense = "active") then
            push_dealCreateAction
              (DealCreateAction.mk EVAL latestLicense (allTransactions groups) "0")
          else
            ignoreLicenses "inactive-evals" licenses
      end
    else
      (* Some (maybe all) are paid *)
      let isFirstEval := isFreeLicense (List.hd (LicenseContext.license g0) licenses) in
      let firstFoundPaid := List.find (λ l, negb (isFreeLicense l)) licenses in
      (* Transactions for this deal *)
      let transactions :=
        JS.sort (sorter saleDateOf ASC)
          (filter (λ tx, saleTypeOf tx ≠ "Refund") (allTransactions groups)) in
      let price := vendorAmountOf <$> head transactions in
      match firstFoundPaid with
      | Some firstFoundPaid =>
          if isFirstEval then
            match deal with
            | Some deal =>
                push_dealUpdateAction
                  (DealUpdateAction.mk (Deal.id deal) (Some firstFoundPaid) transactions
                     (withAmount price
                        (<["addonlicenseid" :=
                             VString (License.addonLicenseId firstFoundPaid)]>
                         (<["dealstage" := VStage CLOSED_WON]> ∅))))
            | None =>
                push_dealCreateAction
                  (DealCreateAction.mk CLOSED_WON firstFoundPaid transactions
                     (JS.toFixed2 (default 0 price)))
            end
          else
            match deal with
            | Some deal =>
                (* Only close/update evals, leave closed deals alone *)
                if decide (Deal.properties deal !! "dealstage" = Some (VStage EVAL))
                then
                  push_dealUpdateAction
                    (DealUpdateAction.mk (Deal.id deal) (Some firstFoundPaid) transactions
                       (withAmount price
                          (<["addonlicenseid" :=
                               VString (License.addonLicenseId firstFoundPaid)]>
                           (<["dealstage" := VStage CLOSED_WON]> ∅))))
                else mret tt
            | None =>
                push_dealCreateAction
                  (DealCreateAction.mk CLOSED_WON firstFoundPaid transactions
                     (JS.toFixed2 (default 0 price)))
            end
      | None => mret tt
      end
  end.

End DealActionGenerator.

(** ** database.ts, third part: [generateDealActions] and [generateDeals] *)

(** What [generateDealActions] hands back, with the value it passes to
    [saveForInspection('ignored', ...)]. *)
Module DealActions.
Record t := mk {
  savedIgnored : list (list IgnoredLicense.t);
  dealCreateActions : list DealCreateAction.t;
  dealUpdateActions : list DealUpdateAction.t;
}.
End DealActions.

(** [Omit<Deal, 'id'>] *)
Module NewDeal.
Record t := mk { contactIds : list string; properties : Properties }.
End NewDeal.

Module DealUpdate.
Record t := mk { id : string; properties : Properties }.
End DealUpdate.

Module Association.
Record t := mk { contactId : string; dealId : string }.
End Association.

#[global] Instance Association_eq_dec : EqDecision Association.t.
Proof. solve_decision. Defined.

Module GeneratedDeals.
Record t := mk {
  dealsToCreate : list NewDeal.t;
  dealsToUpdate : list DealUpdate.t;
  associationsToCreate : list Association.t;
  associationsToRemove : list Association.t;
}.
End GeneratedDeals.

Module GenerateDealsData.
Record t := mk {
  allMatches : list RelatedLicenseSet;
  initialDeals : list Deal.t;
  contactsByEmail : ContactsByEmail;
  providerDomains : gset string;
  partnerDomains : gset string;
}.
End GenerateDealsData.

(** The three arrays the update loop of [generateDeals] pushes to. *)
Module UpdateLoop.
Record t := mk {
  dealsToUpdate : list DealUpdate.t;
  associationsToCreate : list Association.t;
  associationsToRemove : list Association.t;
}.

Definition push_dealsToUpdate (d : DealUpdate.t) : Method t unit :=
  λ s, Ok (tt, mk (dealsToUpdate s ++ [d]) (associationsToCreate s) (associationsToRemove s)).

Definition push_associationsToCreate (l : list Association.t) : Method t unit :=
  λ s, Ok (tt, mk (dealsToUpdate s) (associationsToCreate s ++ l) (associationsToRemove s)).

Definition push_associationsToRemove (l : list Association.t) : Method t unit :=
  λ s, Ok (tt, mk (dealsToUpdate s) (associationsToCreate s) (associationsToRemove s ++ l)).
End UpdateLoop.

Section GenerateDeals.
Context `{Collaborators}.

Definition generateDealActions (matches : list RelatedLicenseSet)
  (initialDeals : list Deal.t) (providerDomains partnerDomains : gset string)
  : result DealActions.t :=
  let generator := DealActionGenerator.new providerDomains partnerDomains initialDeals in
  match for_of matches DealActionGenerator.generateActionsForMatchedGroup generator with
  | Throw e => Throw e
  | Ok (_, generator) =>
      Ok (DealActions.mk
            (DealActionGenerator.ignoredLicenseSets generator)
            (DealActionGenerator.dealCreateActions generator)
            (DealActionGenerator.dealUpdateActions generator))
  end.

(** The loop [for (const [key, val] of Object.entries(newDeal.properties))]
    that deletes every key whose value is the old deal's. *)
Definition stripUnchanged (oldDeal : Deal.t) (properties : Properties) : Properties :=
  filter (λ kv, Deal.properties oldDeal !! kv.1 ≠ Some kv.2) properties.

Definition associationsFor (dealId : string) (contactIds : list string)
  : list Association.t :=
  map (λ contactId, Association.mk contactId dealId) contactIds.

(** The body of [for (const { id, properties, license, transactions } of
    dealUpdateActions)]. *)
Definition updateDeal (initialDeals : list Deal.t) (contactsByEmail : ContactsByEmail)
  (action : DealUpdateAction.t) : Method UpdateLoop.t unit :=
  let id := DealUpdateAction.id action in
  let properties := DealUpdateAction.properties action in
  let transactions := DealUpdateAction.transactions action in
  match List.find (λ oldDeal, bool_decide (Deal.id oldDeal = id)) initialDeals with
  | None => assert_ok false
  | Some oldDeal =>
      newDeal ←
        match DealUpdateAction.license action with
        | Some license =>
            (* Start with deal->contact associations *)
            let oldAssociatedContactIds := Deal.contactIds oldDeal in
            let newAssociatedContactIds := contactIdsForLicense contactsByEmail license in
            (* assert.ok(newAssociatedContactIds) holds of every array *)
            let creatingAssociatedContactIds :=
              filter (λ id, id ∉ oldAssociatedContactIds) newAssociatedContactIds in
            let removingAssociatedContactIds :=
              filter (λ id, id ∉ newAssociatedContactIds) oldAssociatedContactIds in
            (if decide (0 < List.length creatingAssociatedContactIds)%nat
             then UpdateLoop.push_associationsToCreate
                    (associationsFor (Deal.id oldDeal) creatingAssociatedContactIds)
             else mret tt) ;;
            (if decide (0 < List.length removingAssociatedContactIds)%nat
             then UpdateLoop.push_associationsToRemove
                    (associationsFor (Deal.id oldDeal) removingAssociatedContactIds)
             else mret tt) ;;
            (* Now deal with deal *)
            let generatedProperties := dealPropertiesForLicense license transactions in
            mret (DealUpdate.mk id (properties ∪ generatedProperties))
        | None => mret (DealUpdate.mk id properties)
        end;
      let newDeal :=
        DealUpdate.mk (DealUpdate.id newDeal)
          (stripUnchanged oldDeal (DealUpdate.properties newDeal)) in
      if decide (0 < size (DealUpdate.properties newDeal))%nat
      then UpdateLoop.push_dealsToUpdate newDeal
      else mret tt
  end.

Definition dealToCreate (contactsByEmail : ContactsByEmail) (action : DealCreateAction.t)
  : NewDeal.t :=
  let license := DealCreateAction.license action in
  let contactIds := contactIdsForLicense contactsByEmail license in
  let generatedProperties :=
    dealPropertiesForLicense license (DealCreateAction.transactions action) in
  NewDeal.mk contactIds
    (<["dealstage" := VStage (DealCreateAction.dealstage action)]>
     (<["amount" := VString (DealCreateAction.amount action)]> generatedProperties)).

(** [group.some(m => !olderThan90Days(m.license.maintenanceStartDate))] *)
Definition hasRecentLicense (group : RelatedLicenseSet) : bool :=
  existsb
    (λ m, negb (olderThan90Days (License.maintenanceStartDate (LicenseContext.license m))))
    group.

(** The result holds the value saved for inspection by [generateDealActions]
    next to the four returned arrays. *)
Definition generateDeals (data : GenerateDealsData.t)
  : result (list (list IgnoredLicense.t) * GeneratedDeals.t) :=
  match generateDealActions
          (filter (λ group, hasRecentLicense group) (GenerateDealsData.allMatches data))
          (GenerateDealsData.initialDeals data)
          (GenerateDealsData.providerDomains data)
          (GenerateDealsData.partnerDomains data) with
  | Throw e => Throw e
  | Ok actions =>
      let dealsToCreate :=
        map (dealToCreate (GenerateDealsData.contactsByEmail data))
          (DealActions.dealCreateActions actions) in
      match for_of (DealActions.dealUpdateActions actions)
              (updateDeal (GenerateDealsData.initialDeals data)
                 (GenerateDealsData.contactsByEmail data))
              (UpdateLoop.mk [] [] []) with
      | Throw e => Throw e
      | Ok (_, loop) =>
          Ok (DealActions.savedIgnored actions,
              GeneratedDeals.mk dealsToCreate
                (UpdateLoop.dealsToUpdate loop)
                (UpdateLoop.associationsToCreate loop)
                (UpdateLoop.associationsToRemove loop))
      end
  end.

End GenerateDeals.

(** ** A deal finder, a snapshot update and a clock to run the code with *)

(** The class [DealFinder] of deal-finder.js is not among the sources.  The
    spec says that it "maintains two lookup indexes keyed by the two
    identifier types a record can carry (license-linked id,
    transaction-linked id)", that [getDeals] "returns the set of distinct
    deals referenced across multiple records" and [getDeal] "the single deal
    referenced by any record in the input, or none if no record resolves to a
    deal". *)
Module SpecDealFinder.

(** Modelled from the spec: one lookup index of the deal finder, filled as
    [DealManager.addIndexes] of deal.ts fills its own: an empty id is not
    indexed and a later deal replaces an earlier one under the same id. *)
Definition indexed (key : string) (id : string) (deals : list Deal.t) : option Deal.t :=
  if decide (id = "") then None
  else last (filter (λ deal, Deal.properties deal !! key = Some (VString id)) deals).

(** Modelled from the spec: the deal a record refers to, a license by the
    license-linked id and a transaction by the transaction-linked id. *)
Definition resolve (deals : list Deal.t) (record : MpacRecord) : option Deal.t :=
  match record with
  | OfLicense l => indexed "addonlicenseid" (License.addonLicenseId l) deals
  | OfTransaction t => indexed "transactionid" (Transaction.transactionId t) deals
  end.

(** Modelled from the spec: [DealFinder.getDeals], the distinct deals the
    records refer to. *)
Definition getDeals (deals : list Deal.t) (records : list MpacRecord) : list Deal.t :=
  JS.uniq (omap (resolve deals) records).

(** Modelled from the spec: [DealFinder.getDeal], the deal a record of the
    input refers to, if any. *)
Definition getDeal (deals : list Deal.t) (records : list MpacRecord) : option Deal.t :=
  head (getDeals deals records).

(** Modelled from the spec: [new DealFinder(initialDeals)]. *)
Definition new (initialDeals : list Deal.t) : DealFinder.t :=
  DealFinder.mk (getDeal initialDeals) (getDeals initialDeals).

End SpecDealFinder.

(** The step between two runs belongs to the uploader, which is not among
    the sources.  The second run of the idempotence property of the spec reads
    the snapshot in which every created deal is stored under a new id with
    the properties and contacts of its create request, and every updated deal
    has the properties of its update request written over its own and its
    associations added and removed. *)
Module Snapshot.

(** Modelled from the spec: the id a created deal gets ([populateFakeIds]). *)
Definition fakeId (n : nat) : string := "fake-" +:+ pretty n.

(** Modelled from the spec: the created deals as the snapshot stores them. *)
Definition created (start : nat) (l : list NewDeal.t) : list Deal.t :=
  imap (λ i d, Deal.mk (fakeId (start + i)) (NewDeal.contactIds d) (NewDeal.properties d)) l.

(** Modelled from the spec: one stored deal after the updates and the
    association changes that name it. *)
Definition updateOne (out : GeneratedDeals.t) (deal : Deal.t) : Deal.t :=
  let written :=
    foldl (λ props u,
             if decide (DealUpdate.id u = Deal.id deal)
             then DealUpdate.properties u ∪ props else props)
      (Deal.properties deal) (GeneratedDeals.dealsToUpdate out) in
  let removed :=
    filter (λ c, Association.mk c (Deal.id deal) ∉ GeneratedDeals.associationsToRemove out)
      (Deal.contactIds deal) in
  let added :=
    omap (λ a, if decide (Association.dealId a = Deal.id deal)
               then Some (Association.contactId a) else None)
      (GeneratedDeals.associationsToCreate out) in
  Deal.mk (Deal.id deal) (removed ++ added) written.

(** Modelled from the spec: the snapshot the next run reads. *)
Definition apply (initialDeals : list Deal.t) (out : GeneratedDeals.t) : list Deal.t :=
  map (updateOne out) initialDeals
  ++ created (List.length initialDeals) (GeneratedDeals.dealsToCreate out).

End Snapshot.

(** The clock of the examples: [new Date("YYYY-MM-DD").getTime()] by the
    days-from-civil computation, any other text being an invalid date. *)
Module IsoDate.

Definition digit (c : ascii) : option Z :=
  let n := Z.of_N (N_of_ascii c) in
  if (48 <=? n) && (n <=? 57) then Some (n - 48) else None.

Fixpoint digits (acc : Z) (l : list ascii) : option Z :=
  match l with
  | [] => Some acc
  | c :: l' => d ← digit c; digits (10 * acc + d) l'
  end.

Definition daysFromCivil (y m d : Z) : Z :=
  let y' := if m <=? 2 then y - 1 else y in
  let era := y' / 400 in
  let yoe := y' - era * 400 in
  let doy := (153 * (if 2 <? m then m - 3 else m + 9) + 2) / 5 + d - 1 in
  let doe := yoe * 365 + yoe / 4 - yoe / 100 + doy in
  era * 146097 + doe - 719468.

Definition getTime (s : string) : option Z :=
  match list_ascii_of_string s with
  | [y1; y2; y3; y4; "-"%char; m1; m2; "-"%char; d1; d2] =>
      y ← digits 0 [y1; y2; y3; y4];
      m ← digits 0 [m1; m2];
      d ← digits 0 [d1; d2];
      if (1 <=? m) && (m <=? 12) && (1 <=? d) && (d <=? 31)
      then Some (daysFromCivil y m d * 86400000) else None
  | _ => None
  end.

End IsoDate.

(** The collaborators of the examples: the deal finder above, one tier per
    license, fixed constants, a clock stopped at the start of 2022-01-01, and
    the lower-casing of ASCII text, which is the text of the examples. *)
Definition exampleCollaborators : Collaborators := {|
  DealFinder_new := SpecDealFinder.new;
  calculateTierFromLicenseContext := λ _, [10];
  renderDealName := λ license, License.addonKey license +:+ " deal";
  dealOrigin := "marketplace";
  dealRelatedProducts := "Marketing Apps";
  Date_getTime := IsoDate.getTime;
  Date_now := 1640995200000;
  dealCreationProperties := λ _ dealstage, {["dealstage" := VStage dealstage]};
  dealUpdateProperties := λ _ _, ∅;
  getDate := λ record,
    match record with
    | OfLicense l => License.maintenanceStartDate l
    | OfTransaction t => saleDateOf t
    end;
  String_toLowerCase := JS.toLowerCaseASCII;
  String_toLowerCase_ascii := λ _ _, eq_refl;
  String_toLowerCase_at := JS.toLowerCaseASCII_at;
|}.

Module Examples.

Definition contact (email : string) : ContactInfo.t := ContactInfo.mk email None.

Definition licenseOf (id licenseType status start email : string) : License.t :=
  License.mk id "my-app" licenseType status "Server" start
    (ContactDetails.mk "DE" (contact email) None) None.

Definition txOf (id licenseId saleDate saleType : string) (amount : JS.number)
  : Transaction.t :=
  Transaction.mk id licenseId (PurchaseDetails.mk saleDate saleType amount).

Definition dataOf (groups : list RelatedLicenseSet) (deals : list Deal.t)
  : GenerateDealsData.t :=
  GenerateDealsData.mk groups deals
    {["ann@corp.example" := Contact.mk "c-1"]} {["gmail.com"]} {["partner.example"]}.

Definition run (groups : list RelatedLicenseSet) (deals : list Deal.t)
  : result (list (list IgnoredLicense.t) * GeneratedDeals.t) :=
  generateDeals (H := exampleCollaborators) (dataOf groups deals).

Definition providers : gset string := {["gmail.com"]}.
Definition partners : gset string := {["partner.example"]}.
Definition directory : ContactsByEmail :=
  {["ann@corp.example" := Contact.mk "c-1"]}.

Definition evalLicense : License.t :=
  licenseOf "L-1" "EVALUATION" "active" "2021-12-01" "ann@corp.example".

Definition paidLicense : License.t :=
  licenseOf "L-2" "COMMERCIAL" "active" "2021-12-15" "ann@corp.example".

Definition partnerLicense : License.t :=
  licenseOf "L-3" "COMMERCIAL" "active" "2021-12-10" "Bob@Partner.example".

Definition oldLicense : License.t :=
  licenseOf "L-4" "COMMERCIAL" "active" "2021-01-01" "ann@corp.example".

Definition purchase : Transaction.t := txOf "T-1" "L-2" "2021-12-16" "New" 10000.
Definition renewal : Transaction.t := txOf "T-2" "L-2" "2021-12-20" "Renewal" 5000.
Definition refund : Transaction.t := txOf "T-3" "L-2" "2021-12-10" "Refund" (-10000).

(** Scenario A of the spec: one active evaluation, nothing else. *)
Definition evalGroup : RelatedLicenseSet := [LicenseContext.mk evalLicense []].

(** An evaluation followed by a paid license that has no transaction yet. *)
Definition conversionGroup : RelatedLicenseSet :=
  [LicenseContext.mk evalLicense []; LicenseContext.mk paidLicense []].

(** An evaluation followed by a paid license with its transactions. *)
Definition paidGroup : RelatedLicenseSet :=
  [LicenseContext.mk evalLicense [];
   LicenseContext.mk paidLicense [renewal; refund; purchase]].

Definition partnerGroup : RelatedLicenseSet := [LicenseContext.mk partnerLicense []].

Definition oldGroup : RelatedLicenseSet := [LicenseContext.mk oldLicense []].

(** An evaluation that carries a transaction: the data-integrity violation. *)
Definition brokenGroup : RelatedLicenseSet := [LicenseContext.mk evalLicense [purchase]].

(** The create action of [paidGroup] and the generator that has received it. *)
Definition paidCreate : DealCreateAction.t :=
  DealCreateAction.mk CLOSED_WON paidLicense [purchase; renewal] "100.00".

Definition freshGenerator : DealActionGenerator.t :=
  DealActionGenerator.mk providers partners
    (ActionGenerator.mk (SpecDealFinder.new [])) (SpecDealFinder.new []) [] [] [].

Definition afterPaidGroup : DealActionGenerator.t :=
  DealActionGenerator.mk providers partners
    (ActionGenerator.mk (SpecDealFinder.new [])) (SpecDealFinder.new []) [paidCreate] [] [].

(** Scenario C of the spec: a paid license, its purchase refunded later, and
    the deal of the purchase at CLOSED_WON. *)
Definition refundedGroup : RelatedLicenseSet :=
  [LicenseContext.mk paidLicense
     [purchase; txOf "T-4" "L-2" "2021-12-28" "Refund" (-10000)]].

Definition wonDeal : Deal.t :=
  Deal.mk "d-1" ["c-1"]
    (<["dealstage" := VStage CLOSED_WON]>
     (<["amount" := VString "100.00"]>
      (<["transactionid" := VString "T-1"]>
       (dealPropertiesForLicense (H := exampleCollaborators) paidLicense [purchase])))).

Definition refundEvent : DealRelevantEvent.t :=
  DealRelevantEvent.refund refundedGroup [purchase].

(** The deal the first run creates for [conversionGroup], as the second run
    finds it in the snapshot. *)
Definition createdDeal : Deal.t :=
  Deal.mk "fake-0" ["c-1"]
    (<["dealstage" := VStage CLOSED_WON]>
     (<["amount" := VString "0.00"]>
      (dealPropertiesForLicense (H := exampleCollaborators) paidLicense []))).

(** An update action with a license, for a deal associated with a contact
    the license no longer names. *)
Definition staleDeal : Deal.t :=
  Deal.mk "d-2" ["c-9"] (Deal.properties wonDeal).

(** The update the second run asks for on [createdDeal]. *)
Definition secondUpdate : DealUpdate.t :=
  DealUpdate.mk "fake-0" {["amount" := VString "0"]}.

Definition closingAction : DealUpdateAction.t :=
  DealUpdateAction.mk "d-2" (Some paidLicense) [purchase]
    {["dealstage" := VStage CLOSED_WON]}.

End Examples.

(** ** Vocabulary of the properties *)

(** The ignore rule applies: every license's technical-contact domain is in
    the partner set or in the provider set. *)
Definition domainExcluded `{Collaborators} (partnerDomains providerDomains : gset string)
  (groups : RelatedLicenseSet) : Prop :=
  Forall (λ g, DealActionGenerator.isBadDomain partnerDomains providerDomains
                 (DealActionGenerator.domainOf (LicenseContext.license g))) groups.

(** The reason [ignoring] records for a group it excludes: every domain of
    the group is a bad domain then. *)
Definition badDomainsReason `{Collaborators} (groups : RelatedLicenseSet) : string :=
  "bad-domains:"
  +:+ JS.join ","
        (map (default "")
           (JS.uniq (map DealActionGenerator.domainOf
                       (map LicenseContext.license groups)))).

(** The part of a result that is left when the run did not throw. *)
Definition result_map {A B} (f : A → B) (r : result A) : result B :=
  match r with
  | Ok a => Ok (f a)
  | Throw e => Throw e
  end.

(** A generator with the configuration of [this] and nothing pushed yet. *)
Definition cleared (this : DealActionGenerator.t) : DealActionGenerator.t :=
  DealActionGenerator.mk
    (DealActionGenerator.providerDomains this) (DealActionGenerator.partnerDomains this)
    (DealActionGenerator.actionGenerator this) (DealActionGenerator.dealFinder this)
    [] [] [].

(** [this] after the pushes that [delta] has received. *)
Definition pushed (this delta : DealActionGenerator.t) : DealActionGenerator.t :=
  DealActionGenerator.mk
    (DealActionGenerator.providerDomains this) (DealActionGenerator.partnerDomains this)
    (DealActionGenerator.actionGenerator this) (DealActionGenerator.dealFinder this)
    (DealActionGenerator.dealCreateActions this ++ DealActionGenerator.dealCreateActions delta)
    (DealActionGenerator.dealUpdateActions this ++ DealActionGenerator.dealUpdateActions delta)
    (DealActionGenerator.ignoredLicenseSets this ++ DealActionGenerator.ignoredLicenseSets delta).

(** The properties an update candidate proposes: those of [newDeal] in the
    loop of [generateDeals], before the keys that did not change are deleted. *)
Definition proposedProperties `{Collaborators} (action : DealUpdateAction.t) : Properties :=
  match DealUpdateAction.license action with
  | Some license =>
      DealUpdateAction.properties action
      ∪ dealPropertiesForLicense license (DealUpdateAction.transactions action)
  | None => DealUpdateAction.properties action
  end.

(** The emails [contactIdsForLicense] looks up in the contact directory: the
    technical contact's, and the billing and partner billing contacts' when
    there is one. *)
Definition contactEmails (license : License.t) : list string :=
  technicalEmail license
  :: filter (λ email, email ≠ "")
       (omap (fmap ContactInfo.email)
          [ContactDetails.billingContact (License.contactDetails license);
           License.partnerDetails license ≫= PartnerDetails.billingContact]).

(** The transactions of the mixed/paid branch: those that are not refunds, by
    ascending sale date. *)
Definition paidTransactions (groups : RelatedLicenseSet) : list Transaction.t :=
  JS.sort (sorter saleDateOf ASC)
    (filter (λ tx, saleTypeOf tx ≠ "Refund") (DealActionGenerator.allTransactions groups)).

(** [p] is the vendor amount of a transaction of the group that is not a
    refund and has the earliest sale date among those, or zero when the group
    has no such transaction. *)
Definition isPriceOf (groups : RelatedLicenseSet) (p : JS.number) : Prop :=
  (∃ tx, tx ∈ DealActionGenerator.allTransactions groups
         ∧ saleTypeOf tx ≠ "Refund"
         ∧ (∀ tx', tx' ∈ DealActionGenerator.allTransactions groups →
                   saleTypeOf tx' ≠ "Refund" →
                   String.leb (saleDateOf tx) (saleDateOf tx') = true)
         ∧ p = vendorAmountOf tx)
  ∨ ((∀ tx, tx ∈ DealActionGenerator.allTransactions groups → saleTypeOf tx = "Refund")
     ∧ p = 0).

(** ** deal.ts: the entity [Deal] and the indexes of [DealManager] *)

Module DealData.
Record t := mk {
  relatedProducts : string;
  app : string;
  addonLicenseId : option string;
  transactionId : option string;
  closeDate : string;
  country : string;
  dealName : string;
  origin : string;
  deployment : string;
  licenseTier : Z;
  pipeline : Pipeline;
  dealstage : DealStage;
  amount : option JS.number;
}.
End DealData.

(** [class Deal extends Entity<DealData>]: of the entity only its data are
    read here. *)
Module DealEntity.
Record t := mk { data : DealData.t }.

Definition isEval (this : t) : bool :=
  bool_decide (DealData.dealstage (data this) = EVAL).

Definition isClosed (this : t) : bool :=
  bool_decide (DealData.dealstage (data this) = CLOSED_LOST)
  || bool_decide (DealData.dealstage (data this) = CLOSED_WON).
End DealEntity.

Module DealManager.

(** The two private maps of the manager. *)
Record t := mk {
  dealsByAddonLicenseId : gmap string DealEntity.t;
  dealsByTransactionId : gmap string DealEntity.t;
}.

(** [if (id)] on an id that is a string or [null]: the id when it is neither
    [null] nor empty. *)
Definition truthyId (id : option string) : option string :=
  match id with
  | Some s => if decide (s = "") then None else Some s
  | None => None
  end.

Definition getByAddonLicenseId (this : t) (id : string) : option DealEntity.t :=
  dealsByAddonLicenseId this !! id.

Definition getByTransactionId (this : t) (id : string) : option DealEntity.t :=
  dealsByTransactionId this !! id.

(** The body of [for (const deal of deals)] in [addIndexes]. *)
Definition indexDeal (this : t) (deal : DealEntity.t) : t :=
  let this :=
    match truthyId (DealData.addonLicenseId (DealEntity.data deal)) with
    | Some id => mk (<[id := deal]> (dealsByAddonLicenseId this)) (dealsByTransactionId this)
    | None => this
    end in
  match truthyId (DealData.transactionId (DealEntity.data deal)) with
  | Some id => mk (dealsByAddonLicenseId this) (<[id := deal]> (dealsByTransactionId this))
  | None => this
  end.

Definition addIndexes (this : t) (deals : list DealEntity.t) (full : bool) : t :=
  let this := if full then mk ∅ ∅ else this in
  foldl indexDeal this deals.

End DealManager.

(** ** The redaction script: [makeRedactor] *)

Module Redactor.
Section Redactor.
Context {T R : Type} `{Countable T}.

(** [!old] on the redacted type, the function [fn(old, chance)] with the
    random generator it draws from and leaves behind, and the flag
    [mustBeUnique] of [makeRedactor]. *)
Variable falsy : T → bool.
Variable fn : T → R → T * R.
Variable mustBeUnique : bool.

(** What the closure holds: the generator [chance] and the map [redactions]. *)
Record state := mk { chance : R; redactions : gmap T T }.

(** [do { redacted = fn(old, chance) } while (mustBeUnique &&
    redactions.has(redacted))], at most [fuel] times round the loop; [None]
    when the fuel runs out first. *)
Fixpoint draw (fuel : nat) (old : T) (chance : R) (redactions : gmap T T)
  : option (T * R) :=
  match fuel with
  | O => None
  | S fuel' =>
      let '(redacted, chance') := fn old chance in
      if mustBeUnique && bool_decide (is_Some (redactions !! redacted))
      then draw fuel' old chance' redactions
      else Some (redacted, chance')
  end.

(** The closure [(old: T): T => ...] that [makeRedactor] returns. *)
Definition redact (fuel : nat) (old : T) (st : state) : option (T * state) :=
  if falsy old then Some (old, st)
  else
    match redactions st !! old with
    | Some redacted => Some (redacted, st)
    | None =>
        match draw fuel old (chance st) (redactions st) with
        | Some (redacted, chance') =>
            Some (redacted, mk chance' (<[old := redacted]> (redactions st)))
        | None => None
        end
    end.

(** The redactor called on the values of an array in turn, as
    [db.licenses.map(l => redactedLicense(l))] makes it be. *)
Fixpoint redactAll (fuel : nat) (olds : list T) (st : state) : option (list T * state) :=
  match olds with
  | [] => Some ([], st)
  | old :: olds' =>
      match redact fuel old st with
      | Some (redacted, st') =>
          match redactAll fuel olds' st' with
          | Some (rest, st'') => Some (redacted :: rest, st'')
          | None => None
          end
      | None => None
      end
  end.

End Redactor.
End Redactor.

(** ** The redaction script: contacts and partner details *)

(** [PartnerInfo] of marketplace/common, as the script reads and builds it. *)
Module PartnerInfo.
Record t := mk {
  billingContact : ContactInfo.t;
  partnerName : string;
  partnerType : string;
}.
End PartnerInfo.

(** The two redactors of [Redact] that the contact functions call.  Both are
    made without a second argument, so [mustBeUnique] is [true]; each has a
    generator and a map of its own. *)
Module Redact.
Section Redact.
Context {R : Type}.

(** [chance.name()] and [chance.email()], which do not read [old]. *)
Variable chance_name : R → string * R.
Variable chance_email : R → string * R.

Record t := mk {
  name : Redactor.state (T := string) (R := R);
  email : Redactor.state (T := string) (R := R);
}.

(** [!old] on a string *)
Definition falsy (old : string) : bool := bool_decide (old = "").

(** [Redact.name(old)] *)
Definition redactName (fuel : nat) (old : string) (this : t) : option (string * t) :=
  match Redactor.redact falsy (λ _, chance_name) true fuel old (name this) with
  | Some (redacted, name') => Some (redacted, mk name' (email this))
  | None => None
  end.

(** [Redact.email(old)] *)
Definition redactEmail (fuel : nat) (old : string) (this : t) : option (string * t) :=
  match Redactor.redact falsy (λ _, chance_email) true fuel old (email this) with
  | Some (redacted, email') => Some (redacted, mk (name this) email')
  | None => None
  end.

(** A redactor called on a value that may be [undefined], which is falsy and
    comes back as it is. *)
Definition onOptional (redactor : string → t → option (string * t))
  (old : option string) (this : t) : option (option string * t) :=
  match old with
  | Some old =>
      match redactor old this with
      | Some (redacted, this') => Some (Some redacted, this')
      | None => None
      end
  | None => Some (None, this)
  end.

Definition redactContactInfo (fuel : nat) (contact : ContactInfo.t) (this : t)
  : option (ContactInfo.t * t) :=
  match redactEmail fuel (ContactInfo.email contact) this with
  | Some (email', this) =>
      match
        match ContactInfo.name contact with
        | Some n =>
            if falsy n then Some (Some n, this)
            else onOptional (redactName fuel) (Some n) this
        | None => Some (None, this)
        end
      with
      | Some (name', this) => Some (ContactInfo.mk email' name', this)
      | None => None
      end
  | None => None
  end.

Definition maybeRedactContactInfo (fuel : nat) (contact : option ContactInfo.t) (this : t)
  : option (option ContactInfo.t * t) :=
  match contact with
  | Some contact =>
      match redactContactInfo fuel contact this with
      | Some (contact', this') => Some (Some contact', this')
      | None => None
      end
  | None => Some (None, this)
  end.

Definition redactPartnerDetails (fuel : nat) (info : option PartnerInfo.t) (this : t)
  : option (option PartnerInfo.t * t) :=
  match info with
  | Some info =>
      match redactEmail fuel (ContactInfo.email (PartnerInfo.billingContact info)) this with
      | Some (email', this) =>
          match onOptional (redactEmail fuel)
                  (ContactInfo.name (PartnerInfo.billingContact info)) this with
          | Some (name', this) =>
              match redactName fuel (PartnerInfo.partnerName info) this with
              | Some (partnerName', this) =>
                  Some (Some (PartnerInfo.mk (ContactInfo.mk email' name') partnerName'
                                (PartnerInfo.partnerType info)),
                        this)
              | None => None
              end
          | None => None
          end
      | None => None
      end
  | None => Some (None, this)
  end.

End Redact.
End Redact.

(** ** More vocabulary and examples *)

(** The licenses of a group by ascending maintenance start date, the array
    [licenses] of [generateActionsForMatchedGroup]. *)
Definition sortedLicenses (groups : RelatedLicenseSet) : list License.t :=
  JS.sort (sorter License.maintenanceStartDate ASC) (map LicenseContext.license groups).

(** The keys of the property bag that [dealPropertiesForLicense] builds. *)
Definition generatedKeys : gset string :=
  {["addonlicenseid"; "transactionid"; "closedate"; "deployment"; "aa_app";
    "license_tier"; "country"; "origin"; "related_products"; "dealname";
    "pipeline"; "amount"]}.

(** A group on which the classifier stops with an assertion error: an empty
    group, or a group of free licenses that carries a transaction and that the
    ignore rule lets through. *)
Definition failsAssertion `{Collaborators} (partnerDomains providerDomains : gset string)
  (groups : RelatedLicenseSet) : Prop :=
  groups = []
  ∨ (¬ domainExcluded partnerDomains providerDomains groups
     ∧ Forall (λ g, License.licenseType (LicenseContext.license g) = "EVALUATION"
                    ∨ License.licenseType (LicenseContext.license g) = "OPEN_SOURCE")
         groups
     ∧ DealActionGenerator.allTransactions groups ≠ []).

Module MoreExamples.

(** The deal of [Examples.staleDeal] with its contact stored twice. *)
Definition twiceStoredDeal : Deal.t :=
  Deal.mk "d-2" ["c-9"; "c-9"] (Deal.properties Examples.wonDeal).

(** The update action that closes the deal of an evaluation that ran out. *)
Definition closingOfEvaluation : DealUpdateAction.t :=
  DealUpdateAction.mk "d-3" None []
    (<["addonlicenseid" := VString "L-1"]> (<["dealstage" := VStage CLOSED_LOST]> ∅)).

(** A generator over a snapshot, with the domains of [Examples]. *)
Definition generatorOver (deals : list Deal.t) : DealActionGenerator.t :=
  DealActionGenerator.mk Examples.providers Examples.partners
    (ActionGenerator.mk (SpecDealFinder.new deals)) (SpecDealFinder.new deals) [] [] [].

(** The deal of [Examples.evalLicense], as a run creates it. *)
Definition evalDeal : Deal.t :=
  Deal.mk "d-3" ["c-1"]
    (<["dealstage" := VStage EVAL]>
     (<["amount" := VString "0"]>
      (dealPropertiesForLicense (H := exampleCollaborators) Examples.evalLicense []))).

(** The same deal before the license was renewed: an older close date. *)
Definition staleEvalDeal : Deal.t :=
  Deal.mk "d-3" ["c-1"]
    (<["closedate" := VString "2021-11-01"]> (Deal.properties evalDeal)).


Definition expiredLicense : License.t :=
  Examples.licenseOf "L-1" "EVALUATION" "inactive" "2021-12-01" "ann@corp.example".

Definition expiredGroup : RelatedLicenseSet := [LicenseContext.mk expiredLicense []].

(** The deal a run creates for [Examples.evalGroup], and the result of that
    run. *)
Definition evalCreated : NewDeal.t :=
  dealToCreate (H := exampleCollaborators) Examples.directory
    (DealCreateAction.mk EVAL Examples.evalLicense [] "0").

Definition evalRun : GeneratedDeals.t := GeneratedDeals.mk [evalCreated] [] [] [].

(** The result of the run on [Examples.paidGroup] over [Examples.staleDeal]. *)
Definition staleRun : GeneratedDeals.t :=
  GeneratedDeals.mk [] [DealUpdate.mk "d-2" {["transactionid" := VString ""]}]
    [Association.mk "c-1" "d-2"] [Association.mk "c-9" "d-2"].

(** A license whose technical contact has an email without at-sign. *)
Definition noAtLicense : License.t :=
  Examples.licenseOf "L-6" "COMMERCIAL" "active" "2021-12-20" "ann.corp.example".

Definition noAtGroup : RelatedLicenseSet := [LicenseContext.mk noAtLicense []].

(** A deal entity of [DealManager], with both ids, and one without ids. *)
Definition storedDeal : DealEntity.t :=
  DealEntity.mk
    (DealData.mk "Marketing Apps" "my-app" (Some "L-2") (Some "T-1") "2021-12-16" "DE"
       "my-app deal" "marketplace" "Server" 10 AtlassianMarketplace CLOSED_WON (Some 10000)).

Definition looseDeal : DealEntity.t :=
  DealEntity.mk
    (DealData.mk "Marketing Apps" "my-app" (Some "") None "2021-12-16" "DE"
       "my-app deal" "marketplace" "Server" 10 AtlassianMarketplace EVAL None).

(** A redactor of strings to run: [!old] on a string, and a generator that
    hands out the values of a script one after the other. *)
Definition emptyString (s : string) : bool := bool_decide (s = "").

Definition scripted (old : string) (script : list string) : string * list string :=
  (List.hd "K0" script, List.tl script).

(** Name and email generators that hand out the values of a script, and a
    partner whose billing contact is Ann. *)
Definition scriptedValue (script : list string) : string * list string :=
  (List.hd "K0" script, List.tl script).

Definition partnerInfo : PartnerInfo.t :=
  PartnerInfo.mk (ContactInfo.mk "ann@corp.example" (Some "Ann")) "Corp" "Reseller".

Definition redactors : Redact.t (R := list string) :=
  Redact.mk (Redactor.mk ["Name-1"; "Name-2"] ∅) (Redactor.mk ["e1@x.example"; "e2@x.example"] ∅).

End MoreExamples.

(** * Properties *)

Import DealActionGenerator.

Ltac unfold_method :=
  unfold mbind, mret, Method_bind, Method_ret, this_, assert_ok,
    push_dealCreateAction, push_dealUpdateAction, ignoreLicenses in *.

Section Properties.
Context `{Collaborators}.

(** ** The order of strings *)

Lemma leb_trans (a b c : string) :
  String.leb a b = true → String.leb b c = true → String.leb a c = true.
Proof.
  unfold String.leb. intros Hab Hbc.
  destruct (String.compare a b) eqn:Eab; [| |done];
    destruct (String.compare b c) eqn:Ebc; try done.
  - apply String.compare_eq_iff in Eab. subst. by rewrite Ebc.
  - apply String.compare_eq_iff in Eab. subst. by rewrite Ebc.
  - apply String.compare_eq_iff in Ebc. subst. by rewrite Eab.
  - apply String_as_OT.cmp_lt in Eab, Ebc.
    pose proof (String_as_OT.lt_trans _ _ _ Eab Ebc) as Hac.
    apply String_as_OT.cmp_lt in Hac. unfold String_as_OT.cmp in Hac. by rewrite Hac.
Qed.

(** ** [Array.prototype.sort] *)

Section Sort.
Context {A : Type} (le : A → A → bool).

Lemma elem_of_insert_sorted x y l :
  y ∈ JS.insert_sorted le x l ↔ y = x ∨ y ∈ l.
Proof.
  induction l as [|z l IH]; simpl.
  - rewrite list_elem_of_singleton, elem_of_nil. tauto.
  - destruct (le x z); rewrite !elem_of_cons; [done|].
    rewrite IH. tauto.
Qed.

Lemma elem_of_sort y l : y ∈ JS.sort le l ↔ y ∈ l.
Proof.
  induction l as [|x l IH]; simpl; [done|].
  by rewrite elem_of_insert_sorted, elem_of_cons, IH.
Qed.

Lemma length_insert_sorted x l :
  List.length (JS.insert_sorted le x l) = S (List.length l).
Proof. induction l as [|z l IH]; simpl; [done|]. destruct (le x z); simpl; congruence. Qed.

Lemma length_sort l : List.length (JS.sort le l) = List.length l.
Proof. induction l as [|x l IH]; simpl; [done|]. by rewrite length_insert_sorted, IH. Qed.

Lemma sort_eq_nil l : JS.sort le l = [] ↔ l = [].
Proof.
  split; [|by intros ->]. intros E. apply (f_equal List.length) in E.
  rewrite length_sort in E. by destruct l.
Qed.

Lemma Forall_sort (P : A → Prop) l : Forall P (JS.sort le l) ↔ Forall P l.
Proof. rewrite !Forall_forall. by setoid_rewrite elem_of_sort. Qed.

(** The first element after insertion is the new element or the old first. *)
Lemma head_insert_sorted x l :
  head (JS.insert_sorted le x l) =
    match head l with
    | Some y => if le x y then Some x else Some y
    | None => Some x
    end.
Proof. destruct l as [|y l]; simpl; [done|]. by destruct (le x y). Qed.

Hypothesis le_total : ∀ a b, le a b = true ∨ le b a = true.
Hypothesis le_trans : ∀ a b c, le a b = true → le b c = true → le a c = true.

(** The element a sort puts first may stay before every other one. *)
Lemma head_sort_least l x :
  head (JS.sort le l) = Some x → ∀ y, y ∈ l → le x y = true.
Proof.
  revert x. induction l as [|z l IH]; intros x Hx y Hy; [by apply elem_of_nil in Hy|].
  simpl in Hx. rewrite head_insert_sorted in Hx.
  destruct (head (JS.sort le l)) as [m|] eqn:Hm.
  - specialize (IH m eq_refl).
    apply elem_of_cons in Hy as [->|Hy].
    + destruct (le z m) eqn:Hzm; simplify_eq.
      * destruct (le_total x x); done.
      * destruct (le_total z x); congruence.
    + destruct (le z m) eqn:Hzm; simplify_eq; eauto.
  - apply head_None in Hm. apply (proj1 (sort_eq_nil _)) in Hm. subst l.
    apply list_elem_of_singleton in Hy. simplify_eq.
    destruct (le_total x x); done.
Qed.

(** Sorting a list again leaves its first element in place. *)
Lemma insert_sorted_head_least x l :
  (∀ y, y ∈ l → le x y = true) → JS.insert_sorted le x l = x :: l.
Proof.
  destruct l as [|y l]; simpl; [done|]. intros Hx.
  rewrite Hx; [done|]. apply elem_of_cons; by left.
Qed.

Lemma insert_sorted_StronglySorted x l :
  StronglySorted (λ a b, le a b = true) l →
  StronglySorted (λ a b, le a b = true) (JS.insert_sorted le x l).
Proof.
  induction 1 as [|y l Hl IH Hy]; simpl.
  - repeat constructor.
  - destruct (le x y) eqn:Hxy.
    + constructor; [by constructor|].
      constructor; [done|]. eapply Forall_impl; [exact Hy|]. simpl. eauto.
    + constructor; [done|].
      apply Forall_forall. intros z Hz. apply elem_of_insert_sorted in Hz as [->|Hz].
      * destruct (le_total x y); congruence.
      * by eapply Forall_forall in Hy.
Qed.

Lemma sort_StronglySorted l : StronglySorted (λ a b, le a b = true) (JS.sort le l).
Proof.
  induction l as [|x l IH]; simpl; [constructor|]. by apply insert_sorted_StronglySorted.
Qed.

Lemma sort_of_sorted l :
  StronglySorted (λ a b, le a b = true) l → JS.sort le l = l.
Proof.
  induction 1 as [|x l Hl IH Hx]; simpl; [done|].
  rewrite IH. apply insert_sorted_head_least. by apply Forall_forall.
Qed.

Lemma sort_sort l : JS.sort le (JS.sort le l) = JS.sort le l.
Proof. apply sort_of_sorted, sort_StronglySorted. Qed.

End Sort.

(** ** Lists *)

Lemma elem_of_map {A B} (f : A → B) (l : list A) (y : B) :
  y ∈ map f l ↔ ∃ x, y = f x ∧ x ∈ l.
Proof.
  rewrite list_elem_of_In, in_map_iff.
  split; intros (x & Hx & Hl); exists x; split; try done; by apply list_elem_of_In.
Qed.

Lemma filter_all {A} (P : A → Prop) `{∀ x, Decision (P x)} (l : list A) :
  Forall P l → filter P l = l.
Proof.
  induction 1 as [|x l Hx Hl IH]; [done|].
  by rewrite filter_cons_True, IH.
Qed.

Lemma length_filter_all {A} (P : A → Prop) `{∀ x, Decision (P x)} (l : list A) :
  List.length (filter P l) = List.length l ↔ Forall P l.
Proof.
  split; [|intros Hall; by rewrite filter_all].
  intros Hlen. apply Forall_forall. intros x Hx.
  destruct (decide (P x)) as [|Hn]; [done|].
  pose proof (length_filter_lt P l x Hx Hn). lia.
Qed.

Lemma prefix_append (s t : string) : String.prefix s (s +:+ t) = true.
Proof.
  induction s as [|c s IH]; simpl; [by destruct t|].
  destruct (ascii_dec c c); [done|congruence].
Qed.

(** ** The generator object *)


Lemma cleared_pushed this delta : cleared (pushed this delta) = cleared this.
Proof. done. Qed.

Lemma pushed_pushed this d1 d2 : pushed (pushed this d1) d2 = pushed this (pushed d1 d2).
Proof. unfold pushed; simpl. by rewrite !app_assoc. Qed.

(** What a group pushes does not depend on what was pushed before. *)
Lemma generateActionsForMatchedGroup_frame groups this :
  generateActionsForMatchedGroup groups this =
    match generateActionsForMatchedGroup groups (cleared this) with
    | Ok (_, delta) => Ok (tt, pushed this delta)
    | Throw e => Throw e
    end.
Proof.
  destruct this as [prov part ag df cs us ig].
  unfold generateActionsForMatchedGroup, ignoring, dealOfGroup, cleared, pushed.
  destruct groups as [|g0 groups]; [done|].
  unfold_method. cbn [providerDomains partnerDomains actionGenerator dealFinder
    dealCreateActions dealUpdateActions ignoredLicenseSets].
  generalize (JS.sort (sorter License.maintenanceStartDate ASC)
                (map LicenseContext.license (g0 :: groups))); intros licenses.
  generalize (JS.sort (sorter saleDateOf ASC)
                (filter (λ tx, saleTypeOf tx ≠ "Refund") (allTransactions (g0 :: groups))));
    intros transactions.
  generalize (allTransactions (g0 :: groups)); intros txs.
  generalize (filter (isBadDomain part prov)
                (map domainOf (map LicenseContext.license (g0 :: groups)))); intros bad.
  repeat (case_decide || case_match || simplify_eq/=); by rewrite ?app_nil_r.
Qed.

Lemma generateActionsForMatchedGroup_static groups this this' :
  generateActionsForMatchedGroup groups this = Ok (tt, this') → cleared this' = cleared this.
Proof.
  rewrite generateActionsForMatchedGroup_frame.
  destruct (generateActionsForMatchedGroup groups (cleared this)) as [[[] d]|]; [|done].
  by intros [= <-].
Qed.

Lemma for_of_frame matches this :
  for_of matches generateActionsForMatchedGroup this =
    match for_of matches generateActionsForMatchedGroup (cleared this) with
    | Ok (_, delta) => Ok (tt, pushed this delta)
    | Throw e => Throw e
    end.
Proof.
  revert this. induction matches as [|g matches IH]; intros this; simpl.
  - unfold mret, Method_ret. unfold pushed, cleared; destruct this; simpl.
    by rewrite !app_nil_r.
  - unfold mbind, Method_bind.
    rewrite (generateActionsForMatchedGroup_frame g this).
    destruct (generateActionsForMatchedGroup g (cleared this)) as [[[] d1]|] eqn:Hg; [|done].
    apply generateActionsForMatchedGroup_static in Hg.
    change (cleared (cleared this)) with (cleared this) in Hg.
    rewrite (IH (pushed this d1)), (IH d1), cleared_pushed, Hg.
    destruct (for_of matches generateActionsForMatchedGroup (cleared this)) as [[[] d2]|];
      [|done].
    by rewrite pushed_pushed.
Qed.

Lemma ignoring_excluded this groups :
  domainExcluded (partnerDomains this) (providerDomains this) groups →
  ignoring groups this =
    match ignoreLicenses (badDomainsReason groups) (map LicenseContext.license groups) this with
    | Ok (_, this') => Ok (true, this')
    | Throw e => Throw e
    end.
Proof.
  intros Hall. unfold ignoring, badDomainsReason. unfold mbind, Method_bind, this_.
  assert (Hbad : Forall (isBadDomain (partnerDomains this) (providerDomains this))
                   (map domainOf (map LicenseContext.license groups))).
  { unfold domainExcluded in Hall. rewrite Forall_forall in Hall. apply Forall_forall.
    intros d (l & -> & (g & -> & Hg)%elem_of_map)%elem_of_map. by apply Hall. }
  rewrite (filter_all _ _ Hbad), length_map. by rewrite decide_True.
Qed.

Lemma ignoring_not_excluded this groups :
  ¬ domainExcluded (partnerDomains this) (providerDomains this) groups →
  ignoring groups this = Ok (false, this).
Proof.
  intros Hnot. unfold ignoring. unfold mbind, Method_bind, this_.
  rewrite decide_False; [done|]. intros Hlen. apply Hnot.
  rewrite <- (length_map domainOf) in Hlen. apply length_filter_all in Hlen.
  unfold domainExcluded. rewrite Forall_forall in Hlen. apply Forall_forall. intros g Hg.
  apply Hlen. apply elem_of_map. eexists; split; [done|].
  apply elem_of_map. eauto.
Qed.

Lemma for_of_app {S A} (l1 l2 : list A) (body : A → Method S unit) (s : S) :
  for_of (l1 ++ l2) body s =
    match for_of l1 body s with
    | Ok (_, s') => for_of l2 body s'
    | Throw e => Throw e
    end.
Proof.
  revert s. induction l1 as [|x l1 IH]; intros s; simpl; [done|].
  unfold mbind, Method_bind. destruct (body x s) as [[[] s1]|]; [|done]. apply IH.
Qed.

Lemma for_of_static matches this this' :
  for_of matches generateActionsForMatchedGroup this = Ok (tt, this') →
  cleared this' = cleared this.
Proof.
  rewrite for_of_frame.
  destruct (for_of matches generateActionsForMatchedGroup (cleared this)) as [[[] d]|];
    [|done].
  by intros [= <-].
Qed.

Lemma error_is_assertion (e : Error) : e = AssertionError.
Proof. by destruct e. Qed.

Section Classifier.

(** A group that only reaches [ignoreLicenses] leaves the actions of the
    whole run as they are without it. *)
Lemma generateDealActions_skip before after groups initialDeals provider partner :
  (∀ this, partnerDomains this = partner → providerDomains this = provider →
     ∃ reason ls, generateActionsForMatchedGroup groups this = ignoreLicenses reason ls this) →
  result_map (λ a, (DealActions.dealCreateActions a, DealActions.dealUpdateActions a))
    (generateDealActions (before ++ groups :: after) initialDeals provider partner) =
  result_map (λ a, (DealActions.dealCreateActions a, DealActions.dealUpdateActions a))
    (generateDealActions (before ++ after) initialDeals provider partner).
Proof.
  intros Hskip. unfold generateDealActions.
  rewrite !for_of_app.
  destruct (for_of before _ _) as [[[] s1]|] eqn:Hbefore; [|done].
  apply for_of_static in Hbefore.
  simpl. unfold mbind, Method_bind.
  destruct (Hskip s1) as (reason & ls & ->).
  { by apply (f_equal partnerDomains) in Hbefore. }
  { by apply (f_equal providerDomains) in Hbefore. }
  unfold ignoreLicenses.
  rewrite for_of_frame, (for_of_frame after s1).
  change (cleared (mk _ _ _ _ _ _ _)) with (cleared s1).
  by destruct (for_of after _ (cleared s1)) as [[[] d]|].
Qed.

Lemma hasRecentLicense_false group :
  Forall (λ m, olderThan90Days (License.maintenanceStartDate (LicenseContext.license m)) = true)
    group →
  hasRecentLicense group = false.
Proof.
  unfold hasRecentLicense. induction 1 as [|m group Hm _ IH]; simpl; [done|].
  by rewrite Hm, IH.
Qed.

Lemma olderThan90Days_true dateString :
  olderThan90Days dateString = true ↔
  ∃ then_, Date_getTime dateString = Some then_ ∧ 90 * 86400000 < Date_now - then_.
Proof.
  unfold olderThan90Days, NINETY_DAYS_AS_MS.
  destruct (Date_getTime dateString) as [t|].
  - rewrite bool_decide_eq_true. split.
    + intros Ht. exists t. split; [done|lia].
    + intros (t' & [= <-] & Ht). lia.
  - split; [done|]. by intros (t' & [=] & _).
Qed.

End Classifier.

Lemma forallb_sort {A} (le : A → A → bool) (f : A → bool) (l : list A) :
  forallb f (JS.sort le l) = forallb f l.
Proof.
  apply eq_true_iff_eq. rewrite !forallb_forall.
  by setoid_rewrite <- list_elem_of_In; setoid_rewrite elem_of_sort.
Qed.

Lemma isFreeLicense_true license :
  isFreeLicense license = true ↔
  License.licenseType license = "EVALUATION" ∨ License.licenseType license = "OPEN_SOURCE".
Proof.
  unfold isFreeLicense. rewrite orb_true_iff, !bool_decide_eq_true. done.
Qed.

Lemma forallb_isFreeLicense groups :
  forallb isFreeLicense (map LicenseContext.license groups) = true ↔
  Forall (λ g, License.licenseType (LicenseContext.license g) = "EVALUATION"
               ∨ License.licenseType (LicenseContext.license g) = "OPEN_SOURCE") groups.
Proof.
  rewrite forallb_forall, Forall_forall. setoid_rewrite <- list_elem_of_In.
  setoid_rewrite elem_of_map. setoid_rewrite <- isFreeLicense_true.
  split.
  - intros Hall g Hg. apply Hall. eauto.
  - intros Hall l (g & -> & Hg). eauto.
Qed.

Section Exclusion.

(** The step of the classifier on an excluded group, in any state of the
    generator and with any deal finder. *)
Lemma excluded_group_step this groups :
  groups ≠ [] →
  domainExcluded (partnerDomains this) (providerDomains this) groups →
  generateActionsForMatchedGroup groups this =
    ignoreLicenses (badDomainsReason groups) (map LicenseContext.license groups) this.
Proof.
  intros Hne Hex. unfold generateActionsForMatchedGroup.
  destruct groups as [|g0 groups']; [done|].
  unfold mbind, Method_bind. rewrite ignoring_excluded by done. by unfold ignoreLicenses.
Qed.

(** The run with a group that only adds an entry to the ignored list, and the
    run without it. *)
Lemma generateDealActions_ignored before after groups initialDeals provider partner entry actions :
  (∀ this, partnerDomains this = partner → providerDomains this = provider →
     generateActionsForMatchedGroup groups this =
       Ok (tt, mk (providerDomains this) (partnerDomains this) (actionGenerator this)
                 (dealFinder this) (dealCreateActions this) (dealUpdateActions this)
                 (ignoredLicenseSets this ++ [entry]))) →
  generateDealActions (before ++ groups :: after) initialDeals provider partner = Ok actions →
  ∃ saved1 saved2,
    DealActions.savedIgnored actions = saved1 ++ entry :: saved2
    ∧ generateDealActions (before ++ after) initialDeals provider partner =
        Ok (DealActions.mk (saved1 ++ saved2) (DealActions.dealCreateActions actions)
              (DealActions.dealUpdateActions actions)).
Proof.
  intros Hstep. unfold generateDealActions. rewrite !for_of_app.
  destruct (for_of before _ _) as [[[] s1]|] eqn:Hbefore; [|done].
  apply for_of_static in Hbefore.
  simpl. unfold mbind, Method_bind. rewrite Hstep.
  2: { by apply (f_equal partnerDomains) in Hbefore. }
  2: { by apply (f_equal providerDomains) in Hbefore. }
  rewrite for_of_frame, (for_of_frame after s1).
  change (cleared (mk _ _ _ _ _ _ _)) with (cleared s1).
  destruct (for_of after _ (cleared s1)) as [[[] d]|]; [|done].
  intros [= <-]. exists (ignoredLicenseSets s1), (ignoredLicenseSets d).
  cbn [DealActions.savedIgnored DealActions.dealCreateActions DealActions.dealUpdateActions
       pushed ignoredLicenseSets dealCreateActions dealUpdateActions].
  split; [|done]. by rewrite <- app_assoc.
Qed.

(** C2.  A group whose licenses all have a technical-contact domain in the
    partner or the provider set pushes no create and no update action,
    whatever the deal finder holds for it, and adds one entry to the ignored
    list: its licenses, each with a reason that starts with "bad-domains:".
    The creates, updates and associations of the whole run are those of the
    run without the group, and the ignored list the run saves is that of the
    run without the group with this entry put in. *)
Theorem domain_excluded_group_is_skipped
  (before after : list RelatedLicenseSet) (groups : RelatedLicenseSet)
  (initialDeals : list Deal.t) (contactsByEmail : ContactsByEmail)
  (providerDomains partnerDomains : gset string) :
  groups ≠ [] →
  domainExcluded partnerDomains providerDomains groups →
  let entry :=
    map (IgnoredLicense.mk (badDomainsReason groups)) (map LicenseContext.license groups) in
  String.prefix "bad-domains:" (badDomainsReason groups) = true
  ∧ (∀ this : DealActionGenerator.t,
       DealActionGenerator.partnerDomains this = partnerDomains →
       DealActionGenerator.providerDomains this = providerDomains →
       ∃ this',
         generateActionsForMatchedGroup groups this = Ok (tt, this')
         ∧ ignoredLicenseSets this' = ignoredLicenseSets this ++ [entry]
         ∧ dealCreateActions this' = dealCreateActions this
         ∧ dealUpdateActions this' = dealUpdateActions this)
  ∧ result_map snd
      (generateDeals (GenerateDealsData.mk (before ++ groups :: after) initialDeals
                        contactsByEmail providerDomains partnerDomains)) =
    result_map snd
      (generateDeals (GenerateDealsData.mk (before ++ after) initialDeals
                        contactsByEmail providerDomains partnerDomains))
  ∧ (hasRecentLicense groups = true →
     ∀ saved out,
       generateDeals (GenerateDealsData.mk (before ++ groups :: after) initialDeals
                        contactsByEmail providerDomains partnerDomains) = Ok (saved, out) →
       ∃ saved1 saved2,
         saved = saved1 ++ entry :: saved2
         ∧ generateDeals (GenerateDealsData.mk (before ++ after) initialDeals
                            contactsByEmail providerDomains partnerDomains)
           = Ok (saved1 ++ saved2, out)).
Proof.
  intros Hne Hex entry. split; [apply prefix_append|].
  assert (Hstep : ∀ this : DealActionGenerator.t,
    DealActionGenerator.partnerDomains this = partnerDomains →
    DealActionGenerator.providerDomains this = providerDomains →
    generateActionsForMatchedGroup groups this =
      Ok (tt, mk (DealActionGenerator.providerDomains this)
                (DealActionGenerator.partnerDomains this) (actionGenerator this)
                (dealFinder this) (dealCreateActions this) (dealUpdateActions this)
                (ignoredLicenseSets this ++ [entry]))).
  { intros this <- <-. by rewrite excluded_group_step. }
  split; [intros this Hpart Hprov; rewrite Hstep by done; by eexists|].
  split.
  - unfold generateDeals; simpl.
    rewrite !filter_app. destruct (hasRecentLicense groups) eqn:Hrecent.
    + rewrite filter_cons_True by (by rewrite Hrecent).
      pose proof (generateDealActions_skip (filter (λ g, hasRecentLicense g) before)
        (filter (λ g, hasRecentLicense g) after) groups initialDeals
        providerDomains partnerDomains) as Hskip.
      lapply Hskip; [clear Hskip; intros Hskip|].
      2: { intros this <- <-. eexists _, _. by apply excluded_group_step. }
      destruct (generateDealActions (_ ++ groups :: _) _ _ _) as [a1|e1];
        destruct (generateDealActions (_ ++ _) _ _ _) as [a2|e2]; simpl in Hskip;
        try done.
      * injection Hskip as -> ->. by destruct (for_of _ _ _) as [[[] loop]|].
      * by destruct e1, e2.
    + rewrite filter_cons_False; [done|]. rewrite Hrecent. by intros [].
  - intros Hrecent saved out. unfold generateDeals; simpl.
    rewrite !filter_app, filter_cons_True by (by rewrite Hrecent).
    destruct (generateDealActions (_ ++ groups :: _) _ _ _) as [actions|] eqn:Hactions;
      [|done].
    destruct (generateDealActions_ignored _ _ _ _ _ _ entry actions Hstep Hactions)
      as (saved1 & saved2 & Hsaved & ->).
    cbn [DealActions.savedIgnored DealActions.dealCreateActions
         DealActions.dealUpdateActions].
    destruct (for_of _ _ _) as [[[] loop]|]; [|done].
    intros [= <- <-]. by exists saved1, saved2.
Qed.

(** C10.  A group whose licenses all started maintenance more than ninety
    days before now is dropped before the classifier sees it: the run gives
    the same arrays and the same ignored list as the run without the group. *)
Theorem old_group_is_dropped_before_classification
  (before after : list RelatedLicenseSet) (group : RelatedLicenseSet)
  (initialDeals : list Deal.t) (contactsByEmail : ContactsByEmail)
  (providerDomains partnerDomains : gset string) :
  Forall (λ m, ∃ then_,
            Date_getTime (License.maintenanceStartDate (LicenseContext.license m))
              = Some then_
            ∧ 90 * 86400000 < Date_now - then_) group →
  generateDeals (GenerateDealsData.mk (before ++ group :: after) initialDeals
                   contactsByEmail providerDomains partnerDomains) =
  generateDeals (GenerateDealsData.mk (before ++ after) initialDeals
                   contactsByEmail providerDomains partnerDomains).
Proof.
  intros Hold. unfold generateDeals; simpl.
  rewrite !filter_app, filter_cons_False; [done|].
  rewrite hasRecentLicense_false; [by intros []|].
  eapply Forall_impl; [exact Hold|]. intros m Hm. by apply olderThan90Days_true.
Qed.

End Exclusion.

Section Integrity.

(** A group on which the classifier throws stops the whole run. *)
Lemma generateDealActions_throws matches groups initialDeals provider partner :
  groups ∈ matches →
  (∀ this, partnerDomains this = partner → providerDomains this = provider →
     generateActionsForMatchedGroup groups this = Throw AssertionError) →
  generateDealActions matches initialDeals provider partner = Throw AssertionError.
Proof.
  intros (before & after & ->)%list_elem_of_split Hthrow.
  unfold generateDealActions. rewrite for_of_app.
  destruct (for_of before _ _) as [[[] s1]|e] eqn:Hbefore.
  - apply for_of_static in Hbefore. simpl. unfold mbind, Method_bind.
    rewrite Hthrow; [done| |].
    + by apply (f_equal partnerDomains) in Hbefore.
    + by apply (f_equal providerDomains) in Hbefore.
  - by rewrite (error_is_assertion e).
Qed.

(** The step of the classifier on a group of free licenses that carries a
    transaction. *)
Lemma all_free_group_step this groups :
  ¬ domainExcluded (partnerDomains this) (providerDomains this) groups →
  Forall (λ g, License.licenseType (LicenseContext.license g) = "EVALUATION"
               ∨ License.licenseType (LicenseContext.license g) = "OPEN_SOURCE") groups →
  allTransactions groups ≠ [] →
  generateActionsForMatchedGroup groups this = Throw AssertionError.
Proof.
  intros Hnot Hfree Htxs. unfold generateActionsForMatchedGroup.
  destruct groups as [|g0 groups']; [done|].
  unfold mbind, Method_bind. rewrite ignoring_not_excluded by done.
  unfold this_. rewrite forallb_sort.
  rewrite (proj2 (forallb_isFreeLicense _)) by done.
  unfold assert_ok. rewrite bool_decide_eq_false_2; [done|].
  by destruct (allTransactions (g0 :: groups')).
Qed.

(** C6.  A group of free licenses only (EVALUATION or OPEN_SOURCE) that is
    not domain-excluded and carries a transaction makes the classifier throw
    an assertion error: nothing is pushed for it, and the whole run of
    [generateDealActions], hence of [generateDeals] when the group is recent
    enough to reach it, throws. *)
Theorem all_free_group_with_transactions_throws (groups : RelatedLicenseSet)
  (providerDomains partnerDomains : gset string) :
  ¬ domainExcluded partnerDomains providerDomains groups →
  Forall (λ g, License.licenseType (LicenseContext.license g) = "EVALUATION"
               ∨ License.licenseType (LicenseContext.license g) = "OPEN_SOURCE") groups →
  allTransactions groups ≠ [] →
  (∀ this : DealActionGenerator.t,
     DealActionGenerator.partnerDomains this = partnerDomains →
     DealActionGenerator.providerDomains this = providerDomains →
     generateActionsForMatchedGroup groups this = Throw AssertionError)
  ∧ (∀ matches initialDeals,
       groups ∈ matches →
       generateDealActions matches initialDeals providerDomains partnerDomains
         = Throw AssertionError)
  ∧ (∀ allMatches initialDeals contactsByEmail,
       groups ∈ allMatches → hasRecentLicense groups = true →
       generateDeals (GenerateDealsData.mk allMatches initialDeals contactsByEmail
                        providerDomains partnerDomains) = Throw AssertionError).
Proof.
  intros Hnot Hfree Htxs.
  assert (Hstep : ∀ this : DealActionGenerator.t,
     DealActionGenerator.partnerDomains this = partnerDomains →
     DealActionGenerator.providerDomains this = providerDomains →
     generateActionsForMatchedGroup groups this = Throw AssertionError)
    by (intros this <- <-; by apply all_free_group_step).
  split; [done|]. split.
  - intros matches initialDeals Hin. by eapply generateDealActions_throws.
  - intros allMatches initialDeals contactsByEmail Hin Hrecent.
    unfold generateDeals; simpl.
    rewrite (generateDealActions_throws _ groups); [done| |done].
    apply list_elem_of_filter. split; [by rewrite Hrecent|done].
Qed.

(** The step of the classifier on Scenario A. *)
Lemma single_evaluation_step this license :
  License.licenseType license = "EVALUATION" →
  License.status license = "active" →
  ¬ domainExcluded (partnerDomains this) (providerDomains this)
      [LicenseContext.mk license []] →
  DealFinder.getDeal (dealFinder this) [OfLicense license] = None →
  generateActionsForMatchedGroup [LicenseContext.mk license []] this =
    push_dealCreateAction (DealCreateAction.mk EVAL license [] "0") this.
Proof.
  intros Htype Hstatus Hnot Hdeal. unfold generateActionsForMatchedGroup.
  unfold mbind, Method_bind. rewrite ignoring_not_excluded by done.
  unfold this_, dealOfGroup. simpl. rewrite Hdeal. simpl.
  unfold isFreeLicense. rewrite Htype. simpl.
  by rewrite decide_True.
Qed.

(** C8.  One active EVALUATION license without transactions, for which the
    deal finder has no deal and which is not domain-excluded: the classifier
    pushes one create action with stage EVAL and amount "0" and nothing else;
    when the license is not older than ninety days the run returns that one
    deal to create, with these two properties, and no update. *)
Theorem single_active_evaluation_creates_eval_deal (license : License.t)
  (providerDomains partnerDomains : gset string) :
  License.licenseType license = "EVALUATION" →
  License.status license = "active" →
  ¬ domainExcluded partnerDomains providerDomains [LicenseContext.mk license []] →
  (∀ this : DealActionGenerator.t,
     DealActionGenerator.partnerDomains this = partnerDomains →
     DealActionGenerator.providerDomains this = providerDomains →
     DealFinder.getDeal (DealActionGenerator.dealFinder this) [OfLicense license] = None →
     generateActionsForMatchedGroup [LicenseContext.mk license []] this =
       push_dealCreateAction (DealCreateAction.mk EVAL license [] "0") this)
  ∧ (∀ initialDeals contactsByEmail,
       DealFinder.getDeal (DealFinder_new initialDeals) [OfLicense license] = None →
       olderThan90Days (License.maintenanceStartDate license) = false →
       ∃ created,
         generateDeals (GenerateDealsData.mk [[LicenseContext.mk license []]] initialDeals
                          contactsByEmail providerDomains partnerDomains)
           = Ok ([], GeneratedDeals.mk [created] [] [] [])
         ∧ NewDeal.properties created !! "dealstage" = Some (VStage EVAL)
         ∧ NewDeal.properties created !! "amount" = Some (VString "0")).
Proof.
  intros Htype Hstatus Hnot.
  split; [intros this <- <- Hdeal; by apply single_evaluation_step|].
  intros initialDeals contactsByEmail Hdeal Hrecent.
  assert (Hrec : hasRecentLicense [LicenseContext.mk license []] = true).
  { unfold hasRecentLicense; simpl. by rewrite Hrecent. }
  eexists. unfold generateDeals.
  cbn [GenerateDealsData.allMatches GenerateDealsData.initialDeals
       GenerateDealsData.contactsByEmail GenerateDealsData.providerDomains
       GenerateDealsData.partnerDomains].
  rewrite filter_cons_True by (by rewrite Hrec). rewrite filter_nil.
  unfold generateDealActions. cbn [for_of]. unfold mbind, Method_bind.
  rewrite single_evaluation_step by done. simpl. split; [reflexivity|].
  unfold dealToCreate; cbn [NewDeal.properties DealCreateAction.dealstage
    DealCreateAction.amount DealCreateAction.license DealCreateAction.transactions].
  split.
  - apply lookup_insert_eq.
  - rewrite lookup_insert_ne by done. apply lookup_insert_eq.
Qed.

End Integrity.

(** ** [_.uniq] *)

Section Uniq.
Context {A : Type} `{EqDecision A}.

Lemma elem_of_uniq_go (seen l : list A) x :
  x ∈ JS.uniq_go seen l ↔ x ∈ l ∧ x ∉ seen.
Proof.
  revert seen. induction l as [|y l IH]; intros seen; simpl.
  - rewrite elem_of_nil. tauto.
  - destruct (decide (y ∈ seen)) as [Hy|Hy].
    + rewrite IH, elem_of_cons. split; [tauto|]. intros [[->|?] ?]; tauto.
    + rewrite !elem_of_cons, IH, elem_of_cons.
      destruct (decide (x = y)) as [->|]; tauto.
Qed.

Lemma NoDup_uniq_go (seen l : list A) : NoDup (JS.uniq_go seen l).
Proof.
  revert seen. induction l as [|y l IH]; intros seen; simpl; [constructor|].
  destruct (decide (y ∈ seen)); [done|].
  constructor; [|done]. rewrite elem_of_uniq_go, elem_of_cons. tauto.
Qed.

Lemma elem_of_uniq (l : list A) x : x ∈ JS.uniq l ↔ x ∈ l.
Proof. unfold JS.uniq. rewrite elem_of_uniq_go, elem_of_nil. tauto. Qed.

Lemma NoDup_uniq (l : list A) : NoDup (JS.uniq l).
Proof. apply NoDup_uniq_go. Qed.

End Uniq.

(** ** The loop over the update actions *)

Lemma stripUnchanged_lookup oldDeal properties key val :
  stripUnchanged oldDeal properties !! key = Some val ↔
  properties !! key = Some val ∧ Deal.properties oldDeal !! key ≠ Some val.
Proof. unfold stripUnchanged. by rewrite map_lookup_filter_Some. Qed.

Lemma stripUnchanged_same oldDeal (properties : Properties) :
  (∀ key val, properties !! key = Some val → Deal.properties oldDeal !! key = Some val) →
  stripUnchanged oldDeal properties = ∅.
Proof.
  intros Hsame. apply map_empty. intros key.
  destruct (stripUnchanged oldDeal properties !! key) as [val|] eqn:E; [|done].
  apply stripUnchanged_lookup in E as [E1 E2]. by apply Hsame in E1.
Qed.

Lemma associationsFor_elem dealId contactIds a :
  a ∈ associationsFor dealId contactIds ↔
  Association.dealId a = dealId ∧ Association.contactId a ∈ contactIds.
Proof.
  unfold associationsFor. rewrite elem_of_map. split.
  - by intros (c & -> & Hc).
  - intros [<- Hc]. exists (Association.contactId a). by destruct a.
Qed.

Lemma associationsFor_NoDup dealId contactIds :
  NoDup contactIds → NoDup (associationsFor dealId contactIds).
Proof.
  unfold associationsFor. induction 1 as [|c l Hc Hl IH]; simpl; constructor; [|done].
  rewrite elem_of_map. intros (c' & [= <-] & Hc'). done.
Qed.

Section UpdateLoop.

(** What one turn of the loop pushes, once the old deal is found. *)
Lemma updateDeal_found initialDeals contactsByEmail action oldDeal loop :
  List.find (λ oldDeal, bool_decide (Deal.id oldDeal = DealUpdateAction.id action))
    initialDeals = Some oldDeal →
  updateDeal initialDeals contactsByEmail action loop =
    Ok (tt, UpdateLoop.mk
      (UpdateLoop.dealsToUpdate loop ++
         (let p := stripUnchanged oldDeal (proposedProperties action) in
          if decide (0 < size p)%nat then [DealUpdate.mk (DealUpdateAction.id action) p]
          else []))
      (UpdateLoop.associationsToCreate loop ++
         match DealUpdateAction.license action with
         | Some license =>
             associationsFor (Deal.id oldDeal)
               (filter (λ id, id ∉ Deal.contactIds oldDeal)
                  (contactIdsForLicense contactsByEmail license))
         | None => []
         end)
      (UpdateLoop.associationsToRemove loop ++
         match DealUpdateAction.license action with
         | Some license =>
             associationsFor (Deal.id oldDeal)
               (filter (λ id, id ∉ contactIdsForLicense contactsByEmail license)
                  (Deal.contactIds oldDeal))
         | None => []
         end)).
Proof.
  intros Hfind. unfold updateDeal, proposedProperties. rewrite Hfind.
  destruct loop as [us cs rs].
  destruct (DealUpdateAction.license action) as [license|];
    unfold mbind, mret, Method_bind, Method_ret, UpdateLoop.push_dealsToUpdate,
      UpdateLoop.push_associationsToCreate, UpdateLoop.push_associationsToRemove;
    cbn [DealUpdate.id DealUpdate.properties UpdateLoop.dealsToUpdate
         UpdateLoop.associationsToCreate UpdateLoop.associationsToRemove].
  - set (creating := filter _ (contactIdsForLicense _ _)).
    set (removing := filter _ (Deal.contactIds _)).
    assert (Hc : ∀ l : list string, ¬ (0 < List.length l)%nat → l = []).
    { intros [|??] ?; [done|simpl in *; lia]. }
    destruct (decide (0 < List.length creating)%nat) as [Hcr|Hcr];
      destruct (decide (0 < List.length removing)%nat) as [Hrm|Hrm];
      try rewrite (Hc _ Hcr); try rewrite (Hc _ Hrm);
      simpl; by destruct (decide _); rewrite ?app_nil_r.
  - by destruct (decide _); rewrite ?app_nil_r.
Qed.

End UpdateLoop.

Section UpdateDiff.

(** Every update the loop pushes comes from one action and one old deal. *)
Lemma for_of_updateDeal_Forall (Q : DealUpdateAction.t → Prop) (P : DealUpdate.t → Prop)
  initialDeals contactsByEmail actions loop loop' :
  (∀ action oldDeal,
     Q action →
     List.find (λ oldDeal, bool_decide (Deal.id oldDeal = DealUpdateAction.id action))
       initialDeals = Some oldDeal →
     (0 < size (stripUnchanged oldDeal (proposedProperties action)))%nat →
     P (DealUpdate.mk (DealUpdateAction.id action)
          (stripUnchanged oldDeal (proposedProperties action)))) →
  Forall Q actions →
  for_of actions (updateDeal initialDeals contactsByEmail) loop = Ok (tt, loop') →
  Forall P (UpdateLoop.dealsToUpdate loop) →
  Forall P (UpdateLoop.dealsToUpdate loop').
Proof.
  intros Hstep Hall. revert loop.
  induction Hall as [|action actions Hq _ IH]; intros loop; simpl.
  - by intros [= <-].
  - unfold mbind, Method_bind.
    destruct (List.find (λ oldDeal, bool_decide (Deal.id oldDeal = DealUpdateAction.id action))
                initialDeals) as [oldDeal|] eqn:Hfind.
    + rewrite (updateDeal_found _ _ _ oldDeal) by done.
      intros Hrun Hloop. eapply IH; [exact Hrun|].
      cbn [UpdateLoop.dealsToUpdate]. apply Forall_app. split; [done|].
      cbv zeta. destruct (decide _); [|constructor].
      repeat constructor. by apply Hstep.
    + unfold updateDeal at 1. by rewrite Hfind.
Qed.

(** C3.  An update candidate whose proposed properties (the recomputed ones
    with the requested ones written over them) all equal the values stored in
    the old deal pushes no update; every update of a run has at least one
    property, and each of its properties differs from the value stored in the
    deal it names; [makeUpdateAction] gives no action for an empty bag. *)
Theorem noop_update_is_suppressed :
  (∀ initialDeals contactsByEmail action oldDeal loop,
     List.find (λ oldDeal, bool_decide (Deal.id oldDeal = DealUpdateAction.id action))
       initialDeals = Some oldDeal →
     (∀ key val, proposedProperties action !! key = Some val →
                 Deal.properties oldDeal !! key = Some val) →
     ∃ loop', updateDeal initialDeals contactsByEmail action loop = Ok (tt, loop')
              ∧ UpdateLoop.dealsToUpdate loop' = UpdateLoop.dealsToUpdate loop)
  ∧ (∀ data saved out,
       generateDeals data = Ok (saved, out) →
       ∀ u, u ∈ GeneratedDeals.dealsToUpdate out →
         DealUpdate.properties u ≠ ∅
         ∧ ∃ oldDeal,
             List.find (λ oldDeal, bool_decide (Deal.id oldDeal = DealUpdate.id u))
               (GenerateDealsData.initialDeals data) = Some oldDeal
             ∧ ∀ key val, DealUpdate.properties u !! key = Some val →
                          Deal.properties oldDeal !! key ≠ Some val)
  ∧ (∀ event deal record properties groups deal' properties',
       makeUpdateAction event deal record properties
         = Some (Action.update groups deal' properties') →
       properties' ≠ ∅).
Proof.
  split; [|split].
  - intros initialDeals contactsByEmail action oldDeal loop Hfind Hsame.
    eexists. split; [by apply updateDeal_found|].
    cbn [UpdateLoop.dealsToUpdate]. rewrite stripUnchanged_same by done.
    rewrite map_size_empty. simpl. by rewrite app_nil_r.
  - intros data saved out Hrun u Hu. unfold generateDeals in Hrun.
    destruct (generateDealActions _ _ _ _) as [actions|]; [|done].
    destruct (for_of _ _ _) as [[[] loop]|] eqn:Hloop; [|done].
    injection Hrun as <- <-. cbn [GeneratedDeals.dealsToUpdate] in Hu.
    pose (P := λ u : DealUpdate.t,
      DealUpdate.properties u ≠ ∅
      ∧ ∃ oldDeal,
          List.find (λ oldDeal, bool_decide (Deal.id oldDeal = DealUpdate.id u))
            (GenerateDealsData.initialDeals data) = Some oldDeal
          ∧ ∀ key val, DealUpdate.properties u !! key = Some val →
                       Deal.properties oldDeal !! key ≠ Some val).
    assert (HP : Forall P (UpdateLoop.dealsToUpdate loop)).
    { eapply (for_of_updateDeal_Forall (λ _, True) P);
        [|by apply Forall_true|exact Hloop|constructor].
      intros action oldDeal _ Hfind Hsize. split; cbn [DealUpdate.properties DealUpdate.id].
      - intros Hempty. rewrite Hempty, map_size_empty in Hsize. lia.
      - exists oldDeal. split; [done|]. intros key val Hlookup.
        by apply stripUnchanged_lookup in Hlookup as [_ ?]. }
    rewrite Forall_forall in HP. by apply (HP u).
  - intros event deal record properties groups deal' properties'.
    unfold makeUpdateAction. destruct (decide _) as [|Hsize]; [done|].
    intros [= <- <- <-] Hempty. by rewrite Hempty, map_size_empty in Hsize.
Qed.

(** The ids [contactIdsForLicense] gives are those the directory holds for
    the emails of the license. *)
Lemma contactIdsForLicense_elem contactsByEmail license c :
  c ∈ contactIdsForLicense contactsByEmail license ↔
  ∃ email contact, email ∈ contactEmails license
                   ∧ contactsByEmail !! email = Some contact
                   ∧ c = Contact.hs_object_id contact.
Proof.
  unfold contactIdsForLicense, contactEmails.
  rewrite elem_of_uniq, list_elem_of_omap.
  set (billing := ContactDetails.billingContact (License.contactDetails license)).
  set (partner := License.partnerDetails license ≫= PartnerDetails.billingContact).
  split.
  - intros (o & Ho & Hc). destruct o as [contact|]; [|done]. injection Hc as <-.
    rewrite !elem_of_cons, elem_of_nil in Ho.
    destruct Ho as [Ho|[Ho|[Ho|[]]]]; symmetry in Ho.
    + exists (technicalEmail license), contact. rewrite elem_of_cons. eauto.
    + destruct billing as [info|]; [|done]. simpl in Ho. case_decide; [done|].
      exists (ContactInfo.email info), contact. split; [|done].
      rewrite elem_of_cons, list_elem_of_filter, list_elem_of_omap. right. split; [done|].
      exists (Some info). rewrite elem_of_cons. eauto.
    + destruct partner as [info|]; [|done]. simpl in Ho. case_decide; [done|].
      exists (ContactInfo.email info), contact. split; [|done].
      rewrite elem_of_cons, list_elem_of_filter, list_elem_of_omap. right. split; [done|].
      exists (Some info). rewrite !elem_of_cons. eauto.
  - intros (email & contact & Hemail & Hlookup & ->).
    exists (Some contact). split; [|done].
    rewrite elem_of_cons, list_elem_of_filter, list_elem_of_omap in Hemail.
    destruct Hemail as [->|[Hne (o & Ho & Hemail)]].
    + rewrite elem_of_cons. by left.
    + rewrite !elem_of_cons, elem_of_nil in Ho. destruct o as [info|]; [|done].
      injection Hemail as <-.
      destruct Ho as [Ho|[Ho|[]]]; rewrite <- Ho; simpl;
        rewrite decide_False by done; rewrite <- Hlookup;
        rewrite !elem_of_cons; eauto.
Qed.

(** C9.  For an update action that carries a license, the desired contact ids
    are the ids the directory holds for the technical, billing and partner
    billing emails, without repetition; the turn of the loop pushes one
    association to create for every desired id that is not stored in the deal,
    and one association to remove for every entry of the stored list that is
    not desired. *)
Theorem association_diff_of_update initialDeals contactsByEmail action license oldDeal loop :
  DealUpdateAction.license action = Some license →
  List.find (λ oldDeal, bool_decide (Deal.id oldDeal = DealUpdateAction.id action))
    initialDeals = Some oldDeal →
  let desired := contactIdsForLicense contactsByEmail license in
  let stored := Deal.contactIds oldDeal in
  NoDup desired
  ∧ (∀ c, c ∈ desired ↔
          ∃ email contact, email ∈ contactEmails license
                           ∧ contactsByEmail !! email = Some contact
                           ∧ c = Contact.hs_object_id contact)
  ∧ ∃ loop' created removed,
      updateDeal initialDeals contactsByEmail action loop = Ok (tt, loop')
      ∧ UpdateLoop.associationsToCreate loop'
          = UpdateLoop.associationsToCreate loop ++ created
      ∧ UpdateLoop.associationsToRemove loop'
          = UpdateLoop.associationsToRemove loop ++ removed
      ∧ NoDup created
      ∧ (∀ a, a ∈ created ↔
              Association.dealId a = Deal.id oldDeal
              ∧ Association.contactId a ∈ desired ∧ Association.contactId a ∉ stored)
      ∧ removed = associationsFor (Deal.id oldDeal) (filter (λ c, c ∉ desired) stored)
      ∧ (∀ a, a ∈ removed ↔
              Association.dealId a = Deal.id oldDeal
              ∧ Association.contactId a ∈ stored ∧ Association.contactId a ∉ desired)
      ∧ (NoDup stored → NoDup removed).
Proof.
  intros Hlicense Hfind desired stored.
  split; [apply NoDup_uniq|]. split; [apply contactIdsForLicense_elem|].
  eexists _, _, _. split; [by apply updateDeal_found|].
  cbn [UpdateLoop.associationsToCreate UpdateLoop.associationsToRemove].
  rewrite Hlicense. split; [reflexivity|]. split; [reflexivity|].
  split; [|split; [|split; [|split]]].
  - apply associationsFor_NoDup, NoDup_filter, NoDup_uniq.
  - intros a. rewrite associationsFor_elem, list_elem_of_filter. tauto.
  - done.
  - intros a. rewrite associationsFor_elem, list_elem_of_filter. tauto.
  - intros Hstored. by apply associationsFor_NoDup, NoDup_filter.
Qed.

End UpdateDiff.

(** What one group pushes on a cleared generator: updates never set the stage
    to EVAL, and in the mixed/paid branch every action carries the paid
    transactions and the price taken from the first of them. *)
Lemma pushes_of_group groups this delta :
  generateActionsForMatchedGroup groups (cleared this) = Ok (tt, delta) →
  Forall (λ u, DealUpdateAction.properties u !! "dealstage" ≠ Some (VStage EVAL))
    (dealUpdateActions delta)
  ∧ (forallb isFreeLicense (map LicenseContext.license groups) = false →
     let price := vendorAmountOf <$> head (paidTransactions groups) in
     Forall (λ a, DealCreateAction.transactions a = paidTransactions groups
                  ∧ DealCreateAction.amount a = JS.toFixed2 (default 0 price))
       (dealCreateActions delta)
     ∧ Forall (λ u, DealUpdateAction.transactions u = paidTransactions groups
                    ∧ ∃ license,
                        DealUpdateAction.license u = Some license
                        ∧ DealUpdateAction.properties u =
                            withAmount price
                              (<["addonlicenseid" := VString (License.addonLicenseId license)]>
                               (<["dealstage" := VStage CLOSED_WON]> ∅)))
         (dealUpdateActions delta)).
Proof.
  destruct groups as [|g0 groups]; [done|].
  rewrite <- (forallb_sort (sorter License.maintenanceStartDate ASC)).
  destruct this as [prov part ag df cs us ig].
  unfold generateActionsForMatchedGroup, ignoring, dealOfGroup, cleared, paidTransactions.
  unfold_method. cbn [providerDomains partnerDomains actionGenerator dealFinder
    dealCreateActions dealUpdateActions ignoredLicenseSets].
  generalize (JS.sort (sorter License.maintenanceStartDate ASC)
                (map LicenseContext.license (g0 :: groups))); intros licenses.
  generalize (JS.sort (sorter saleDateOf ASC)
                (filter (λ tx, saleTypeOf tx ≠ "Refund") (allTransactions (g0 :: groups))));
    intros transactions.
  generalize (allTransactions (g0 :: groups)); intros txs.
  generalize (filter (isBadDomain part prov)
                (map domainOf (map LicenseContext.license (g0 :: groups)))); intros bad.
  assert (Hwith : ∀ (price : option JS.number) license,
    withAmount price (<["addonlicenseid" := VString (License.addonLicenseId license)]>
                        (<["dealstage" := VStage CLOSED_WON]> ∅)) !! "dealstage"
    ≠ Some (VStage EVAL)).
  { intros price license. unfold withAmount.
    destruct price as [p|]; [destruct (JS.truthy p)|];
      rewrite ?(lookup_insert_ne _ "amount") by done;
      by rewrite lookup_insert_ne, lookup_insert_eq. }
  intros Hrun.
  repeat (case_decide || case_match || simplify_eq/=);
    (split; [|intros; split]); repeat constructor; eauto; try done.
Qed.

Lemma sorter_ASC_total {A} (fn : A → string) a b :
  sorter fn ASC a b = true ∨ sorter fn ASC b a = true.
Proof. apply String.leb_total. Qed.

Lemma sorter_ASC_trans {A} (fn : A → string) a b c :
  sorter fn ASC a b = true → sorter fn ASC b c = true → sorter fn ASC a c = true.
Proof. apply leb_trans. Qed.

Lemma find_head {A} (f : A → bool) (l : list A) :
  Forall (λ x, f x = true) l → List.find f l = head l.
Proof. destruct 1 as [|x l Hx _]; simpl; [done|]. by rewrite Hx. Qed.

Lemma paidTransactions_not_refund groups :
  Forall (λ tx, saleTypeOf tx ≠ "Refund") (paidTransactions groups).
Proof.
  unfold paidTransactions. apply Forall_sort, Forall_forall.
  by intros tx [? _]%list_elem_of_filter.
Qed.

(** The price of the mixed/paid branch is the vendor amount of an earliest
    transaction that is not a refund, and zero without one. *)
Lemma price_isPriceOf groups :
  isPriceOf groups (default 0 (vendorAmountOf <$> head (paidTransactions groups))).
Proof.
  unfold isPriceOf. destruct (head (paidTransactions groups)) as [tx|] eqn:Hhead; simpl.
  - left. exists tx.
    assert (Hin : tx ∈ paidTransactions groups) by by apply head_Some_elem_of.
    unfold paidTransactions in Hin, Hhead.
    apply elem_of_sort, list_elem_of_filter in Hin as [Hpaid Hin].
    repeat split; [done|done|].
    intros tx' Hin' Hpaid'.
    apply (head_sort_least _ (sorter_ASC_total _) (sorter_ASC_trans _) _ _ Hhead tx').
    by apply list_elem_of_filter.
  - right. split; [|done]. intros tx Hin.
    apply head_None in Hhead. unfold paidTransactions in Hhead.
    apply (proj1 (sort_eq_nil _ _)) in Hhead.
    destruct (decide (saleTypeOf tx = "Refund")) as [|Hpaid]; [done|].
    assert (tx ∈ filter (λ tx, saleTypeOf tx ≠ "Refund") (allTransactions groups))
      as Hfilter by by apply list_elem_of_filter.
    rewrite Hhead in Hfilter. by apply elem_of_nil in Hfilter.
Qed.

Section Stages.

Lemma dealPropertiesForLicense_dealstage license transactions :
  dealPropertiesForLicense license transactions !! "dealstage" = None.
Proof.
  unfold dealPropertiesForLicense. cbv zeta.
  repeat (rewrite lookup_insert_ne by done). apply lookup_empty.
Qed.

Lemma dealPropertiesForLicense_amount license groups :
  dealPropertiesForLicense license (paidTransactions groups) !! "amount" =
    Some (VString (JS.toString
      (default 0 (vendorAmountOf <$> head (paidTransactions groups))))).
Proof.
  unfold dealPropertiesForLicense. cbv zeta.
  repeat (rewrite lookup_insert_ne by done). rewrite lookup_insert_eq.
  do 4 f_equal.
  unfold paidTransactions at 1.
  rewrite (sort_sort _ (sorter_ASC_total _) (sorter_ASC_trans _)).
  fold (paidTransactions groups). rewrite find_head; [done|].
  eapply Forall_impl; [apply paidTransactions_not_refund|].
  intros tx Htx. by apply bool_decide_eq_true.
Qed.

Lemma for_of_updates_Forall (Q : DealUpdateAction.t → Prop) matches this this' :
  (∀ groups s delta,
     generateActionsForMatchedGroup groups (cleared s) = Ok (tt, delta) →
     Forall Q (dealUpdateActions delta)) →
  for_of matches generateActionsForMatchedGroup this = Ok (tt, this') →
  Forall Q (dealUpdateActions this) →
  Forall Q (dealUpdateActions this').
Proof.
  intros Hstep. revert this. induction matches as [|g matches IH]; intros this; simpl.
  - by intros [= <-].
  - unfold mbind, Method_bind. rewrite generateActionsForMatchedGroup_frame.
    destruct (generateActionsForMatchedGroup g (cleared this)) as [[[] delta]|] eqn:Hg;
      [|done].
    intros Hrun Hthis. eapply IH; [exact Hrun|].
    cbn [pushed dealUpdateActions]. apply Forall_app. split; [done|]. by eapply Hstep.
Qed.

Lemma generateDealActions_no_eval matches initialDeals provider partner actions :
  generateDealActions matches initialDeals provider partner = Ok actions →
  Forall (λ u, DealUpdateAction.properties u !! "dealstage" ≠ Some (VStage EVAL))
    (DealActions.dealUpdateActions actions).
Proof.
  unfold generateDealActions.
  destruct (for_of _ _ _) as [[[] this']|] eqn:Hrun; [|done].
  intros [= <-]. cbn [DealActions.dealUpdateActions].
  eapply for_of_updates_Forall; [|exact Hrun|constructor].
  intros groups s delta Hdelta. by apply pushes_of_group in Hdelta as [? _].
Qed.

(** C5.  No update of a run sets the stage of a deal that is CLOSED_WON or
    CLOSED_LOST in the snapshot to EVAL; no update action of the action
    generator does so for the deal it carries. *)
Theorem closed_deal_is_never_reopened :
  (∀ data saved out u oldDeal,
     generateDeals data = Ok (saved, out) →
     u ∈ GeneratedDeals.dealsToUpdate out →
     List.find (λ oldDeal, bool_decide (Deal.id oldDeal = DealUpdate.id u))
       (GenerateDealsData.initialDeals data) = Some oldDeal →
     dealstageOf oldDeal = Some (VStage CLOSED_WON)
     ∨ dealstageOf oldDeal = Some (VStage CLOSED_LOST) →
     DealUpdate.properties u !! "dealstage" ≠ Some (VStage EVAL))
  ∧ (∀ this events groups deal properties,
       Action.update groups deal properties ∈ generateFrom this events →
       dealstageOf deal = Some (VStage CLOSED_WON)
       ∨ dealstageOf deal = Some (VStage CLOSED_LOST) →
       properties !! "dealstage" ≠ Some (VStage EVAL)).
Proof.
  split.
  - intros data saved out u oldDeal Hrun Hu _ _. unfold generateDeals in Hrun.
    destruct (generateDealActions _ _ _ _) as [actions|] eqn:Hactions; [|done].
    apply generateDealActions_no_eval in Hactions.
    destruct (for_of _ _ _) as [[[] loop]|] eqn:Hloop; [|done].
    injection Hrun as <- <-. cbn [GeneratedDeals.dealsToUpdate] in Hu.
    pose (P := λ u : DealUpdate.t,
      DealUpdate.properties u !! "dealstage" ≠ Some (VStage EVAL)).
    assert (HP : Forall P (UpdateLoop.dealsToUpdate loop)).
    { eapply (for_of_updateDeal_Forall _ P); [|exact Hactions|exact Hloop|constructor].
      intros action old Hq _ _. unfold P. cbn [DealUpdate.properties].
      intros [Hprop _]%stripUnchanged_lookup. unfold proposedProperties in Hprop.
      destruct (DealUpdateAction.license action) as [license|]; [|done].
      apply lookup_union_Some_raw in Hprop as [Hprop|[_ Hprop]]; [done|].
      by rewrite dealPropertiesForLicense_dealstage in Hprop. }
    rewrite Forall_forall in HP. by apply (HP u).
  - intros this events groups deal properties Hin Hclosed.
    unfold generateFrom in Hin. apply list_elem_of_In, in_flat_map in Hin.
    destruct Hin as (event & _ & Hin). apply list_elem_of_In in Hin.
    assert (Hmake : ∀ ev d record props,
      makeUpdateAction ev d record props = Some (Action.update groups deal properties) →
      d = deal ∧ properties = props ∪ from_option (dealUpdateProperties d) ∅ record).
    { intros ev d record props. unfold makeUpdateAction.
      destruct (decide _); [done|]. intros [= _ -> <-]. by destruct record. }
    assert (Hstage : dealstageOf deal ≠ Some (VStage EVAL)).
    { by destruct Hclosed as [-> | ->]. }
    destruct event as [g licenses|g licenses transaction|g transaction|g transaction|g txs];
      simpl in Hin.
    + unfold actionForEval in Hin. destruct (DealFinder.getDeal _ _) as [d|].
      * case_decide as Hd; [|by apply elem_of_nil in Hin].
        destruct (makeUpdateAction _ _ _ _) as [a|] eqn:Ha; [|by apply elem_of_nil in Hin].
        apply list_elem_of_singleton in Hin as <-. by apply Hmake in Ha as [-> _].
      * apply list_elem_of_singleton in Hin. done.
    + unfold actionForPurchase in Hin.
      destruct (match DealFinder.getDeal _ _ with Some d => Some d | None => _ end) as [d|].
      * case_decide as Hd; [|by apply elem_of_nil in Hin].
        destruct (makeUpdateAction _ _ _ _) as [a|] eqn:Ha; [|by apply elem_of_nil in Hin].
        apply list_elem_of_singleton in Hin as <-. by apply Hmake in Ha as [-> _].
      * apply list_elem_of_singleton in Hin. done.
    + by apply list_elem_of_singleton in Hin.
    + by apply list_elem_of_singleton in Hin.
    + unfold actionForRefund in Hin. apply list_elem_of_omap in Hin as (d & _ & Ha).
      apply Hmake in Ha as [-> ->]. simpl.
      by rewrite (right_id_L ∅ (∪)), lookup_singleton_eq.
Qed.

End Stages.

Lemma paid_group_not_all_free groups :
  Exists (λ g, License.licenseType (LicenseContext.license g) ≠ "EVALUATION"
               ∧ License.licenseType (LicenseContext.license g) ≠ "OPEN_SOURCE") groups →
  forallb isFreeLicense (map LicenseContext.license groups) = false.
Proof.
  intros Hpaid. destruct (forallb _ _) eqn:Hall; [|done].
  apply forallb_isFreeLicense in Hall. apply Exists_exists in Hpaid as (g & Hg & Hne).
  rewrite Forall_forall in Hall. specialize (Hall g Hg). tauto.
Qed.

Lemma generateActionsForMatchedGroup_pushed groups this this' :
  generateActionsForMatchedGroup groups this = Ok (tt, this') →
  ∃ delta, generateActionsForMatchedGroup groups (cleared this) = Ok (tt, delta)
           ∧ this' = pushed this delta.
Proof.
  rewrite generateActionsForMatchedGroup_frame.
  destruct (generateActionsForMatchedGroup groups (cleared this)) as [[[] delta]|]; [|done].
  intros [= <-]. eauto.
Qed.

Section Pricing.

(** C7.  In the mixed/paid branch the price is the vendor amount of a
    transaction of the group that is not a refund and has the earliest sale
    date, zero without one.  Every create action pushed for the group gives
    the new deal that price as its amount ([toFixed(2)]); every update action
    pushed for the group proposes that price as the deal's amount, written by
    [toFixed(2)] when it is not zero and left to the recomputed properties
    ([toString()]) when it is. *)
Theorem price_is_first_paid_vendor_amount groups this this' :
  Exists (λ g, License.licenseType (LicenseContext.license g) ≠ "EVALUATION"
               ∧ License.licenseType (LicenseContext.license g) ≠ "OPEN_SOURCE") groups →
  generateActionsForMatchedGroup groups this = Ok (tt, this') →
  ∃ price creates updates,
    isPriceOf groups price
    ∧ dealCreateActions this' = dealCreateActions this ++ creates
    ∧ dealUpdateActions this' = dealUpdateActions this ++ updates
    ∧ Forall (λ a, DealCreateAction.amount a = JS.toFixed2 price
                   ∧ ∀ contactsByEmail,
                       NewDeal.properties (dealToCreate contactsByEmail a) !! "amount"
                         = Some (VString (JS.toFixed2 price))) creates
    ∧ Forall (λ u, proposedProperties u !! "amount"
                     = Some (VString (if JS.truthy price then JS.toFixed2 price
                                      else JS.toString price))) updates.
Proof.
  intros Hmixed%paid_group_not_all_free (delta & Hdelta & ->)%generateActionsForMatchedGroup_pushed.
  apply pushes_of_group in Hdelta as [_ Hdelta]. destruct (Hdelta Hmixed) as [Hcs Hus].
  exists (default 0 (vendorAmountOf <$> head (paidTransactions groups))),
    (dealCreateActions delta), (dealUpdateActions delta).
  split; [apply price_isPriceOf|]. split; [done|]. split; [done|]. split.
  - eapply Forall_impl; [exact Hcs|]. intros a [_ Hamount]. split; [done|].
    intros contactsByEmail. unfold dealToCreate. cbn [NewDeal.properties].
    rewrite lookup_insert_ne by done. by rewrite lookup_insert_eq, Hamount.
  - eapply Forall_impl; [exact Hus|]. intros u (Htxs & license & Hlicense & Hprops).
    unfold proposedProperties. rewrite Hlicense, Hprops, Htxs. unfold withAmount.
    destruct (head (paidTransactions groups)) as [tx|] eqn:Hhead; simpl.
    + destruct (JS.truthy (vendorAmountOf tx)) eqn:Htruthy.
      * apply lookup_union_Some_l, lookup_insert_eq.
      * rewrite lookup_union_r by done.
        by rewrite dealPropertiesForLicense_amount, Hhead.
    + rewrite lookup_union_r by done.
      by rewrite dealPropertiesForLicense_amount, Hhead.
Qed.


End Pricing.

End Properties.

(** ** The properties on the examples *)

Section OnExamples.
Existing Instance exampleCollaborators.

(** C4.  The second run is not silent.  For an evaluation followed by a paid
    license without transactions, the first run creates a deal with amount
    "0.00"; the second run, on the snapshot that holds this deal, asks for an
    update of its amount to "0". *)
Theorem second_run_rewrites_zero_amount :
  ∃ first,
    Examples.run [Examples.conversionGroup] [] = Ok ([], first)
    ∧ GeneratedDeals.dealsToUpdate first = []
    ∧ Snapshot.apply [] first = [Examples.createdDeal]
    ∧ Examples.run [Examples.conversionGroup] (Snapshot.apply [] first)
        = Ok ([], GeneratedDeals.mk [] [Examples.secondUpdate] [] []).
Proof.
  eexists. split; [vm_compute; reflexivity|].
  split; [reflexivity|]. split; vm_compute; reflexivity.
Qed.



(** The ignore rule is decided by evaluation on the examples. *)
Lemma examples_not_excluded (groups : RelatedLicenseSet) :
  bool_decide (domainExcluded Examples.partners Examples.providers groups) = false →
  ¬ domainExcluded Examples.partners Examples.providers groups.
Proof. by intros Hb%bool_decide_eq_false. Qed.

(** C2 on a group of one license whose technical contact is at a partner domain. *)
Lemma domain_excluded_group_is_skipped_witness :
  Examples.partnerGroup ≠ []
  ∧ domainExcluded Examples.partners Examples.providers Examples.partnerGroup
  ∧ (∃ this',
       generateActionsForMatchedGroup Examples.partnerGroup Examples.freshGenerator
         = Ok (tt, this')
       ∧ ignoredLicenseSets this'
           = [] ++ [[IgnoredLicense.mk "bad-domains:partner.example" Examples.partnerLicense]]
       ∧ dealCreateActions this' = []
       ∧ dealUpdateActions this' = [])
  ∧ result_map snd (Examples.run [Examples.partnerGroup] [])
    = result_map snd (Examples.run [] []).
Proof.
  assert (Hne : Examples.partnerGroup ≠ []) by discriminate.
  assert (Hex : domainExcluded Examples.partners Examples.providers Examples.partnerGroup).
  { apply (bool_decide_unpack _). vm_compute. exact I. }
  split; [exact Hne|]. split; [exact Hex|].
  destruct (domain_excluded_group_is_skipped (H := exampleCollaborators)
              [] [] Examples.partnerGroup [] Examples.directory
              Examples.providers Examples.partners Hne Hex)
    as (_ & Hstep & Hrun & _).
  split; [|exact Hrun].
  exact (Hstep Examples.freshGenerator eq_refl eq_refl).
Defined.

(** C10 on a group whose only license started a year before the clock's now. *)
Lemma old_group_is_dropped_before_classification_witness :
  Examples.run [Examples.oldGroup; Examples.evalGroup] [] = Examples.run [Examples.evalGroup] [].
Proof.
  apply (old_group_is_dropped_before_classification (H := exampleCollaborators)
           [] [Examples.evalGroup] Examples.oldGroup [] Examples.directory
           Examples.providers Examples.partners).
  constructor; [|constructor].
  exists 1609459200000. split; [vm_compute; reflexivity|].
  vm_compute. reflexivity.
Defined.

(** C6 on an evaluation that carries a purchase. *)
Lemma all_free_group_with_transactions_throws_witness :
  Examples.run [Examples.evalGroup; Examples.brokenGroup] [] = Throw AssertionError.
Proof.
  refine (proj2 (proj2 (all_free_group_with_transactions_throws (H := exampleCollaborators)
            Examples.brokenGroup Examples.providers Examples.partners _ _ _)) _ _ _ _ _).
  - apply examples_not_excluded. vm_compute; reflexivity.
  - constructor; [left; reflexivity|constructor].
  - discriminate.
  - apply elem_of_cons. right. apply elem_of_cons. left. reflexivity.
  - vm_compute; reflexivity.
Defined.

(** C8 on Scenario A. *)
Lemma single_active_evaluation_creates_eval_deal_witness :
  ∃ created,
    Examples.run [Examples.evalGroup] [] = Ok ([], GeneratedDeals.mk [created] [] [] [])
    ∧ NewDeal.properties created !! "dealstage" = Some (VStage EVAL)
    ∧ NewDeal.properties created !! "amount" = Some (VString "0").
Proof.
  refine (proj2 (single_active_evaluation_creates_eval_deal (H := exampleCollaborators)
            Examples.evalLicense Examples.providers Examples.partners _ _ _) _ _ _ _).
  - reflexivity.
  - reflexivity.
  - apply examples_not_excluded. vm_compute; reflexivity.
  - vm_compute; reflexivity.
  - vm_compute; reflexivity.
Defined.

(** C3 on the update of the second run over [Examples.createdDeal]. *)
Lemma noop_update_is_suppressed_witness :
  DealUpdate.properties Examples.secondUpdate ≠ ∅
  ∧ ∃ oldDeal,
      List.find (λ oldDeal, bool_decide (Deal.id oldDeal = DealUpdate.id Examples.secondUpdate))
        [Examples.createdDeal] = Some oldDeal
      ∧ ∀ key val, DealUpdate.properties Examples.secondUpdate !! key = Some val →
                   Deal.properties oldDeal !! key ≠ Some val.
Proof.
  refine (proj1 (proj2 (noop_update_is_suppressed (H := exampleCollaborators)))
            (Examples.dataOf [Examples.conversionGroup] [Examples.createdDeal])
            [] (GeneratedDeals.mk [] [Examples.secondUpdate] [] []) _
            Examples.secondUpdate _).
  - vm_compute; reflexivity.
  - apply elem_of_cons. left. reflexivity.
Defined.

(** C9 on a deal associated with a contact its license does not name. *)
Lemma association_diff_of_update_witness :
  ∃ loop' created removed,
    updateDeal (H := exampleCollaborators) [Examples.staleDeal] Examples.directory
      Examples.closingAction (UpdateLoop.mk [] [] []) = Ok (tt, loop')
    ∧ UpdateLoop.associationsToCreate loop' = [] ++ created
    ∧ UpdateLoop.associationsToRemove loop' = [] ++ removed
    ∧ created = [Association.mk "c-1" "d-2"]
    ∧ removed = [Association.mk "c-9" "d-2"].
Proof.
  destruct (association_diff_of_update (H := exampleCollaborators)
              [Examples.staleDeal] Examples.directory Examples.closingAction
              Examples.paidLicense Examples.staleDeal (UpdateLoop.mk [] [] [])
              eq_refl eq_refl)
    as (_ & _ & loop' & created & removed & Hrun & Hc & Hr & _ & _ & Hremoved & _).
  exists loop', created, removed. split; [exact Hrun|]. split; [exact Hc|].
  split; [exact Hr|].
  assert (Hloop : loop' = UpdateLoop.mk
    (UpdateLoop.dealsToUpdate loop') [Association.mk "c-1" "d-2"] [Association.mk "c-9" "d-2"]).
  { assert (Hrun' := Hrun). vm_compute in Hrun'. injection Hrun' as <-. reflexivity. }
  rewrite Hloop in Hc, Hr. simpl in Hc, Hr. by split.
Defined.

(** C9, the claim as stated fails.  A deal that stores the contact c-9 twice,
    with a license that does not name c-9, gets two entries to remove for this
    one contact id. *)
Lemma contact_stored_twice_is_removed_twice :
  "c-9" ∈ Deal.contactIds MoreExamples.twiceStoredDeal
  ∧ ("c-9" ∉ contactIdsForLicense Examples.directory Examples.paidLicense)
  ∧ ∃ loop',
      updateDeal [MoreExamples.twiceStoredDeal] Examples.directory Examples.closingAction
        (UpdateLoop.mk [] [] []) = Ok (tt, loop')
      ∧ UpdateLoop.associationsToRemove loop'
          = [Association.mk "c-9" "d-2"; Association.mk "c-9" "d-2"].
Proof.
  split; [apply elem_of_cons; by left|].
  split; [apply (bool_decide_unpack _); vm_compute; exact I|].
  eexists. split; [vm_compute; reflexivity|]. reflexivity.
Qed.

(** C5 on the update of the second run, whose deal is CLOSED_WON. *)
Lemma closed_deal_is_never_reopened_witness :
  dealstageOf Examples.createdDeal = Some (VStage CLOSED_WON)
  ∧ Examples.run [Examples.conversionGroup] [Examples.createdDeal]
      = Ok ([], GeneratedDeals.mk [] [Examples.secondUpdate] [] [])
  ∧ DealUpdate.properties Examples.secondUpdate !! "dealstage" ≠ Some (VStage EVAL).
Proof.
  assert (Hstage : dealstageOf Examples.createdDeal = Some (VStage CLOSED_WON))
    by (vm_compute; reflexivity).
  assert (Hrun : Examples.run [Examples.conversionGroup] [Examples.createdDeal]
                   = Ok ([], GeneratedDeals.mk [] [Examples.secondUpdate] [] []))
    by (vm_compute; reflexivity).
  split; [exact Hstage|]. split; [exact Hrun|].
  refine (proj1 (closed_deal_is_never_reopened (H := exampleCollaborators))
            _ _ _ Examples.secondUpdate Examples.createdDeal Hrun _ _ (or_introl Hstage)).
  - apply elem_of_cons. left. reflexivity.
  - vm_compute; reflexivity.
Defined.

(** C7 on an evaluation followed by a paid license with a purchase, a renewal
    and a refund. *)
Lemma price_is_first_paid_vendor_amount_witness :
  generateActionsForMatchedGroup Examples.paidGroup Examples.freshGenerator
    = Ok (tt, Examples.afterPaidGroup)
  ∧ ∃ price creates updates,
      isPriceOf Examples.paidGroup price
      ∧ dealCreateActions Examples.afterPaidGroup
          = dealCreateActions Examples.freshGenerator ++ creates
      ∧ dealUpdateActions Examples.afterPaidGroup
          = dealUpdateActions Examples.freshGenerator ++ updates
      ∧ Forall (λ a, DealCreateAction.amount a = JS.toFixed2 price) creates.
Proof.
  assert (Hrun : generateActionsForMatchedGroup Examples.paidGroup Examples.freshGenerator
                   = Ok (tt, Examples.afterPaidGroup))
    by reflexivity.
  assert (Hpaid : Exists (λ g,
      License.licenseType (LicenseContext.license g) ≠ "EVALUATION"
      ∧ License.licenseType (LicenseContext.license g) ≠ "OPEN_SOURCE") Examples.paidGroup).
  { apply Exists_cons_tl, Exists_cons_hd. split; discriminate. }
  split; [exact Hrun|].
  destruct (price_is_first_paid_vendor_amount (H := exampleCollaborators)
              Examples.paidGroup Examples.freshGenerator Examples.afterPaidGroup Hpaid Hrun)
    as (price & creates & updates & Hprice & Hcs & Hus & Hamount & _).
  exists price, creates, updates. split; [exact Hprice|].
  split; [exact Hcs|]. split; [exact Hus|].
  eapply Forall_impl; [exact Hamount|]. intros a [Ha _]. exact Ha.
Defined.

End OnExamples.

(** * More properties of the code *)

Section MoreProperties.
Context `{Collaborators}.

(** ** Ends of a sorted array *)

Section SortEnds.
Context {A : Type} (le : A → A → bool).
Hypothesis le_total : ∀ a b, le a b = true ∨ le b a = true.
Hypothesis le_trans : ∀ a b c, le a b = true → le b c = true → le a c = true.

Lemma StronglySorted_last (l : list A) x :
  StronglySorted (λ a b, le a b = true) l → last l = Some x →
  ∀ y, y ∈ l → le y x = true.
Proof.
  induction 1 as [|z l Hl IH Hz]; [done|].
  intros Hlast y Hy. destruct l as [|z' l'].
  - simpl in Hlast. injection Hlast as <-. apply list_elem_of_singleton in Hy as ->.
    by destruct (le_total z z).
  - change (last (z :: z' :: l')) with (last (z' :: l')) in Hlast.
    apply elem_of_cons in Hy as [->|Hy]; [|by apply IH].
    rewrite Forall_forall in Hz. apply Hz. by apply last_Some_elem_of.
Qed.

(** The element a sort puts last may stay behind every other one. *)
Lemma last_sort_greatest (l : list A) x :
  last (JS.sort le l) = Some x → x ∈ l ∧ ∀ y, y ∈ l → le y x = true.
Proof.
  intros Hlast. split.
  - apply (elem_of_sort le). by apply last_Some_elem_of.
  - intros y Hy. eapply StronglySorted_last; [by apply sort_StronglySorted|done|].
    by apply elem_of_sort.
Qed.

(** [find] on a sorted array gives a least element among those it accepts. *)
Lemma find_StronglySorted (f : A → bool) (l : list A) x :
  StronglySorted (λ a b, le a b = true) l → List.find f l = Some x →
  x ∈ l ∧ f x = true ∧ ∀ y, y ∈ l → f y = true → le x y = true.
Proof.
  induction 1 as [|z l Hl IH Hz]; [done|]. simpl.
  destruct (f z) eqn:Hfz.
  - intros [= <-]. split; [apply elem_of_cons; by left|]. split; [done|].
    intros y [->|Hy]%elem_of_cons _; [by destruct (le_total z z)|].
    rewrite Forall_forall in Hz. by apply Hz.
  - intros (Hin & Hfx & Hleast)%IH. split; [apply elem_of_cons; by right|].
    split; [done|]. intros y [->|Hy]%elem_of_cons Hfy; [congruence|by apply Hleast].
Qed.

Lemma find_sort_least (f : A → bool) (l : list A) x :
  List.find f (JS.sort le l) = Some x →
  x ∈ l ∧ f x = true ∧ ∀ y, y ∈ l → f y = true → le x y = true.
Proof.
  intros (Hin & Hfx & Hleast)%find_StronglySorted; [|by apply sort_StronglySorted].
  split; [by apply (elem_of_sort le)|]. split; [done|].
  intros y Hy. apply Hleast. by apply elem_of_sort.
Qed.

End SortEnds.

Lemma List_last_default {A} (l : list A) (d : A) : List.last l d = default d (last l).
Proof.
  induction l as [|x l IH]; [done|]. destruct l as [|y l]; [done|].
  change (List.last (x :: y :: l) d) with (List.last (y :: l) d).
  change (last (x :: y :: l)) with (last (y :: l)). exact IH.
Qed.

Lemma List_hd_default {A} (l : list A) (d : A) : List.hd d l = default d (head l).
Proof. by destruct l. Qed.

Lemma find_none_forallb {A} (f : A → bool) (l : list A) :
  List.find (λ x, negb (f x)) l = None ↔ forallb f l = true.
Proof.
  induction l as [|x l IH]; simpl; [done|].
  destruct (f x); simpl; [done|]. split; discriminate.
Qed.

(** ** The branches of the classifier *)

(** The step of the classifier on a group it does not exclude, in the branch
    of free licenses without transactions. *)
Lemma all_free_branch_step this groups latest :
  ¬ domainExcluded (partnerDomains this) (providerDomains this) groups →
  Forall (λ g, License.licenseType (LicenseContext.license g) = "EVALUATION"
               ∨ License.licenseType (LicenseContext.license g) = "OPEN_SOURCE") groups →
  allTransactions groups = [] →
  last (sortedLicenses groups) = Some latest →
  generateActionsForMatchedGroup groups this =
    match dealOfGroup this groups with
    | Some deal =>
        if decide (License.status latest = "active") then
          if decide (Some (VString (License.maintenanceStartDate latest))
                       ≠ Deal.properties deal !! "closedate"
                     ∨ Some (VString (License.addonLicenseId latest))
                       ≠ Deal.properties deal !! "addonlicenseid")
          then
            push_dealUpdateAction
              (DealUpdateAction.mk (Deal.id deal) None []
                 (<["addonlicenseid" := VString (License.addonLicenseId latest)]>
                  (<["closedate" := VString (License.maintenanceStartDate latest)]> ∅)))
              this
          else ignoreLicenses "eval-up-to-date" (sortedLicenses groups) this
        else
          push_dealUpdateAction
            (DealUpdateAction.mk (Deal.id deal) None []
               (<["addonlicenseid" := VString (License.addonLicenseId latest)]>
                (<["dealstage" := VStage CLOSED_LOST]> ∅)))
            this
    | None =>
        if decide (License.status latest = "active") then
          push_dealCreateAction (DealCreateAction.mk EVAL latest [] "0") this
        else ignoreLicenses "inactive-evals" (sortedLicenses groups) this
    end.
Proof.
  intros Hnot Hfree Htxs Hlast. unfold generateActionsForMatchedGroup.
  destruct groups as [|g0 groups']; [done|].
  unfold mbind, Method_bind. rewrite ignoring_not_excluded by done.
  unfold this_. fold (sortedLicenses (g0 :: groups')).
  unfold sortedLicenses at 1. rewrite forallb_sort.
  rewrite (proj2 (forallb_isFreeLicense _)) by done.
  rewrite Htxs. cbn [List.length bool_decide assert_ok map].
  rewrite List_last_default, Hlast. cbn [default JS.sort_strings JS.sort foldr head or_else].
  destruct (dealOfGroup this (g0 :: groups')) as [deal|];
    repeat destruct (decide _); reflexivity.
Qed.

Lemma latest_license_is_greatest groups latest :
  last (sortedLicenses groups) = Some latest →
  latest ∈ map LicenseContext.license groups
  ∧ ∀ l, l ∈ map LicenseContext.license groups →
         String.leb (License.maintenanceStartDate l) (License.maintenanceStartDate latest)
           = true.
Proof.
  apply (last_sort_greatest (sorter License.maintenanceStartDate ASC)
           (sorter_ASC_total _) (sorter_ASC_trans _)).
Qed.

(** X1.  A group of free licenses without transactions that the ignore rule
    lets through, whose latest license is active and whose deal already
    carries the id of that license and its start date as close date, pushes no
    action: it adds one entry to the ignored list, its licenses by start date,
    each with the reason "eval-up-to-date".  The latest license is one with
    the greatest maintenance start date of the group. *)
Theorem up_to_date_evaluation_is_ignored this groups latest deal :
  ¬ domainExcluded (partnerDomains this) (providerDomains this) groups →
  Forall (λ g, License.licenseType (LicenseContext.license g) = "EVALUATION"
               ∨ License.licenseType (LicenseContext.license g) = "OPEN_SOURCE") groups →
  allTransactions groups = [] →
  last (sortedLicenses groups) = Some latest →
  dealOfGroup this groups = Some deal →
  License.status latest = "active" →
  Deal.properties deal !! "closedate" = Some (VString (License.maintenanceStartDate latest)) →
  Deal.properties deal !! "addonlicenseid" = Some (VString (License.addonLicenseId latest)) →
  (latest ∈ map LicenseContext.license groups
   ∧ ∀ l, l ∈ map LicenseContext.license groups →
          String.leb (License.maintenanceStartDate l) (License.maintenanceStartDate latest)
            = true)
  ∧ ∃ this',
      generateActionsForMatchedGroup groups this = Ok (tt, this')
      ∧ ignoredLicenseSets this'
          = ignoredLicenseSets this
            ++ [map (IgnoredLicense.mk "eval-up-to-date") (sortedLicenses groups)]
      ∧ dealCreateActions this' = dealCreateActions this
      ∧ dealUpdateActions this' = dealUpdateActions this.
Proof.
  intros Hnot Hfree Htxs Hlast Hdeal Hactive Hdate Hid.
  split; [by apply latest_license_is_greatest|].
  rewrite (all_free_branch_step this groups latest) by done.
  rewrite Hdeal, decide_True by done. rewrite decide_False; [by eexists|].
  rewrite Hdate, Hid. tauto.
Qed.

(** X2.  A group of free licenses without transactions that the ignore rule
    lets through, whose latest license is active and whose deal has another
    close date or another license id, pushes one update action for the deal
    and nothing else.  The action has no license and no transactions, and its
    properties are the license id and the start date as close date; so the
    loop of [generateDeals] changes no association for it and updates no
    other property than these two. *)
Theorem stale_evaluation_deal_is_refreshed this groups latest deal :
  ¬ domainExcluded (partnerDomains this) (providerDomains this) groups →
  Forall (λ g, License.licenseType (LicenseContext.license g) = "EVALUATION"
               ∨ License.licenseType (LicenseContext.license g) = "OPEN_SOURCE") groups →
  allTransactions groups = [] →
  last (sortedLicenses groups) = Some latest →
  dealOfGroup this groups = Some deal →
  License.status latest = "active" →
  Deal.properties deal !! "closedate" ≠ Some (VString (License.maintenanceStartDate latest))
  ∨ Deal.properties deal !! "addonlicenseid"
      ≠ Some (VString (License.addonLicenseId latest)) →
  let action :=
    DealUpdateAction.mk (Deal.id deal) None []
      (<["addonlicenseid" := VString (License.addonLicenseId latest)]>
       (<["closedate" := VString (License.maintenanceStartDate latest)]> ∅)) in
  (∃ this',
     generateActionsForMatchedGroup groups this = Ok (tt, this')
     ∧ dealUpdateActions this' = dealUpdateActions this ++ [action]
     ∧ dealCreateActions this' = dealCreateActions this
     ∧ ignoredLicenseSets this' = ignoredLicenseSets this)
  ∧ ∀ initialDeals contactsByEmail loop oldDeal,
      List.find (λ oldDeal, bool_decide (Deal.id oldDeal = Deal.id deal)) initialDeals
        = Some oldDeal →
      ∃ loop',
        updateDeal initialDeals contactsByEmail action loop = Ok (tt, loop')
        ∧ UpdateLoop.associationsToCreate loop' = UpdateLoop.associationsToCreate loop
        ∧ UpdateLoop.associationsToRemove loop' = UpdateLoop.associationsToRemove loop
        ∧ (UpdateLoop.dealsToUpdate loop' = UpdateLoop.dealsToUpdate loop
           ∨ ∃ update,
               UpdateLoop.dealsToUpdate loop' = UpdateLoop.dealsToUpdate loop ++ [update]
               ∧ DealUpdate.id update = Deal.id deal
               ∧ ∀ key, is_Some (DealUpdate.properties update !! key) →
                        key = "addonlicenseid" ∨ key = "closedate").
Proof.
  intros Hnot Hfree Htxs Hlast Hdeal Hactive Hchanged action. split.
  - rewrite (all_free_branch_step this groups latest) by done.
    rewrite Hdeal, decide_True by done. rewrite decide_True; [by eexists|].
    destruct Hchanged; [left|right]; congruence.
  - intros initialDeals contactsByEmail loop oldDeal Hfind.
    rewrite (updateDeal_found _ _ action oldDeal) by done.
    cbn [DealUpdateAction.license action]. rewrite !app_nil_r.
    eexists. split; [reflexivity|].
    cbn [UpdateLoop.associationsToCreate UpdateLoop.associationsToRemove
         UpdateLoop.dealsToUpdate].
    split; [done|]. split; [done|]. cbv zeta.
    destruct (decide _); [right|left; by rewrite app_nil_r].
    eexists. split; [reflexivity|]. split; [done|].
    cbn [DealUpdate.properties]. intros key [val [Hprop _]%stripUnchanged_lookup].
    unfold proposedProperties, action in Hprop.
    cbn [DealUpdateAction.license DealUpdateAction.properties] in Hprop.
    destruct (decide (key = "addonlicenseid")) as [|Hk1]; [by left|].
    destruct (decide (key = "closedate")) as [|Hk2]; [by right|].
    rewrite !lookup_insert_ne, lookup_empty in Hprop by done. discriminate Hprop.
Qed.

Section Expired.

(** X3.  A group of free licenses without transactions that the ignore rule
    lets through, whose latest license is not active and that has a deal,
    pushes one update action for the deal and nothing else: without license,
    with the license id and the stage CLOSED_LOST.  For a stored deal in
    another stage the loop of [generateDeals] turns it into one update that
    sets the stage to CLOSED_LOST, and it changes no association. *)
Theorem inactive_evaluation_closes_its_deal this groups latest deal :
  ¬ domainExcluded (partnerDomains this) (providerDomains this) groups →
  Forall (λ g, License.licenseType (LicenseContext.license g) = "EVALUATION"
               ∨ License.licenseType (LicenseContext.license g) = "OPEN_SOURCE") groups →
  allTransactions groups = [] →
  last (sortedLicenses groups) = Some latest →
  dealOfGroup this groups = Some deal →
  License.status latest ≠ "active" →
  let action :=
    DealUpdateAction.mk (Deal.id deal) None []
      (<["addonlicenseid" := VString (License.addonLicenseId latest)]>
       (<["dealstage" := VStage CLOSED_LOST]> ∅)) in
  (∃ this',
     generateActionsForMatchedGroup groups this = Ok (tt, this')
     ∧ dealUpdateActions this' = dealUpdateActions this ++ [action]
     ∧ dealCreateActions this' = dealCreateActions this
     ∧ ignoredLicenseSets this' = ignoredLicenseSets this)
  ∧ ∀ initialDeals contactsByEmail loop oldDeal,
      List.find (λ oldDeal, bool_decide (Deal.id oldDeal = Deal.id deal)) initialDeals
        = Some oldDeal →
      Deal.properties oldDeal !! "dealstage" ≠ Some (VStage CLOSED_LOST) →
      ∃ update,
        updateDeal initialDeals contactsByEmail action loop =
          Ok (tt, UpdateLoop.mk (UpdateLoop.dealsToUpdate loop ++ [update])
                    (UpdateLoop.associationsToCreate loop)
                    (UpdateLoop.associationsToRemove loop))
        ∧ DealUpdate.id update = Deal.id deal
        ∧ DealUpdate.properties update !! "dealstage" = Some (VStage CLOSED_LOST).
Proof.
  intros Hnot Hfree Htxs Hlast Hdeal Hinactive action. split.
  - rewrite (all_free_branch_step this groups latest) by assumption.
    rewrite Hdeal. rewrite decide_False by assumption. by eexists.
  - intros initialDeals contactsByEmail loop oldDeal Hfind Hstage.
    rewrite (updateDeal_found _ _ action oldDeal) by exact Hfind.
    cbn [DealUpdateAction.license action]. rewrite !app_nil_r.
    assert (Hlookup : stripUnchanged oldDeal (proposedProperties action) !! "dealstage"
                      = Some (VStage CLOSED_LOST)).
    { apply stripUnchanged_lookup. split; [|exact Hstage].
      unfold proposedProperties, action;
        cbn [DealUpdateAction.license DealUpdateAction.properties].
      rewrite lookup_insert_ne by (intros ?; discriminate).
      apply lookup_insert_eq. }
    cbv zeta. rewrite decide_True.
    + eexists. split; [destruct loop; reflexivity|]. by split.
    + destruct (decide (stripUnchanged oldDeal (proposedProperties action) = ∅)) as [E|E].
      * rewrite E, lookup_empty in Hlookup. discriminate Hlookup.
      * apply map_size_non_empty_iff in E. lia.
Qed.

End Expired.

(** X4.  A group of free licenses without transactions that the ignore rule
    lets through, whose latest license is not active and that has no deal,
    creates nothing: it adds one entry to the ignored list, its licenses by
    start date, each with the reason "inactive-evals". *)
Theorem inactive_evaluation_without_deal_is_ignored this groups latest :
  ¬ domainExcluded (partnerDomains this) (providerDomains this) groups →
  Forall (λ g, License.licenseType (LicenseContext.license g) = "EVALUATION"
               ∨ License.licenseType (LicenseContext.license g) = "OPEN_SOURCE") groups →
  allTransactions groups = [] →
  last (sortedLicenses groups) = Some latest →
  dealOfGroup this groups = None →
  License.status latest ≠ "active" →
  ∃ this',
    generateActionsForMatchedGroup groups this = Ok (tt, this')
    ∧ ignoredLicenseSets this'
        = ignoredLicenseSets this
          ++ [map (IgnoredLicense.mk "inactive-evals") (sortedLicenses groups)]
    ∧ dealCreateActions this' = dealCreateActions this
    ∧ dealUpdateActions this' = dealUpdateActions this.
Proof.
  intros Hnot Hfree Htxs Hlast Hdeal Hinactive.
  rewrite (all_free_branch_step this groups latest) by done.
  rewrite Hdeal, decide_False by done. by eexists.
Qed.

(** The earliest license of a group that is not free, [firstFoundPaid]. *)
Lemma firstFoundPaid_is_earliest_paid groups paid :
  List.find (λ l, negb (isFreeLicense l)) (sortedLicenses groups) = Some paid →
  paid ∈ map LicenseContext.license groups
  ∧ isFreeLicense paid = false
  ∧ ∀ l, l ∈ map LicenseContext.license groups → isFreeLicense l = false →
         String.leb (License.maintenanceStartDate paid) (License.maintenanceStartDate l)
           = true.
Proof.
  intros Hfind.
  destruct (find_sort_least (sorter License.maintenanceStartDate ASC)
              (sorter_ASC_total _) (sorter_ASC_trans _) _ _ _ Hfind) as (Hin & Hpaid & Hleast).
  split; [done|]. split; [by apply negb_true_iff|].
  intros l Hl Hfree. apply Hleast; [done|]. by apply negb_true_iff.
Qed.

Lemma firstFoundPaid_exists groups :
  forallb isFreeLicense (map LicenseContext.license groups) = false →
  ∃ paid, List.find (λ l, negb (isFreeLicense l)) (sortedLicenses groups) = Some paid.
Proof.
  intros Hmixed.
  destruct (List.find _ (sortedLicenses groups)) as [paid|] eqn:Hfind; [by eexists|].
  apply find_none_forallb in Hfind. unfold sortedLicenses in Hfind.
  rewrite forallb_sort in Hfind. congruence.
Qed.

(** The branch "some (maybe all) are paid" of the classifier, for a group
    that the ignore rule lets through. *)
Lemma mixed_branch_step this groups first paid :
  ¬ domainExcluded (partnerDomains this) (providerDomains this) groups →
  forallb isFreeLicense (map LicenseContext.license groups) = false →
  head (sortedLicenses groups) = Some first →
  List.find (λ l, negb (isFreeLicense l)) (sortedLicenses groups) = Some paid →
  let price := vendorAmountOf <$> head (paidTransactions groups) in
  let update deal :=
    DealUpdateAction.mk (Deal.id deal) (Some paid) (paidTransactions groups)
      (withAmount price
         (<["addonlicenseid" := VString (License.addonLicenseId paid)]>
          (<["dealstage" := VStage CLOSED_WON]> ∅))) in
  let create :=
    DealCreateAction.mk CLOSED_WON paid (paidTransactions groups)
      (JS.toFixed2 (default 0 price)) in
  generateActionsForMatchedGroup groups this =
    match dealOfGroup this groups with
    | Some deal =>
        if isFreeLicense first then push_dealUpdateAction (update deal) this
        else if decide (Deal.properties deal !! "dealstage" = Some (VStage EVAL))
             then push_dealUpdateAction (update deal) this
             else Ok (tt, this)
    | None => push_dealCreateAction create this
    end.
Proof.
  intros Hnot Hmixed Hhead Hfind price update create.
  destruct groups as [|g0 groups']; [done|].
  unfold generateActionsForMatchedGroup.
  unfold mbind at 1. unfold Method_bind at 1.
  rewrite ignoring_not_excluded by done.
  unfold mbind at 1. unfold Method_bind at 1. unfold this_ at 1.
  fold (sortedLicenses (g0 :: groups')). fold (paidTransactions (g0 :: groups')).
  unfold sortedLicenses at 1. rewrite forallb_sort, Hmixed.
  rewrite Hfind, List_hd_default, Hhead. cbn [default from_option id]. unfold id.
  destruct (dealOfGroup this (g0 :: groups')) as [deal|];
    destruct (isFreeLicense first); try reflexivity.
  destruct (decide _); reflexivity.
Qed.

(** X5.  A group that the ignore rule lets through, with a license that is
    not free and with no deal, pushes one create action at CLOSED_WON and
    nothing else.  Its license is the earliest license of the group that is
    not free, its transactions are those that are not refunds, by sale date,
    and its amount is the vendor amount of the first of them with two
    decimals, "0.00" without one. *)
Theorem paid_group_without_deal_creates_won_deal this groups :
  ¬ domainExcluded (partnerDomains this) (providerDomains this) groups →
  Exists (λ g, License.licenseType (LicenseContext.license g) ≠ "EVALUATION"
               ∧ License.licenseType (LicenseContext.license g) ≠ "OPEN_SOURCE") groups →
  dealOfGroup this groups = None →
  ∃ paid this',
    generateActionsForMatchedGroup groups this = Ok (tt, this')
    ∧ dealCreateActions this'
        = dealCreateActions this
          ++ [DealCreateAction.mk CLOSED_WON paid (paidTransactions groups)
                (JS.toFixed2
                   (default 0 (vendorAmountOf <$> head (paidTransactions groups))))]
    ∧ dealUpdateActions this' = dealUpdateActions this
    ∧ ignoredLicenseSets this' = ignoredLicenseSets this
    ∧ paid ∈ map LicenseContext.license groups
    ∧ isFreeLicense paid = false
    ∧ ∀ l, l ∈ map LicenseContext.license groups → isFreeLicense l = false →
           String.leb (License.maintenanceStartDate paid) (License.maintenanceStartDate l)
             = true.
Proof.
  intros Hnot Hmixed%paid_group_not_all_free Hdeal.
  destruct (firstFoundPaid_exists groups Hmixed) as [paid Hfind].
  destruct (head (sortedLicenses groups)) as [first|] eqn:Hhead.
  - exists paid. rewrite (mixed_branch_step this groups first paid) by done.
    rewrite Hdeal. eexists. split; [reflexivity|].
    cbn [dealCreateActions dealUpdateActions ignoredLicenseSets].
    split; [done|]. split; [done|]. split; [done|].
    by apply firstFoundPaid_is_earliest_paid.
  - apply head_None in Hhead. by rewrite Hhead in Hfind.
Qed.

(** X6.  When the ignore rule lets a group through, the earliest license of
    the group is not free and the group has a deal in another stage than EVAL,
    the classifier leaves the deal alone: it pushes nothing and ignores
    nothing. *)
Theorem paid_group_leaves_closed_deal_alone this groups first deal :
  ¬ domainExcluded (partnerDomains this) (providerDomains this) groups →
  head (sortedLicenses groups) = Some first →
  isFreeLicense first = false →
  dealOfGroup this groups = Some deal →
  Deal.properties deal !! "dealstage" ≠ Some (VStage EVAL) →
  generateActionsForMatchedGroup groups this = Ok (tt, this).
Proof.
  intros Hnot Hhead Hfirst Hdeal Hstage.
  assert (Hin : first ∈ map LicenseContext.license groups).
  { apply head_Some_elem_of in Hhead. by apply elem_of_sort in Hhead. }
  assert (Hmixed : forallb isFreeLicense (map LicenseContext.license groups) = false).
  { destruct (forallb _ _) eqn:Hall; [|done].
    rewrite forallb_forall in Hall. apply list_elem_of_In, Hall in Hin. congruence. }
  destruct (firstFoundPaid_exists groups Hmixed) as [paid Hfind].
  rewrite (mixed_branch_step this groups first paid) by done.
  by rewrite Hdeal, Hfirst, decide_False.
Qed.


(** What one group pushes on a cleared generator is at most one thing. *)
Lemma group_delta_at_most_one groups this delta :
  generateActionsForMatchedGroup groups (cleared this) = Ok (tt, delta) →
  (List.length (dealCreateActions delta) + List.length (dealUpdateActions delta)
   + List.length (ignoredLicenseSets delta) ≤ 1)%nat.
Proof.
  destruct groups as [|g0 groups]; [done|].
  destruct this as [prov part ag df cs us ig].
  unfold generateActionsForMatchedGroup, ignoring, dealOfGroup, cleared.
  unfold_method. cbn [providerDomains partnerDomains actionGenerator dealFinder
    dealCreateActions dealUpdateActions ignoredLicenseSets].
  generalize (JS.sort (sorter License.maintenanceStartDate ASC)
                (map LicenseContext.license (g0 :: groups))); intros licenses.
  generalize (JS.sort (sorter saleDateOf ASC)
                (filter (λ tx, saleTypeOf tx ≠ "Refund") (allTransactions (g0 :: groups))));
    intros transactions.
  generalize (allTransactions (g0 :: groups)); intros txs.
  generalize (filter (isBadDomain part prov)
                (map domainOf (map LicenseContext.license (g0 :: groups)))); intros bad.
  intros Hrun.
  repeat (case_decide || case_match || simplify_eq/=); lia.
Qed.

(** X8.  One call of the classifier on a group pushes at most one thing: a
    create action, or an update action, or a list of ignored licenses, or
    nothing.  What the generator held before stays in front, and its domains
    and its deal finder stay as they are. *)
Theorem group_pushes_at_most_one groups this this' :
  generateActionsForMatchedGroup groups this = Ok (tt, this') →
  ∃ creates updates ignored,
    dealCreateActions this' = dealCreateActions this ++ creates
    ∧ dealUpdateActions this' = dealUpdateActions this ++ updates
    ∧ ignoredLicenseSets this' = ignoredLicenseSets this ++ ignored
    ∧ (List.length creates + List.length updates + List.length ignored ≤ 1)%nat
    ∧ providerDomains this' = providerDomains this
    ∧ partnerDomains this' = partnerDomains this
    ∧ dealFinder this' = dealFinder this.
Proof.
  intros (delta & Hdelta & ->)%generateActionsForMatchedGroup_pushed.
  exists (dealCreateActions delta), (dealUpdateActions delta), (ignoredLicenseSets delta).
  apply group_delta_at_most_one in Hdelta. by repeat split.
Qed.

Lemma for_of_at_most_one matches this this' :
  for_of matches generateActionsForMatchedGroup this = Ok (tt, this') →
  (List.length (dealCreateActions this') + List.length (dealUpdateActions this')
   + List.length (ignoredLicenseSets this')
   ≤ List.length matches
     + (List.length (dealCreateActions this) + List.length (dealUpdateActions this)
        + List.length (ignoredLicenseSets this)))%nat.
Proof.
  revert this. induction matches as [|g matches IH]; intros this; simpl.
  - intros [= <-]. lia.
  - unfold mbind, Method_bind.
    destruct (generateActionsForMatchedGroup g this) as [[[] this1]|] eqn:Hg; [|done].
    intros Hrun%IH.
    apply generateActionsForMatchedGroup_pushed in Hg as (delta & Hdelta & ->).
    apply group_delta_at_most_one in Hdelta.
    cbn [pushed dealCreateActions dealUpdateActions ignoredLicenseSets] in Hrun.
    rewrite !length_app in Hrun. lia.
Qed.

Section Counting.

Lemma for_of_updateDeal_length initialDeals contactsByEmail actions loop loop' :
  for_of actions (updateDeal initialDeals contactsByEmail) loop = Ok (tt, loop') →
  (List.length (UpdateLoop.dealsToUpdate loop')
   ≤ List.length (UpdateLoop.dealsToUpdate loop) + List.length actions)%nat.
Proof.
  revert loop. induction actions as [|action actions IH]; intros loop; simpl.
  - intros [= <-]. lia.
  - unfold mbind, Method_bind.
    destruct (List.find (λ oldDeal, bool_decide (Deal.id oldDeal = DealUpdateAction.id action))
                initialDeals) as [oldDeal|] eqn:Hfind.
    + rewrite (updateDeal_found _ _ _ oldDeal) by done.
      intros Hrun%IH. cbn [UpdateLoop.dealsToUpdate] in Hrun.
      rewrite length_app in Hrun. cbv zeta in Hrun.
      destruct (decide _); simpl in Hrun; lia.
    + unfold updateDeal at 1. by rewrite Hfind.
Qed.

(** X9.  A run gives at most one result per group it was handed: the deals
    it creates, the deals it updates and the lists of ignored licenses it
    saves are together no more than the groups. *)
Theorem run_gives_at_most_one_result_per_group data saved out :
  generateDeals data = Ok (saved, out) →
  (List.length (GeneratedDeals.dealsToCreate out)
   + List.length (GeneratedDeals.dealsToUpdate out)
   + List.length saved
   ≤ List.length (GenerateDealsData.allMatches data))%nat.
Proof.
  unfold generateDeals, generateDealActions.
  destruct (for_of _ generateActionsForMatchedGroup _) as [[[] generator]|] eqn:Hgen; [|done].
  destruct (for_of _ (updateDeal _ _) _) as [[[] loop]|] eqn:Hloop; [|done].
  intros [= <- <-].
  cbn [GeneratedDeals.dealsToCreate GeneratedDeals.dealsToUpdate DealActions.savedIgnored
       DealActions.dealCreateActions DealActions.dealUpdateActions] in *.
  apply for_of_at_most_one in Hgen. apply for_of_updateDeal_length in Hloop.
  rewrite length_map. simpl in Hgen, Hloop.
  pose proof (length_filter (λ group, hasRecentLicense group)
                (GenerateDealsData.allMatches data)) as Hfilter.
  lia.
Qed.

(** X10.  The groups of a run are classified one by one, each without
    regard to the others: the actions of a list of groups are the actions of
    its front part followed by those of its back part, and the run throws when
    one of the parts does. *)
Theorem generateDealActions_app matches1 matches2 initialDeals provider partner :
  generateDealActions (matches1 ++ matches2) initialDeals provider partner =
    match generateDealActions matches1 initialDeals provider partner,
          generateDealActions matches2 initialDeals provider partner with
    | Ok a1, Ok a2 =>
        Ok (DealActions.mk
              (DealActions.savedIgnored a1 ++ DealActions.savedIgnored a2)
              (DealActions.dealCreateActions a1 ++ DealActions.dealCreateActions a2)
              (DealActions.dealUpdateActions a1 ++ DealActions.dealUpdateActions a2))
    | _, _ => Throw AssertionError
    end.
Proof.
  unfold generateDealActions. rewrite for_of_app.
  set (generator := DealActionGenerator.new provider partner initialDeals).
  destruct (for_of matches1 _ generator) as [[[] s1]|e1] eqn:H1;
    [|by rewrite (error_is_assertion e1)].
  rewrite (for_of_frame matches2 s1).
  apply for_of_static in H1. rewrite H1.
  change (cleared generator) with generator.
  destruct (for_of matches2 _ generator) as [[[] s2]|e2];
    [done|by rewrite (error_is_assertion e2)].
Qed.

End Counting.

(** ** When a run throws *)

Lemma sortedLicenses_last groups g0 :
  ∃ latest, last (sortedLicenses (g0 :: groups)) = Some latest.
Proof.
  destruct (last (sortedLicenses (g0 :: groups))) as [latest|] eqn:Hlast; [by eexists|].
  apply last_None in Hlast. unfold sortedLicenses in Hlast.
  by apply (proj1 (sort_eq_nil _ _)) in Hlast.
Qed.

Lemma sortedLicenses_head groups g0 :
  ∃ first, head (sortedLicenses (g0 :: groups)) = Some first.
Proof.
  destruct (head (sortedLicenses (g0 :: groups))) as [first|] eqn:Hhead; [by eexists|].
  apply head_None in Hhead. unfold sortedLicenses in Hhead.
  by apply (proj1 (sort_eq_nil _ _)) in Hhead.
Qed.

(** A group that is neither empty nor a group of free licenses with
    transactions is classified without error. *)
Lemma group_is_classified groups this :
  ¬ failsAssertion (partnerDomains this) (providerDomains this) groups →
  ∃ this', generateActionsForMatchedGroup groups this = Ok (tt, this').
Proof.
  intros Hok. destruct groups as [|g0 groups]; [by destruct Hok; left|].
  destruct (decide (domainExcluded (partnerDomains this) (providerDomains this)
                      (g0 :: groups))) as [Hex|Hnot].
  { rewrite excluded_group_step by done. by eexists. }
  destruct (forallb isFreeLicense (map LicenseContext.license (g0 :: groups))) eqn:Hfree.
  - apply forallb_isFreeLicense in Hfree.
    destruct (allTransactions (g0 :: groups)) as [|tx txs] eqn:Htxs.
    + destruct (sortedLicenses_last groups g0) as [latest Hlast].
      rewrite (all_free_branch_step this (g0 :: groups) latest) by done.
      destruct (dealOfGroup this (g0 :: groups)); repeat destruct (decide _); by eexists.
    + destruct Hok. right. by rewrite Htxs.
  - destruct (sortedLicenses_head groups g0) as [first Hhead].
    destruct (firstFoundPaid_exists _ Hfree) as [paid Hfind].
    rewrite (mixed_branch_step this (g0 :: groups) first paid) by done.
    destruct (dealOfGroup this (g0 :: groups)); [|by eexists].
    destruct (isFreeLicense first); [by eexists|]. destruct (decide _); by eexists.
Qed.

Lemma group_throws_iff groups this :
  generateActionsForMatchedGroup groups this = Throw AssertionError
  ↔ failsAssertion (partnerDomains this) (providerDomains this) groups.
Proof.
  split.
  - intros Hthrow.
    destruct (decide (groups = [])) as [->|Hne]; [by left|].
    destruct (decide (domainExcluded (partnerDomains this) (providerDomains this) groups))
      as [Hex|Hnot].
    { by rewrite excluded_group_step in Hthrow. }
    destruct (forallb isFreeLicense (map LicenseContext.license groups)) eqn:Hfree.
    + destruct (decide (allTransactions groups = [])) as [Htxs|Htxs].
      * destruct (group_is_classified groups this) as [this' Hok]; [|congruence].
        intros [?|(_ & _ & ?)]; done.
      * right. by rewrite <- forallb_isFreeLicense.
    + destruct (group_is_classified groups this) as [this' Hok]; [|congruence].
      intros [?|(_ & Hall%forallb_isFreeLicense & _)]; [done|congruence].
  - intros [->|(Hnot & Hfree & Htxs)]; [done|]. by apply all_free_group_step.
Qed.

Lemma for_of_throws_iff matches this :
  for_of matches generateActionsForMatchedGroup this = Throw AssertionError
  ↔ Exists (failsAssertion (partnerDomains this) (providerDomains this)) matches.
Proof.
  revert this. induction matches as [|g matches IH]; intros this; simpl.
  - split; [done|]. by intros ?%Exists_nil.
  - unfold mbind, Method_bind. rewrite Exists_cons, <- group_throws_iff.
    destruct (generateActionsForMatchedGroup g this) as [[[] this1]|e] eqn:Hg.
    + rewrite IH. apply generateActionsForMatchedGroup_static in Hg.
      assert (Hpart : partnerDomains this1 = partnerDomains this)
        by exact (f_equal partnerDomains Hg).
      assert (Hprov : providerDomains this1 = providerDomains this)
        by exact (f_equal providerDomains Hg).
      rewrite Hpart, Hprov. split; [by right|].
      by intros [?|?].
    + rewrite (error_is_assertion e). split; [by left|done].
Qed.

Section Throws.

Lemma generateDealActions_throws_iff matches initialDeals provider partner :
  generateDealActions matches initialDeals provider partner = Throw AssertionError
  ↔ Exists (failsAssertion partner provider) matches.
Proof.
  unfold generateDealActions.
  rewrite <- (for_of_throws_iff matches
                (DealActionGenerator.new provider partner initialDeals)).
  destruct (for_of _ _ _) as [[[] generator]|e]; [done|].
  by rewrite (error_is_assertion e).
Qed.

(** X11.  The classification of a list of groups throws in two cases only:
    when a group is empty, and when a group that the ignore rule lets through
    has free licenses only and carries a transaction.  In every other case it
    returns its actions. *)
Theorem classification_throws_iff matches initialDeals provider partner :
  (generateDealActions matches initialDeals provider partner = Throw AssertionError
   ↔ Exists (failsAssertion partner provider) matches)
  ∧ (¬ Exists (failsAssertion partner provider) matches →
     ∃ actions, generateDealActions matches initialDeals provider partner = Ok actions).
Proof.
  pose proof (generateDealActions_throws_iff matches initialDeals provider partner) as Hiff.
  split; [done|]. intros Hok.
  destruct (generateDealActions matches initialDeals provider partner) as [actions|e] eqn:Hrun;
    [by eexists|].
  destruct Hok. apply Hiff. by rewrite (error_is_assertion e).
Qed.

(** X12.  On update actions without license, which are those of the groups
    of free licenses, the update loop of [generateDeals] computes no property
    of a license: it throws exactly when an action names a deal id that no
    deal of the snapshot has, and otherwise it returns and changes no
    association. *)
Theorem update_loop_throws_iff initialDeals contactsByEmail actions loop :
  Forall (λ action, DealUpdateAction.license action = None) actions →
  (for_of actions (updateDeal initialDeals contactsByEmail) loop = Throw AssertionError
   ↔ Exists (λ action, DealUpdateAction.id action ∉ map Deal.id initialDeals) actions)
  ∧ (¬ Exists (λ action, DealUpdateAction.id action ∉ map Deal.id initialDeals) actions →
     ∃ loop',
       for_of actions (updateDeal initialDeals contactsByEmail) loop = Ok (tt, loop')
       ∧ UpdateLoop.associationsToCreate loop' = UpdateLoop.associationsToCreate loop
       ∧ UpdateLoop.associationsToRemove loop' = UpdateLoop.associationsToRemove loop).
Proof.
  intros Hplain. revert loop.
  induction Hplain as [|action actions Hnone _ IH]; intros loop; simpl.
  - split; [split; [done|by intros ?%Exists_nil]|]. intros _. by eexists.
  - unfold mbind, Method_bind. rewrite Exists_cons.
    destruct (List.find (λ oldDeal, bool_decide (Deal.id oldDeal = DealUpdateAction.id action))
                initialDeals) as [oldDeal|] eqn:Hfind.
    + rewrite (updateDeal_found _ _ _ oldDeal) by done. rewrite Hnone, !app_nil_r.
      assert (Hknown : DealUpdateAction.id action ∈ map Deal.id initialDeals).
      { apply find_some in Hfind as [Hin Hid%bool_decide_eq_true].
        apply elem_of_map. exists oldDeal. split; [done|]. by apply list_elem_of_In. }
      match goal with |- context [for_of actions _ ?l] => destruct (IH l) as [Hiff Hok] end.
      split.
      * rewrite Hiff. split; [by right|]. by intros [?|?].
      * intros Hall. apply Hok. intros ?. apply Hall. by right.
    + assert (Hunknown : DealUpdateAction.id action ∉ map Deal.id initialDeals).
      { intros (oldDeal & Hid & Hin)%elem_of_map.
        eapply find_none in Hfind; [|by apply list_elem_of_In].
        by apply bool_decide_eq_false in Hfind. }
      unfold updateDeal at 1 2. rewrite Hfind. split; [split; [by left|done]|].
      intros Hall. destruct Hall. by left.
Qed.

End Throws.

(** The deal of every update a group pushes is the deal of the group. *)
Lemma group_update_ids groups this this' :
  generateActionsForMatchedGroup groups this = Ok (tt, this') →
  ∃ updates,
    dealUpdateActions this' = dealUpdateActions this ++ updates
    ∧ Forall (λ u, ∃ deal, dealOfGroup this groups = Some deal
                           ∧ DealUpdateAction.id u = Deal.id deal) updates.
Proof.
  assert (Hnone : ∀ s : t, dealUpdateActions s = dealUpdateActions this → ∃ updates,
    dealUpdateActions s = dealUpdateActions this ++ updates
    ∧ Forall (λ u, ∃ deal, dealOfGroup this groups = Some deal
                           ∧ DealUpdateAction.id u = Deal.id deal) updates).
  { intros s ->. exists []. by rewrite app_nil_r. }
  destruct groups as [|g0 groups]; [done|].
  destruct (decide (domainExcluded (partnerDomains this) (providerDomains this)
                      (g0 :: groups))) as [Hex|Hnot].
  { rewrite excluded_group_step by done. intros [= <-]. by apply Hnone. }
  destruct (forallb isFreeLicense (map LicenseContext.license (g0 :: groups))) eqn:Hfree.
  - apply forallb_isFreeLicense in Hfree.
    destruct (allTransactions (g0 :: groups)) as [|tx txs] eqn:Htxs.
    + destruct (sortedLicenses_last groups g0) as [latest Hlast].
      rewrite (all_free_branch_step this (g0 :: groups) latest) by done.
      destruct (dealOfGroup this (g0 :: groups)) as [deal|]; repeat destruct (decide _);
        intros [= <-]; try (by apply Hnone);
        (eexists; split; [reflexivity|]; repeat constructor; eauto).
    + rewrite all_free_group_step; [done|done|done|by rewrite Htxs].
  - destruct (sortedLicenses_head groups g0) as [first Hhead].
    destruct (firstFoundPaid_exists _ Hfree) as [paid Hfind].
    rewrite (mixed_branch_step this (g0 :: groups) first paid) by done.
    destruct (dealOfGroup this (g0 :: groups)) as [deal|];
      [|intros [= <-]; by apply Hnone].
    destruct (isFreeLicense first); [|destruct (decide _)];
      intros [= <-]; try (by apply Hnone);
      (eexists; split; [reflexivity|]; repeat constructor; eauto).
Qed.

Lemma dealOfGroup_found this groups deal :
  dealOfGroup this groups = Some deal →
  ∃ license, license ∈ map LicenseContext.license groups
             ∧ DealFinder.getDeal (dealFinder this) [OfLicense license] = Some deal.
Proof.
  unfold dealOfGroup. intros Hhead%head_Some_elem_of.
  apply list_elem_of_omap in Hhead as (license & Hin & Hdeal). eauto.
Qed.

Lemma for_of_update_ids matches this this' :
  for_of matches generateActionsForMatchedGroup this = Ok (tt, this') →
  Forall (λ u, ∃ records deal,
            DealFinder.getDeal (dealFinder this) records = Some deal
            ∧ DealUpdateAction.id u = Deal.id deal) (dealUpdateActions this) →
  Forall (λ u, ∃ records deal,
            DealFinder.getDeal (dealFinder this) records = Some deal
            ∧ DealUpdateAction.id u = Deal.id deal) (dealUpdateActions this').
Proof.
  revert this. induction matches as [|g matches IH]; intros this; simpl.
  - by intros [= <-].
  - unfold mbind, Method_bind.
    destruct (generateActionsForMatchedGroup g this) as [[[] this1]|] eqn:Hg; [|done].
    intros Hrun Hthis.
    assert (Hfinder : dealFinder this1 = dealFinder this)
      by exact (f_equal dealFinder (generateActionsForMatchedGroup_static _ _ _ Hg)).
    rewrite <- Hfinder. apply IH; [done|]. rewrite Hfinder.
    apply group_update_ids in Hg as (updates & -> & Hupdates).
    apply Forall_app. split; [done|]. eapply Forall_impl; [exact Hupdates|].
    intros u (deal & (license & _ & Hdeal)%dealOfGroup_found & Hid). eauto.
Qed.

Section RunThrows.

(** X13.  With a deal finder that only finds deals whose id a deal of the
    snapshot has, every update action of a classification names such a deal:
    the lookup of the old deal in the update loop of [generateDeals] finds a
    deal for each of them. *)
Theorem update_actions_name_snapshot_deals matches initialDeals provider partner actions :
  (∀ records deal,
     DealFinder.getDeal (DealFinder_new initialDeals) records = Some deal →
     Deal.id deal ∈ map Deal.id initialDeals) →
  generateDealActions matches initialDeals provider partner = Ok actions →
  Forall (λ action,
            DealUpdateAction.id action ∈ map Deal.id initialDeals
            ∧ ∃ oldDeal,
                List.find (λ oldDeal,
                             bool_decide (Deal.id oldDeal = DealUpdateAction.id action))
                  initialDeals = Some oldDeal)
    (DealActions.dealUpdateActions actions).
Proof.
  intros Hsound. unfold generateDealActions.
  destruct (for_of _ generateActionsForMatchedGroup _) as [[[] generator]|] eqn:Hgen; [|done].
  intros [= <-]. cbn [DealActions.dealUpdateActions].
  apply for_of_update_ids in Hgen; [|constructor].
  eapply Forall_impl; [exact Hgen|].
  intros u (records & deal & Hdeal & Hid).
  assert (Hknown : DealUpdateAction.id u ∈ map Deal.id initialDeals).
  { rewrite Hid. by eapply Hsound. }
  split; [done|].
  destruct (List.find _ initialDeals) as [oldDeal|] eqn:Hfind; [by eexists|].
  apply elem_of_map in Hknown as (oldDeal & Hold & Hin).
  eapply find_none in Hfind; [|by apply list_elem_of_In].
  by apply bool_decide_eq_false in Hfind.
Qed.

End RunThrows.

(** ** What a run creates *)

(** The create action a group pushes, if any. *)
Lemma group_creates groups this this' :
  generateActionsForMatchedGroup groups this = Ok (tt, this') →
  ∃ creates,
    dealCreateActions this' = dealCreateActions this ++ creates
    ∧ Forall (λ a,
        DealCreateAction.license a ∈ map LicenseContext.license groups
        ∧ ((DealCreateAction.dealstage a = EVAL
            ∧ DealCreateAction.amount a = "0"
            ∧ isFreeLicense (DealCreateAction.license a) = true
            ∧ License.status (DealCreateAction.license a) = "active")
           ∨ (DealCreateAction.dealstage a = CLOSED_WON
              ∧ isFreeLicense (DealCreateAction.license a) = false
              ∧ DealCreateAction.amount a =
                  JS.toFixed2 (default 0 (vendorAmountOf <$> head (paidTransactions groups))))))
        creates.
Proof.
  set (Q := λ a : DealCreateAction.t, _ ∧ _).
  assert (Hnone : ∀ s : t, dealCreateActions s = dealCreateActions this → ∃ creates,
    dealCreateActions s = dealCreateActions this ++ creates ∧ Forall Q creates).
  { intros s ->. exists []. by rewrite app_nil_r. }
  destruct groups as [|g0 groups]; [done|].
  destruct (decide (domainExcluded (partnerDomains this) (providerDomains this)
                      (g0 :: groups))) as [Hex|Hnot].
  { rewrite excluded_group_step by done. intros [= <-]. by apply Hnone. }
  destruct (forallb isFreeLicense (map LicenseContext.license (g0 :: groups))) eqn:Hfree.
  - pose proof Hfree as Hall. apply forallb_isFreeLicense in Hfree.
    destruct (allTransactions (g0 :: groups)) as [|tx txs] eqn:Htxs.
    + destruct (sortedLicenses_last groups g0) as [latest Hlast].
      rewrite (all_free_branch_step this (g0 :: groups) latest) by done.
      destruct (dealOfGroup this (g0 :: groups)) as [deal|]; repeat destruct (decide _);
        intros [= <-]; try (by apply Hnone).
      eexists; split; [reflexivity|].
      apply List.Forall_cons; [|apply List.Forall_nil].
      apply latest_license_is_greatest in Hlast as [Hin _].
      split; cbn [DealCreateAction.license DealCreateAction.dealstage
                  DealCreateAction.amount]; [done|].
      left. repeat split; [|done].
      rewrite forallb_forall in Hall. by apply Hall, list_elem_of_In.
    + rewrite all_free_group_step; [done|done|done|by rewrite Htxs].
  - destruct (sortedLicenses_head groups g0) as [first Hhead].
    destruct (firstFoundPaid_exists _ Hfree) as [paid Hfind].
    rewrite (mixed_branch_step this (g0 :: groups) first paid) by done.
    apply firstFoundPaid_is_earliest_paid in Hfind as (Hin & Hpaid & _).
    destruct (dealOfGroup this (g0 :: groups)) as [deal|].
    + destruct (isFreeLicense first); [|destruct (decide _)];
        intros [= <-]; by apply Hnone.
    + intros [= <-]. eexists; split; [reflexivity|].
      apply List.Forall_cons; [|apply List.Forall_nil].
      split; cbn [DealCreateAction.license DealCreateAction.dealstage
                  DealCreateAction.amount]; [done|].
      right. by repeat split.
Qed.

Lemma for_of_creates matches (Q : DealCreateAction.t → Prop) this this' :
  (∀ groups s s' creates,
     groups ∈ matches →
     generateActionsForMatchedGroup groups s = Ok (tt, s') →
     dealCreateActions s' = dealCreateActions s ++ creates →
     Forall Q creates) →
  for_of matches generateActionsForMatchedGroup this = Ok (tt, this') →
  Forall Q (dealCreateActions this) →
  Forall Q (dealCreateActions this').
Proof.
  revert this. induction matches as [|g matches IH]; intros this Hstep; simpl.
  - by intros [= <-].
  - unfold mbind, Method_bind.
    destruct (generateActionsForMatchedGroup g this) as [[[] this1]|] eqn:Hg; [|done].
    intros Hrun Hthis. apply (IH this1); [|done|].
    + intros groups s s' creates Hin. apply Hstep. by right.
    + destruct (group_creates _ _ _ Hg) as (creates & Hcreates & _).
      rewrite Hcreates. apply Forall_app. split; [done|].
      eapply (Hstep g); [by left|exact Hg|exact Hcreates].
Qed.

Section Created.

Lemma dealPropertiesForLicense_dom license transactions :
  dom (dealPropertiesForLicense license transactions) = generatedKeys.
Proof.
  unfold dealPropertiesForLicense, generatedKeys. cbv zeta.
  rewrite !dom_insert_L, dom_empty_L. set_solver.
Qed.

(** X14.  Every deal a run creates comes from a license of one of the groups
    that are recent enough.  It has the twelve generated properties and a
    stage, which is EVAL with amount "0" for an active free license, or
    CLOSED_WON for a license that is not free, and never CLOSED_LOST; its
    contacts are those of the license, each once. *)
Theorem created_deal_comes_from_a_license data saved out created :
  generateDeals data = Ok (saved, out) →
  created ∈ GeneratedDeals.dealsToCreate out →
  ∃ groups license,
    groups ∈ GenerateDealsData.allMatches data
    ∧ hasRecentLicense groups = true
    ∧ license ∈ map LicenseContext.license groups
    ∧ NewDeal.properties created !! "addonlicenseid"
        = Some (VString (License.addonLicenseId license))
    ∧ dom (NewDeal.properties created) = generatedKeys ∪ {["dealstage"]}
    ∧ ((NewDeal.properties created !! "dealstage" = Some (VStage EVAL)
        ∧ NewDeal.properties created !! "amount" = Some (VString "0")
        ∧ isFreeLicense license = true ∧ License.status license = "active")
       ∨ (NewDeal.properties created !! "dealstage" = Some (VStage CLOSED_WON)
          ∧ NewDeal.properties created !! "amount"
              = Some (VString (JS.toFixed2
                        (default 0 (vendorAmountOf <$> head (paidTransactions groups)))))
          ∧ isFreeLicense license = false))
    ∧ NewDeal.contactIds created
        = contactIdsForLicense (GenerateDealsData.contactsByEmail data) license
    ∧ NoDup (NewDeal.contactIds created).
Proof.
  unfold generateDeals, generateDealActions.
  destruct (for_of _ generateActionsForMatchedGroup _) as [[[] generator]|] eqn:Hgen; [|done].
  destruct (for_of _ (updateDeal _ _) _) as [[[] loop]|]; [|done].
  intros [= <- <-]. cbn [GeneratedDeals.dealsToCreate DealActions.dealCreateActions].
  intros (a & -> & Ha)%elem_of_map.
  pose (Q := λ a : DealCreateAction.t, ∃ groups,
    groups ∈ filter (λ group, hasRecentLicense group) (GenerateDealsData.allMatches data)
    ∧ DealCreateAction.license a ∈ map LicenseContext.license groups
    ∧ ((DealCreateAction.dealstage a = EVAL
        ∧ DealCreateAction.amount a = "0"
        ∧ isFreeLicense (DealCreateAction.license a) = true
        ∧ License.status (DealCreateAction.license a) = "active")
       ∨ (DealCreateAction.dealstage a = CLOSED_WON
          ∧ isFreeLicense (DealCreateAction.license a) = false
          ∧ DealCreateAction.amount a =
              JS.toFixed2 (default 0 (vendorAmountOf <$> head (paidTransactions groups)))))).
  assert (HQ : Forall Q (dealCreateActions generator)).
  { eapply (for_of_creates _ Q); [|exact Hgen|constructor].
    intros groups s s' creates Hin Hg Hcreates.
    destruct (group_creates _ _ _ Hg) as (creates' & Hcreates' & Hall).
    rewrite Hcreates' in Hcreates. apply app_inv_head in Hcreates as <-.
    eapply Forall_impl; [exact Hall|]. intros a' [? ?]. by exists groups. }
  rewrite Forall_forall in HQ. destruct (HQ a Ha) as (groups & Hin & Hlicense & Hcase).
  apply list_elem_of_filter in Hin as [Hrecent Hin].
  exists groups, (DealCreateAction.license a).
  split; [done|]. split; [by destruct (hasRecentLicense groups)|]. split; [done|].
  unfold dealToCreate. cbn [NewDeal.properties NewDeal.contactIds].
  split.
  { rewrite !lookup_insert_ne by done. unfold dealPropertiesForLicense. cbv zeta.
    by rewrite lookup_insert_eq. }
  split.
  { rewrite !dom_insert_L, dealPropertiesForLicense_dom. unfold generatedKeys. set_solver. }
  split.
  { rewrite lookup_insert_eq, lookup_insert_ne, lookup_insert_eq by done.
    destruct Hcase as [(-> & -> & ? & ?)|(-> & ? & ->)]; [by left|by right]. }
  split; [done|]. apply NoDup_uniq.
Qed.

End Created.

(** ** The associations and the property diff of a run *)

Section Associations.

Lemma for_of_updateDeal_associations (PC PR : Association.t → Prop)
  initialDeals contactsByEmail actions loop loop' :
  (∀ action license oldDeal c,
     DealUpdateAction.license action = Some license →
     List.find (λ oldDeal, bool_decide (Deal.id oldDeal = DealUpdateAction.id action))
       initialDeals = Some oldDeal →
     (c ∈ contactIdsForLicense contactsByEmail license → c ∉ Deal.contactIds oldDeal →
      PC (Association.mk c (Deal.id oldDeal)))
     ∧ (c ∈ Deal.contactIds oldDeal → c ∉ contactIdsForLicense contactsByEmail license →
        PR (Association.mk c (Deal.id oldDeal)))) →
  for_of actions (updateDeal initialDeals contactsByEmail) loop = Ok (tt, loop') →
  Forall PC (UpdateLoop.associationsToCreate loop) →
  Forall PR (UpdateLoop.associationsToRemove loop) →
  Forall PC (UpdateLoop.associationsToCreate loop')
  ∧ Forall PR (UpdateLoop.associationsToRemove loop').
Proof.
  intros Hstep. revert loop. induction actions as [|action actions IH]; intros loop; simpl.
  - by intros [= <-].
  - unfold mbind, Method_bind.
    destruct (List.find (λ oldDeal, bool_decide (Deal.id oldDeal = DealUpdateAction.id action))
                initialDeals) as [oldDeal|] eqn:Hfind.
    + rewrite (updateDeal_found _ _ _ oldDeal) by done.
      intros Hrun HC HR. eapply IH; [exact Hrun| |];
        cbn [UpdateLoop.associationsToCreate UpdateLoop.associationsToRemove];
        (apply Forall_app; split; [done|]);
        (destruct (DealUpdateAction.license action) as [license|] eqn:Hlicense;
           [|constructor]);
        apply Forall_forall; intros a (c & -> & [Hc1 Hc2]%list_elem_of_filter)%elem_of_map;
        by apply (Hstep action license oldDeal c).
    + unfold updateDeal at 1. by rewrite Hfind.
Qed.

(** X15.  Every association a run asks to create joins a deal of the
    snapshot with a contact of the directory that the deal does not have yet;
    every association it asks to remove joins a deal of the snapshot with a
    contact the deal has.  No association is asked to be created and removed
    in one run. *)
Theorem associations_change_the_snapshot data saved out :
  generateDeals data = Ok (saved, out) →
  (∀ a, a ∈ GeneratedDeals.associationsToCreate out →
     ∃ oldDeal contact email,
       List.find (λ oldDeal, bool_decide (Deal.id oldDeal = Association.dealId a))
         (GenerateDealsData.initialDeals data) = Some oldDeal
       ∧ (Association.contactId a ∉ Deal.contactIds oldDeal)
       ∧ GenerateDealsData.contactsByEmail data !! email = Some contact
       ∧ Contact.hs_object_id contact = Association.contactId a)
  ∧ (∀ a, a ∈ GeneratedDeals.associationsToRemove out →
       ∃ oldDeal,
         List.find (λ oldDeal, bool_decide (Deal.id oldDeal = Association.dealId a))
           (GenerateDealsData.initialDeals data) = Some oldDeal
         ∧ Association.contactId a ∈ Deal.contactIds oldDeal)
  ∧ (∀ a, a ∈ GeneratedDeals.associationsToCreate out →
          a ∉ GeneratedDeals.associationsToRemove out).
Proof.
  unfold generateDeals.
  destruct (generateDealActions _ _ _ _) as [actions|]; [|done].
  destruct (for_of _ _ _) as [[[] loop]|] eqn:Hloop; [|done].
  intros [= <- <-].
  cbn [GeneratedDeals.associationsToCreate GeneratedDeals.associationsToRemove].
  pose (PC := λ a : Association.t, ∃ oldDeal contact email,
       List.find (λ oldDeal, bool_decide (Deal.id oldDeal = Association.dealId a))
         (GenerateDealsData.initialDeals data) = Some oldDeal
       ∧ (Association.contactId a ∉ Deal.contactIds oldDeal)
       ∧ GenerateDealsData.contactsByEmail data !! email = Some contact
       ∧ Contact.hs_object_id contact = Association.contactId a).
  pose (PR := λ a : Association.t, ∃ oldDeal,
         List.find (λ oldDeal, bool_decide (Deal.id oldDeal = Association.dealId a))
           (GenerateDealsData.initialDeals data) = Some oldDeal
         ∧ Association.contactId a ∈ Deal.contactIds oldDeal).
  edestruct (for_of_updateDeal_associations PC PR) as [HC HR];
    [|exact Hloop|constructor|constructor|].
  { intros action license oldDeal c Hlicense Hfind.
    assert (Hid : Deal.id oldDeal = DealUpdateAction.id action).
    { apply find_some in Hfind as [_ Hid]. by apply bool_decide_eq_true in Hid. }
    split.
    - intros (email & contact & _ & Hlookup & ->)%contactIdsForLicense_elem Hnew.
      exists oldDeal, contact, email. cbn [Association.dealId Association.contactId].
      by rewrite Hid.
    - intros Hold _. exists oldDeal. cbn [Association.dealId Association.contactId].
      by rewrite Hid. }
  rewrite Forall_forall in HC. rewrite Forall_forall in HR.
  split; [done|]. split; [done|].
  intros a (oldDeal & _ & _ & Hfind & Hnew & _)%HC (oldDeal' & Hfind' & Hold)%HR.
  congruence.
Qed.

End Associations.

(** X16.  The update of a deal loses nothing by leaving out the properties
    that did not change: written over the properties of the old deal, the
    properties that are left give what the proposed properties give.  Once they
    are written, the same proposal leaves nothing to update. *)
Theorem diff_writes_the_proposed_properties oldDeal (properties : Properties) :
  stripUnchanged oldDeal properties ∪ Deal.properties oldDeal
    = properties ∪ Deal.properties oldDeal
  ∧ stripUnchanged
      (Deal.mk (Deal.id oldDeal) (Deal.contactIds oldDeal)
         (stripUnchanged oldDeal properties ∪ Deal.properties oldDeal))
      properties = ∅.
Proof.
  assert (Hwrite : stripUnchanged oldDeal properties ∪ Deal.properties oldDeal
                   = properties ∪ Deal.properties oldDeal).
  { apply map_eq. intros key. rewrite !lookup_union.
    destruct (properties !! key) as [val|] eqn:Hprop.
    - destruct (decide (Deal.properties oldDeal !! key = Some val)) as [Hsame|Hdiff].
      + destruct (stripUnchanged oldDeal properties !! key) as [val'|] eqn:Hstrip.
        * apply stripUnchanged_lookup in Hstrip as [Hprop' _]. rewrite Hsame. simpl.
          congruence.
        * by rewrite Hsame.
      + by rewrite (proj2 (stripUnchanged_lookup oldDeal properties key val)).
    - destruct (stripUnchanged oldDeal properties !! key) as [val'|] eqn:Hstrip; [|done].
      apply stripUnchanged_lookup in Hstrip as [Hprop' _]. congruence. }
  split; [done|]. apply stripUnchanged_same. intros key val Hprop.
  cbn [Deal.properties]. rewrite Hwrite. by apply lookup_union_Some_l.
Qed.

(** ** The close date and the domain of a license *)

Section CloseDate.

(** X17.  The close date that [dealPropertiesForLicense] gives is the
    maintenance start date of the license when there is no transaction;
    otherwise, the sale dates not being empty, it is the earliest sale date of
    all the transactions, refunds among them. *)
Theorem closedate_is_earliest_sale_date license transactions :
  ∃ closedate,
    dealPropertiesForLicense license transactions !! "closedate" = Some (VString closedate)
    ∧ (transactions = [] → closedate = License.maintenanceStartDate license)
    ∧ (transactions ≠ [] → Forall (λ tx, saleDateOf tx ≠ "") transactions →
       (∃ tx, tx ∈ transactions ∧ closedate = saleDateOf tx)
       ∧ ∀ tx, tx ∈ transactions → String.leb closedate (saleDateOf tx) = true).
Proof.
  eexists. split.
  { unfold dealPropertiesForLicense. cbv zeta.
    rewrite !(lookup_insert_ne _ _ "closedate") by done. by rewrite lookup_insert_eq. }
  split; [by intros ->|]. intros Hne Hdates. unfold JS.sort_strings.
  destruct (head (JS.sort String.leb (map saleDateOf transactions))) as [date|] eqn:Hhead.
  - assert (Hin : date ∈ map saleDateOf transactions).
    { apply head_Some_elem_of in Hhead. by apply elem_of_sort in Hhead. }
    apply elem_of_map in Hin as (tx & -> & Hin).
    assert (Hdate : saleDateOf tx ≠ "") by (rewrite Forall_forall in Hdates; by apply Hdates).
    unfold or_else. rewrite decide_False by done. split; [by exists tx|].
    intros tx' Hin'.
    apply (head_sort_least String.leb String.leb_total leb_trans _ _ Hhead).
    apply elem_of_map. eauto.
  - apply head_None, (proj1 (sort_eq_nil _ _)) in Hhead.
    destruct transactions; [done|discriminate].
Qed.

End CloseDate.

Lemma string_app_cons c (s t : string) : String c s +:+ t = String c (s +:+ t).
Proof. reflexivity. Qed.

Lemma string_app_nil_r (s : string) : s +:+ "" = s.
Proof. induction s as [|c s IH]; [done|]. by rewrite string_app_cons, IH. Qed.

Lemma rev_app_app (s t u : string) : String.rev_app s t +:+ u = String.rev_app s (t +:+ u).
Proof. revert t. induction s as [|c s IH]; intros t; simpl; [done|]. by rewrite IH. Qed.

Lemma split_go_no_sep sep cur s :
  sep ∉ list_ascii_of_string s → JS.split_go sep cur s = [String.rev cur +:+ s].
Proof.
  revert cur. induction s as [|c s IH]; intros cur Hno; simpl.
  - by rewrite string_app_nil_r.
  - simpl in Hno. apply not_elem_of_cons in Hno as [Hc Hs].
    rewrite (proj2 (Ascii.eqb_neq c sep)) by done.
    rewrite IH by done. unfold String.rev. simpl. by rewrite !rev_app_app.
Qed.

Lemma split_go_sep sep cur s t :
  sep ∉ list_ascii_of_string s →
  JS.split_go sep cur (s +:+ String sep t)
  = (String.rev cur +:+ s) :: JS.split_go sep "" t.
Proof.
  revert cur. induction s as [|c s IH]; intros cur Hno.
  - simpl. by rewrite Ascii.eqb_refl, string_app_nil_r.
  - simpl in Hno. apply not_elem_of_cons in Hno as [Hc Hs].
    rewrite string_app_cons. simpl.
    rewrite (proj2 (Ascii.eqb_neq c sep)) by done.
    rewrite IH by done. unfold String.rev. simpl. by rewrite !rev_app_app.
Qed.

Lemma toLowerCaseASCII_app s t :
  JS.toLowerCaseASCII (s +:+ t) = JS.toLowerCaseASCII s +:+ JS.toLowerCaseASCII t.
Proof.
  induction s as [|c s IH]; [done|].
  rewrite string_app_cons. simpl. by rewrite string_app_cons, IH.
Qed.

Lemma toLowerCaseASCII_no_at s :
  "@"%char ∉ list_ascii_of_string s →
  "@"%char ∉ list_ascii_of_string (JS.toLowerCaseASCII s).
Proof. intros Hno Hat. by apply Hno, JS.toLowerCaseASCII_at. Qed.

(** X18.  For a technical-contact email of ASCII characters with one
    at-sign, the domain the ignore rule looks up in the two sets is the text
    after the at-sign with its letters A to Z lowered: on such emails the rule
    does not tell capital from small letters. *)
Theorem domain_is_lower_case_text_after_at_sign license localPart domain :
  technicalEmail license = localPart +:+ "@" +:+ domain →
  JS.isASCII (technicalEmail license) →
  "@"%char ∉ list_ascii_of_string localPart →
  "@"%char ∉ list_ascii_of_string domain →
  domainOf license = Some (JS.toLowerCaseASCII domain).
Proof.
  intros Hemail Hascii Hlocal Hdomain. unfold domainOf, JS.split.
  rewrite String_toLowerCase_ascii by done. rewrite Hemail.
  rewrite toLowerCaseASCII_app. change (JS.toLowerCaseASCII ("@" +:+ domain))
    with (String "@" (JS.toLowerCaseASCII domain)).
  rewrite split_go_sep by by apply toLowerCaseASCII_no_at.
  rewrite split_go_no_sep by by apply toLowerCaseASCII_no_at. done.
Qed.

(** X19.  An email without at-sign has no domain, and no domain is in a set
    of domains: a group with such a license is never excluded by the ignore
    rule, whatever the two sets hold. *)
Theorem email_without_at_sign_is_never_excluded
  (partner provider : gset string) groups g :
  g ∈ groups →
  "@"%char ∉ list_ascii_of_string (technicalEmail (LicenseContext.license g)) →
  domainOf (LicenseContext.license g) = None
  ∧ ¬ domainExcluded partner provider groups.
Proof.
  intros Hin Hno.
  assert (Hdomain : domainOf (LicenseContext.license g) = None).
  { unfold domainOf, JS.split. rewrite split_go_no_sep; [done|].
    intros Hat. by apply Hno, String_toLowerCase_at. }
  split; [done|]. unfold domainExcluded. rewrite Forall_forall. intros Hall.
  specialize (Hall g Hin). by rewrite Hdomain in Hall.
Qed.

(** ** The action generator over events *)

Lemma sorter_DSC_total {A} (fn : A → string) a b :
  sorter fn DSC a b = true ∨ sorter fn DSC b a = true.
Proof. apply String.leb_total. Qed.

Lemma sorter_DSC_trans {A} (fn : A → string) a b c :
  sorter fn DSC a b = true → sorter fn DSC b c = true → sorter fn DSC a c = true.
Proof. simpl. intros Hab Hbc. by apply (leb_trans _ (fn b)). Qed.

Section Events.

(** X20.  A purchase event looks for the deal of its licenses first and for
    the deal of its transaction only when the licenses have none.  A deal in
    EVAL gets one update, which sets the stage to CLOSED_WON whatever the
    properties of the latest record say; a deal in another stage gets
    nothing; without a deal the event creates one at CLOSED_WON from the
    latest record. *)
Theorem purchase_event_closes_eval_deal this groups licenses transaction :
  let finder := ActionGenerator.dealFinder this in
  let event := DealRelevantEvent.purchase groups licenses transaction in
  let found :=
    match DealFinder.getDeal finder (map OfLicense licenses) with
    | Some deal => Some deal
    | None => DealFinder.getDeal finder (option_list (OfTransaction <$> transaction))
    end in
  match found with
  | Some deal =>
      (dealstageOf deal = Some (VStage EVAL) →
       ∃ properties,
         actionsFor this event = [Action.update groups deal properties]
         ∧ properties !! "dealstage" = Some (VStage CLOSED_WON))
      ∧ (dealstageOf deal ≠ Some (VStage EVAL) → actionsFor this event = [])
  | None =>
      actionsFor this event =
        [Action.create groups
           (dealCreationProperties (getLatestRecord licenses transaction) CLOSED_WON)]
  end.
Proof.
  intros finder event found. unfold actionsFor, event, actionForPurchase.
  fold finder. fold found. destruct found as [deal|]; [|done].
  split.
  - intros Hstage. rewrite decide_True by done. unfold makeUpdateAction.
    set (properties := {["dealstage" := VStage CLOSED_WON]} ∪ _).
    assert (Hlookup : properties !! "dealstage" = Some (VStage CLOSED_WON)).
    { unfold properties. apply lookup_union_Some_l. apply lookup_singleton_eq. }
    destruct (decide (size properties = 0%nat)) as [Hsize|Hsize].
    + apply map_size_empty_iff in Hsize. rewrite Hsize, lookup_empty in Hlookup.
      discriminate Hlookup.
    + by exists properties.
  - intros Hstage. by rewrite decide_False.
Qed.

(** X21.  Every update action the events give is for a deal in EVAL, or is
    the closing of a deal that is not CLOSED_LOST yet, with the one property
    that sets the stage to CLOSED_LOST. *)
Theorem event_updates_are_for_eval_deals_or_closings this events groups deal properties :
  Action.update groups deal properties ∈ generateFrom this events →
  dealstageOf deal = Some (VStage EVAL)
  ∨ (dealstageOf deal ≠ Some (VStage CLOSED_LOST)
     ∧ properties = {["dealstage" := VStage CLOSED_LOST]}).
Proof.
  intros Hin. unfold generateFrom in Hin. apply list_elem_of_In, in_flat_map in Hin.
  destruct Hin as (event & _ & Hin). apply list_elem_of_In in Hin.
  assert (Hmake : ∀ ev d record props,
    makeUpdateAction ev d record props = Some (Action.update groups deal properties) →
    d = deal ∧ properties = props ∪ from_option (dealUpdateProperties d) ∅ record).
  { intros ev d record props. unfold makeUpdateAction.
    destruct (decide _); [done|]. intros [= _ -> <-]. by destruct record. }
  destruct event as [g licenses|g licenses transaction|g transaction|g transaction|g txs];
    simpl in Hin.
  - unfold actionForEval in Hin. destruct (DealFinder.getDeal _ _) as [d|].
    + case_decide as Hd; [|by apply elem_of_nil in Hin].
      destruct (makeUpdateAction _ _ _ _) as [a|] eqn:Ha; [|by apply elem_of_nil in Hin].
      apply list_elem_of_singleton in Hin as <-. apply Hmake in Ha as [-> _]. by left.
    + apply list_elem_of_singleton in Hin. done.
  - unfold actionForPurchase in Hin.
    destruct (match DealFinder.getDeal _ _ with Some d => Some d | None => _ end) as [d|].
    + case_decide as Hd; [|by apply elem_of_nil in Hin].
      destruct (makeUpdateAction _ _ _ _) as [a|] eqn:Ha; [|by apply elem_of_nil in Hin].
      apply list_elem_of_singleton in Hin as <-. apply Hmake in Ha as [-> _]. by left.
    + apply list_elem_of_singleton in Hin. done.
  - by apply list_elem_of_singleton in Hin.
  - by apply list_elem_of_singleton in Hin.
  - unfold actionForRefund in Hin. apply list_elem_of_omap in Hin as (d & Hd & Ha).
    apply list_elem_of_filter in Hd as [Hd _].
    apply Hmake in Ha as [-> ->]. right. split; [done|]. simpl.
    by rewrite (right_id_L ∅ (∪)).
Qed.

(** X22.  The latest record of a purchase event is one of its licenses or
    its transaction, with a date that no other of them exceeds; there is none
    only when the event has neither license nor transaction. *)
Theorem latest_record_has_greatest_date licenses transaction :
  let records := map OfLicense licenses ++ option_list (OfTransaction <$> transaction) in
  match getLatestRecord licenses transaction with
  | Some record =>
      record ∈ records
      ∧ ∀ record', record' ∈ records → String.leb (getDate record') (getDate record) = true
  | None => licenses = [] ∧ transaction = None
  end.
Proof.
  intros records. unfold getLatestRecord. fold records.
  destruct (head (JS.sort (sorter getDate DSC) records)) as [record|] eqn:Hhead.
  - split.
    + apply head_Some_elem_of in Hhead. by apply elem_of_sort in Hhead.
    + intros record' Hin.
      by apply (head_sort_least _ (sorter_DSC_total _) (sorter_DSC_trans _) _ _ Hhead).
  - apply head_None, (proj1 (sort_eq_nil _ _)) in Hhead. unfold records in Hhead.
    apply app_eq_nil in Hhead as [Hl Ht]. split.
    + by destruct licenses.
    + by destruct transaction.
Qed.

End Events.

(** ** deal.ts: the indexes of [DealManager] *)

Lemma indexDeal_lookup this deal id :
  DealManager.getByAddonLicenseId (DealManager.indexDeal this deal) id =
    (if decide (DealManager.truthyId (DealData.addonLicenseId (DealEntity.data deal)) = Some id)
     then Some deal else DealManager.getByAddonLicenseId this id)
  ∧ DealManager.getByTransactionId (DealManager.indexDeal this deal) id =
      (if decide (DealManager.truthyId (DealData.transactionId (DealEntity.data deal))
                  = Some id)
       then Some deal else DealManager.getByTransactionId this id).
Proof.
  unfold DealManager.indexDeal, DealManager.getByAddonLicenseId,
    DealManager.getByTransactionId.
  destruct (DealManager.truthyId (DealData.addonLicenseId _)) as [l|];
    destruct (DealManager.truthyId (DealData.transactionId _)) as [t|];
    cbn [DealManager.dealsByAddonLicenseId DealManager.dealsByTransactionId];
    split; repeat case_decide; simplify_eq;
    rewrite ?lookup_insert_eq, ?lookup_insert_ne by congruence; done.
Qed.

Lemma addIndexes_lookup this deals full id :
  DealManager.getByAddonLicenseId (DealManager.addIndexes this deals full) id =
    match last (filter (λ deal, DealManager.truthyId
                                  (DealData.addonLicenseId (DealEntity.data deal)) = Some id)
                  deals) with
    | Some deal => Some deal
    | None => if full then None else DealManager.getByAddonLicenseId this id
    end
  ∧ DealManager.getByTransactionId (DealManager.addIndexes this deals full) id =
      match last (filter (λ deal, DealManager.truthyId
                                    (DealData.transactionId (DealEntity.data deal)) = Some id)
                    deals) with
      | Some deal => Some deal
      | None => if full then None else DealManager.getByTransactionId this id
      end.
Proof.
  split.
  - unfold DealManager.addIndexes.
    induction deals as [|deal deals IH] using rev_ind; simpl.
    + by destruct full.
    + rewrite foldl_snoc, (proj1 (indexDeal_lookup _ _ _)), filter_app, filter_cons, filter_nil.
      case_decide.
      * by rewrite last_snoc.
      * by rewrite app_nil_r.
  - unfold DealManager.addIndexes.
    induction deals as [|deal deals IH] using rev_ind; simpl.
    + by destruct full.
    + rewrite foldl_snoc, (proj2 (indexDeal_lookup _ _ _)), filter_app, filter_cons, filter_nil.
      case_decide.
      * by rewrite last_snoc.
      * by rewrite app_nil_r.
Qed.

(** X23.  After [addIndexes] a lookup by license id gives the last of the
    indexed deals that has this id, the id being neither null nor empty; when
    no indexed deal has it, the lookup gives nothing after a full rebuild and
    what the index held before otherwise.  The same holds of the lookup by
    transaction id, and indexing two lists in turn is indexing the two as one. *)
Theorem addIndexes_finds_last_deal_with_id this deals full id :
  DealManager.getByAddonLicenseId (DealManager.addIndexes this deals full) id =
    match last (filter (λ deal, DealManager.truthyId
                                  (DealData.addonLicenseId (DealEntity.data deal)) = Some id)
                  deals) with
    | Some deal => Some deal
    | None => if full then None else DealManager.getByAddonLicenseId this id
    end
  ∧ DealManager.getByTransactionId (DealManager.addIndexes this deals full) id =
      match last (filter (λ deal, DealManager.truthyId
                                    (DealData.transactionId (DealEntity.data deal)) = Some id)
                    deals) with
      | Some deal => Some deal
      | None => if full then None else DealManager.getByTransactionId this id
      end
  ∧ ∀ more, DealManager.addIndexes (DealManager.addIndexes this deals full) more false
            = DealManager.addIndexes this (deals ++ more) full.
Proof.
  destruct (addIndexes_lookup this deals full id) as [Hlicense Htransaction].
  split; [done|]. split; [done|].
  intros more. unfold DealManager.addIndexes. by rewrite foldl_app.
Qed.

(** X24.  After a full rebuild the index by license id holds indexed deals
    only, each under its own license id, and nothing under the empty string:
    a deal whose license id is null or empty is in no entry. *)
Theorem index_holds_deals_under_their_own_id this deals id deal :
  DealManager.getByAddonLicenseId (DealManager.addIndexes this deals true) id = Some deal →
  deal ∈ deals
  ∧ DealData.addonLicenseId (DealEntity.data deal) = Some id
  ∧ id ≠ "".
Proof.
  rewrite (proj1 (addIndexes_lookup this deals true id)).
  destruct (last _) as [deal'|] eqn:Hlast; [|done]. intros [= ->].
  apply last_Some_elem_of, list_elem_of_filter in Hlast as [Hid Hin].
  split; [done|]. unfold DealManager.truthyId in Hid.
  destruct (DealData.addonLicenseId (DealEntity.data deal)) as [s|]; [|done].
  destruct (decide (s = "")); [done|]. by injection Hid as ->.
Qed.

(** ** The redaction script: what a redactor remembers *)

Section RedactorProperties.
Context {T R : Type} `{Countable T}.
Variable falsy : T → bool.
Variable fn : T → R → T * R.
Variable mustBeUnique : bool.

Lemma draw_is_fresh fuel old chance redactions redacted chance' :
  mustBeUnique = true →
  Redactor.draw fn mustBeUnique fuel old chance redactions = Some (redacted, chance') →
  redactions !! redacted = None.
Proof.
  intros Hunique. rewrite Hunique. revert chance.
  induction fuel as [|fuel IH]; intros chance; simpl; [done|].
  destruct (fn old chance) as [r c].
  case_bool_decide as Hhas.
  - apply IH.
  - intros [= <- <-]. by apply eq_None_not_Some.
Qed.

Lemma redact_grows fuel old st redacted st' :
  Redactor.redact falsy fn mustBeUnique fuel old st = Some (redacted, st') →
  Redactor.redactions st ⊆ Redactor.redactions st'
  ∧ (if falsy old then redacted = old
     else Redactor.redactions st' !! old = Some redacted).
Proof.
  unfold Redactor.redact. destruct (falsy old).
  - by intros [= <- <-].
  - destruct (Redactor.redactions st !! old) as [r|] eqn:Hmemo.
    + by intros [= <- <-].
    + destruct (Redactor.draw fn mustBeUnique fuel old _ _) as [[r c]|]; [|done].
      intros [= <- <-].
      cbn [Redactor.redactions]. split; [by apply insert_subseteq|].
      by rewrite lookup_insert_eq.
Qed.

Lemma redactAll_grows fuel olds st redacted st' :
  Redactor.redactAll falsy fn mustBeUnique fuel olds st = Some (redacted, st') →
  Redactor.redactions st ⊆ Redactor.redactions st'
  ∧ Forall2 (λ old r, if falsy old then r = old
                      else Redactor.redactions st' !! old = Some r) olds redacted.
Proof.
  revert st redacted. induction olds as [|old olds IH]; intros st redacted; simpl.
  - intros [= <- <-]. by split.
  - destruct (Redactor.redact falsy fn mustBeUnique fuel old st) as [[r st1]|] eqn:Hone;
      [|done].
    destruct (Redactor.redactAll falsy fn mustBeUnique fuel olds st1) as [[rs st2]|] eqn:Hall;
      [|done].
    intros [= <- <-]. apply redact_grows in Hone as [Hsub1 Hold].
    apply IH in Hall as [Hsub2 Hrest]. split; [by etrans|].
    constructor; [|done]. destruct (falsy old); [done|].
    by eapply lookup_weaken.
Qed.

(** X25.  A redactor gives equal originals equal redactions: in the values
    it returns for an array, two places that hold the same original hold the
    same redaction, and a null or empty original is returned as it is. *)
Theorem equal_originals_get_equal_redactions fuel olds st redacted st' :
  Redactor.redactAll falsy fn mustBeUnique fuel olds st = Some (redacted, st') →
  List.length redacted = List.length olds
  ∧ (∀ i j old r1 r2,
       olds !! i = Some old → olds !! j = Some old →
       redacted !! i = Some r1 → redacted !! j = Some r2 → r1 = r2)
  ∧ (∀ i old, olds !! i = Some old → falsy old = true → redacted !! i = Some old).
Proof.
  intros [_ Hall]%redactAll_grows. split; [symmetry; by eapply Forall2_length|].
  split.
  - intros i j old r1 r2 Hi Hj Hr1 Hr2.
    pose proof (Forall2_lookup_lr _ _ _ _ _ _ Hall Hi Hr1) as H1.
    pose proof (Forall2_lookup_lr _ _ _ _ _ _ Hall Hj Hr2) as H2.
    cbv beta in H1, H2. destruct (falsy old); congruence.
  - intros i old Hi Hfalsy.
    destruct (Forall2_lookup_l _ _ _ _ _ Hall Hi) as (r & Hr & Hold).
    cbv beta in Hold. rewrite Hfalsy in Hold. by rewrite Hr, Hold.
Qed.

(** X26.  A redaction is remembered: once an original has got its redaction,
    a later call for it gives the same redaction, whatever was redacted in
    between, and draws nothing from the random generator. *)
Theorem redaction_is_remembered fuel1 fuel2 fuel3 old olds st st1 st2 redacted rest :
  Redactor.redact falsy fn mustBeUnique fuel1 old st = Some (redacted, st1) →
  Redactor.redactAll falsy fn mustBeUnique fuel2 olds st1 = Some (rest, st2) →
  Redactor.redact falsy fn mustBeUnique fuel3 old st2 = Some (redacted, st2).
Proof.
  intros [_ Hold]%redact_grows [Hsub _]%redactAll_grows.
  unfold Redactor.redact. destruct (falsy old); [by rewrite Hold|].
  by rewrite (lookup_weaken _ _ _ _ Hold Hsub).
Qed.

(** X27.  With [mustBeUnique] the redaction drawn for a new original is not
    one of the originals redacted before; the new original is then remembered
    with it, and the earlier ones keep theirs. *)
Theorem unique_redaction_is_no_earlier_original fuel old st redacted st' :
  mustBeUnique = true →
  falsy old = false →
  Redactor.redactions st !! old = None →
  Redactor.redact falsy fn mustBeUnique fuel old st = Some (redacted, st') →
  Redactor.redactions st !! redacted = None
  ∧ Redactor.redactions st' = <[old := redacted]> (Redactor.redactions st).
Proof.
  intros Hunique Hfalsy Hnew. unfold Redactor.redact. rewrite Hfalsy, Hnew.
  destruct (Redactor.draw fn mustBeUnique fuel old _ _) as [[r c]|] eqn:Hdraw; [|done].
  intros [= <- <-].
  split; [|done]. by eapply draw_is_fresh.
Qed.

(** X28.  [mustBeUnique] does not keep redactions apart: the loop compares
    the drawn value with the originals in the map, not with the redactions,
    so a value that is the redaction of another original already is taken for
    a new original at the first draw. *)
Theorem unique_mode_accepts_a_used_redaction fuel old other st redacted chance' :
  falsy old = false →
  Redactor.redactions st !! old = None →
  Redactor.redactions st !! other = Some redacted →
  Redactor.redactions st !! redacted = None →
  fn old (Redactor.chance st) = (redacted, chance') →
  ∃ st',
    Redactor.redact falsy fn mustBeUnique (S fuel) old st = Some (redacted, st')
    ∧ Redactor.redactions st' !! old = Some redacted
    ∧ Redactor.redactions st' !! other = Some redacted
    ∧ old ≠ other.
Proof.
  intros Hfalsy Hnew Hother Hfree Hfn. eexists. split.
  { unfold Redactor.redact. rewrite Hfalsy, Hnew. simpl. rewrite Hfn.
    rewrite bool_decide_eq_false_2, andb_false_r; [reflexivity|].
    rewrite Hfree. by intros [? ?]. }
  cbn [Redactor.redactions].
  assert (Hne : old ≠ other) by (intros ->; congruence).
  split; [by rewrite lookup_insert_eq|]. split; [|done].
  by rewrite lookup_insert_ne.
Qed.

Lemma plain_redact_returns old st :
  mustBeUnique = false →
  ∃ redacted st', Redactor.redact falsy fn mustBeUnique 1 old st = Some (redacted, st').
Proof.
  intros Hplain. unfold Redactor.redact. destruct (falsy old); [by do 2 eexists|].
  destruct (Redactor.redactions st !! old) as [r|]; [by do 2 eexists|].
  simpl. rewrite Hplain. simpl. destruct (fn old (Redactor.chance st)) as [r c].
  by do 2 eexists.
Qed.

(** X29.  Without [mustBeUnique] a redactor always returns, after one draw
    at most for each value: one turn of the loop is enough for a whole array. *)
Theorem plain_redactor_always_returns olds st :
  mustBeUnique = false →
  ∃ redacted st', Redactor.redactAll falsy fn mustBeUnique 1 olds st = Some (redacted, st').
Proof.
  intros Hplain. revert st. induction olds as [|old olds IH]; intros st.
  - by do 2 eexists.
  - destruct (plain_redact_returns old st Hplain) as (r & st1 & Hone).
    destruct (IH st1) as (rs & st' & Hall).
    exists (r :: rs), st'. cbn [Redactor.redactAll]. by rewrite Hone, Hall.
Qed.

End RedactorProperties.

(** ** The redaction script: contacts *)

Lemma redact_keeps_the_others {T R : Type} `{Countable T} (falsy : T → bool)
  (fn : T → R → T * R) (mustBeUnique : bool) fuel old st redacted st' key :
  Redactor.redact falsy fn mustBeUnique fuel old st = Some (redacted, st') →
  key ≠ old →
  Redactor.redactions st' !! key = Redactor.redactions st !! key.
Proof.
  unfold Redactor.redact. destruct (falsy old); [by intros [= <- <-]|].
  destruct (Redactor.redactions st !! old) as [r|]; [by intros [= <- <-]|].
  destruct (Redactor.draw _ _ _ _ _ _) as [[r c]|]; [|done]. intros [= <- <-] Hkey.
  cbn [Redactor.redactions]. by rewrite lookup_insert_ne.
Qed.

(** X30.  The name of a partner's billing contact is redacted by the
    redactor of emails, not by the redactor of names: the redacted name is what
    the map of [Redact.email] holds for the name, and the map of [Redact.name]
    gets no entry for it, the name of the partner apart.  The name of a
    technical or billing contact is redacted by [Redact.name], and the map of
    [Redact.email] gets no entry for it, the email of the contact apart. *)
Theorem partner_contact_name_is_redacted_as_an_email {R : Type}
  (chance_name chance_email : R → string * R) fuel this this' contactName :
  contactName ≠ "" →
  (∀ info info',
     Redact.redactPartnerDetails chance_name chance_email fuel (Some info) this
       = Some (Some info', this') →
     ContactInfo.name (PartnerInfo.billingContact info) = Some contactName →
     ∃ redacted,
       ContactInfo.name (PartnerInfo.billingContact info') = Some redacted
       ∧ Redactor.redactions (Redact.email this') !! contactName = Some redacted
       ∧ (contactName ≠ PartnerInfo.partnerName info →
          Redactor.redactions (Redact.name this') !! contactName
          = Redactor.redactions (Redact.name this) !! contactName))
  ∧ (∀ contact contact',
       Redact.redactContactInfo chance_name chance_email fuel contact this
         = Some (contact', this') →
       ContactInfo.name contact = Some contactName →
       ∃ redacted,
         ContactInfo.name contact' = Some redacted
         ∧ Redactor.redactions (Redact.name this') !! contactName = Some redacted
         ∧ (contactName ≠ ContactInfo.email contact →
            Redactor.redactions (Redact.email this') !! contactName
            = Redactor.redactions (Redact.email this) !! contactName)).
Proof.
  intros Hne. split.
  - intros info info' Hrun Hname. unfold Redact.redactPartnerDetails in Hrun.
    rewrite Hname in Hrun.
    unfold Redact.onOptional, Redact.redactEmail, Redact.redactName in Hrun.
    destruct (Redactor.redact _ _ _ _ (ContactInfo.email _) _) as [[email' email1]|] eqn:H1;
      [|done].
    cbn [Redact.email Redact.name] in Hrun.
    destruct (Redactor.redact _ _ _ _ contactName _) as [[name' email2]|] eqn:H2; [|done].
    cbn [Redact.email Redact.name] in Hrun.
    destruct (Redactor.redact _ _ _ _ (PartnerInfo.partnerName _) _)
      as [[partner' name1]|] eqn:H3; [|done].
    injection Hrun as <- <-. exists name'.
    cbn [PartnerInfo.billingContact ContactInfo.name Redact.email Redact.name].
    split; [done|]. split.
    + apply redact_grows in H2 as [_ Hmemo]. unfold Redact.falsy in Hmemo.
      by rewrite bool_decide_eq_false_2 in Hmemo.
    + intros Hother. by eapply redact_keeps_the_others.
  - intros contact contact' Hrun Hname. unfold Redact.redactContactInfo in Hrun.
    rewrite Hname in Hrun.
    unfold Redact.onOptional, Redact.redactEmail, Redact.redactName in Hrun.
    destruct (Redactor.redact _ _ _ _ (ContactInfo.email _) _) as [[email' email1]|] eqn:H1;
      [|done].
    cbn [Redact.email Redact.name] in Hrun.
    unfold Redact.falsy at 1 in Hrun. rewrite bool_decide_eq_false_2 in Hrun by done.
    destruct (Redactor.redact _ _ _ _ contactName _) as [[name' name1]|] eqn:H2; [|done].
    injection Hrun as <- <-. exists name'.
    cbn [ContactInfo.name Redact.email Redact.name].
    split; [done|]. split.
    + apply redact_grows in H2 as [_ Hmemo]. unfold Redact.falsy in Hmemo.
      by rewrite bool_decide_eq_false_2 in Hmemo.
    + intros Hother. by eapply redact_keeps_the_others.
Qed.

End MoreProperties.

(** ** The further properties on the examples *)

Section OnMoreExamples.
Existing Instance exampleCollaborators.

(** X1 on an active evaluation and the deal a run created for it. *)
Lemma up_to_date_evaluation_is_ignored_witness :
  ∃ this',
    generateActionsForMatchedGroup Examples.evalGroup
      (MoreExamples.generatorOver [MoreExamples.evalDeal]) = Ok (tt, this')
    ∧ ignoredLicenseSets this'
        = [] ++ [[IgnoredLicense.mk "eval-up-to-date" Examples.evalLicense]]
    ∧ dealCreateActions this' = []
    ∧ dealUpdateActions this' = [].
Proof.
  refine (proj2 (up_to_date_evaluation_is_ignored
                   (MoreExamples.generatorOver [MoreExamples.evalDeal]) Examples.evalGroup
                   Examples.evalLicense MoreExamples.evalDeal _ _ _ _ _ _ _ _)).
  - apply examples_not_excluded. vm_compute; reflexivity.
  - constructor; [left; reflexivity|constructor].
  - reflexivity.
  - reflexivity.
  - reflexivity.
  - reflexivity.
  - vm_compute; reflexivity.
  - vm_compute; reflexivity.
Defined.

(** X2 on the same evaluation and a deal with an older close date. *)
Lemma stale_evaluation_deal_is_refreshed_witness :
  ∃ this',
    generateActionsForMatchedGroup Examples.evalGroup
      (MoreExamples.generatorOver [MoreExamples.staleEvalDeal]) = Ok (tt, this')
    ∧ dealUpdateActions this'
        = [] ++ [DealUpdateAction.mk "d-3" None []
                   (<["addonlicenseid" := VString "L-1"]>
                    (<["closedate" := VString "2021-12-01"]> ∅))]
    ∧ dealCreateActions this' = []
    ∧ ignoredLicenseSets this' = [].
Proof.
  refine (proj1 (stale_evaluation_deal_is_refreshed
                   (MoreExamples.generatorOver [MoreExamples.staleEvalDeal])
                   Examples.evalGroup Examples.evalLicense MoreExamples.staleEvalDeal
                   _ _ _ _ _ _ _)).
  - apply examples_not_excluded. vm_compute; reflexivity.
  - constructor; [left; reflexivity|constructor].
  - reflexivity.
  - reflexivity.
  - reflexivity.
  - reflexivity.
  - left. vm_compute. discriminate.
Defined.

(** X3 on an evaluation that has run out and the deal of its active days. *)
Lemma inactive_evaluation_closes_its_deal_witness :
  ∃ this',
    generateActionsForMatchedGroup MoreExamples.expiredGroup
      (MoreExamples.generatorOver [MoreExamples.evalDeal]) = Ok (tt, this')
    ∧ dealUpdateActions this' = [] ++ [MoreExamples.closingOfEvaluation]
    ∧ dealCreateActions this' = []
    ∧ ignoredLicenseSets this' = [].
Proof.
  refine (proj1 (inactive_evaluation_closes_its_deal
                   (MoreExamples.generatorOver [MoreExamples.evalDeal])
                   MoreExamples.expiredGroup MoreExamples.expiredLicense
                   MoreExamples.evalDeal _ _ _ _ _ _)).
  - apply examples_not_excluded. vm_compute; reflexivity.
  - constructor; [left; reflexivity|constructor].
  - reflexivity.
  - reflexivity.
  - reflexivity.
  - discriminate.
Defined.

(** X4 on the same evaluation and an empty snapshot. *)
Lemma inactive_evaluation_without_deal_is_ignored_witness :
  ∃ this',
    generateActionsForMatchedGroup MoreExamples.expiredGroup Examples.freshGenerator
      = Ok (tt, this')
    ∧ ignoredLicenseSets this'
        = [] ++ [[IgnoredLicense.mk "inactive-evals" MoreExamples.expiredLicense]]
    ∧ dealCreateActions this' = []
    ∧ dealUpdateActions this' = [].
Proof.
  refine (inactive_evaluation_without_deal_is_ignored Examples.freshGenerator
            MoreExamples.expiredGroup MoreExamples.expiredLicense _ _ _ _ _ _).
  - apply examples_not_excluded. vm_compute; reflexivity.
  - constructor; [left; reflexivity|constructor].
  - reflexivity.
  - reflexivity.
  - reflexivity.
  - discriminate.
Defined.

Lemma examples_paid (groups : RelatedLicenseSet) :
  forallb isFreeLicense (map LicenseContext.license groups) = false →
  Exists (λ g, License.licenseType (LicenseContext.license g) ≠ "EVALUATION"
               ∧ License.licenseType (LicenseContext.license g) ≠ "OPEN_SOURCE") groups.
Proof.
  induction groups as [|g groups IH]; simpl; [done|].
  destruct (isFreeLicense (LicenseContext.license g)) eqn:Hg; simpl.
  - intros Hmixed. apply Exists_cons_tl. by apply IH.
  - intros _. apply Exists_cons_hd. unfold isFreeLicense in Hg.
    by apply orb_false_iff in Hg as [H1%bool_decide_eq_false H2%bool_decide_eq_false].
Qed.

(** X5 on an evaluation followed by a paid license with its transactions. *)
Lemma paid_group_without_deal_creates_won_deal_witness :
  ∃ paid this',
    generateActionsForMatchedGroup Examples.paidGroup Examples.freshGenerator
      = Ok (tt, this')
    ∧ dealCreateActions this'
        = [] ++ [DealCreateAction.mk CLOSED_WON paid (paidTransactions Examples.paidGroup)
                   (JS.toFixed2
                      (default 0
                         (vendorAmountOf <$> head (paidTransactions Examples.paidGroup))))]
    ∧ dealUpdateActions this' = []
    ∧ ignoredLicenseSets this' = []
    ∧ paid ∈ map LicenseContext.license Examples.paidGroup
    ∧ isFreeLicense paid = false
    ∧ ∀ l, l ∈ map LicenseContext.license Examples.paidGroup → isFreeLicense l = false →
           String.leb (License.maintenanceStartDate paid) (License.maintenanceStartDate l)
             = true.
Proof.
  apply (paid_group_without_deal_creates_won_deal Examples.freshGenerator Examples.paidGroup).
  - apply examples_not_excluded. vm_compute; reflexivity.
  - apply examples_paid. reflexivity.
  - reflexivity.
Defined.

(** X6 on a paid license whose deal is CLOSED_WON. *)
Lemma paid_group_leaves_closed_deal_alone_witness :
  generateActionsForMatchedGroup Examples.refundedGroup
    (MoreExamples.generatorOver [Examples.wonDeal])
  = Ok (tt, MoreExamples.generatorOver [Examples.wonDeal]).
Proof.
  apply (paid_group_leaves_closed_deal_alone
           (MoreExamples.generatorOver [Examples.wonDeal]) Examples.refundedGroup
           Examples.paidLicense Examples.wonDeal).
  - apply examples_not_excluded. vm_compute; reflexivity.
  - reflexivity.
  - reflexivity.
  - reflexivity.
  - intros Hstage. vm_compute in Hstage. discriminate Hstage.
Defined.


(** X8 on the group of X5. *)
Lemma group_pushes_at_most_one_witness :
  ∃ creates updates ignored,
    dealCreateActions Examples.afterPaidGroup
      = dealCreateActions Examples.freshGenerator ++ creates
    ∧ dealUpdateActions Examples.afterPaidGroup
        = dealUpdateActions Examples.freshGenerator ++ updates
    ∧ ignoredLicenseSets Examples.afterPaidGroup
        = ignoredLicenseSets Examples.freshGenerator ++ ignored
    ∧ (List.length creates + List.length updates + List.length ignored ≤ 1)%nat
    ∧ providerDomains Examples.afterPaidGroup = providerDomains Examples.freshGenerator
    ∧ partnerDomains Examples.afterPaidGroup = partnerDomains Examples.freshGenerator
    ∧ dealFinder Examples.afterPaidGroup = dealFinder Examples.freshGenerator.
Proof.
  apply (group_pushes_at_most_one Examples.paidGroup). reflexivity.
Defined.

(** X9 on a run over an old group and an evaluation. *)
Lemma run_gives_at_most_one_result_per_group_witness :
  Examples.run [Examples.oldGroup; Examples.evalGroup] [] = Ok ([], MoreExamples.evalRun)
  ∧ (List.length (GeneratedDeals.dealsToCreate MoreExamples.evalRun)
     + List.length (GeneratedDeals.dealsToUpdate MoreExamples.evalRun)
     + List.length (@nil (list IgnoredLicense.t))
     ≤ 2)%nat.
Proof.
  assert (Hrun : Examples.run [Examples.oldGroup; Examples.evalGroup] []
                 = Ok ([], MoreExamples.evalRun)) by (vm_compute; reflexivity).
  split; [exact Hrun|].
  exact (run_gives_at_most_one_result_per_group (H := exampleCollaborators) _ _ _ Hrun).
Defined.

(** The deal finder of the examples only finds deals of the snapshot. *)
Lemma SpecDealFinder_finds_snapshot_deals deals records deal :
  DealFinder.getDeal (SpecDealFinder.new deals) records = Some deal → deal ∈ deals.
Proof.
  simpl. unfold SpecDealFinder.getDeal, SpecDealFinder.getDeals.
  intros Hhead%head_Some_elem_of. apply elem_of_uniq, list_elem_of_omap in Hhead.
  destruct Hhead as (record & _ & Hresolve).
  assert (Hindexed : ∀ key id, SpecDealFinder.indexed key id deals = Some deal → deal ∈ deals).
  { intros key id. unfold SpecDealFinder.indexed. destruct (decide (id = "")); [done|].
    intros Hlast%last_Some_elem_of. by apply list_elem_of_filter in Hlast as [_ ?]. }
  destruct record; simpl in Hresolve; by eapply Hindexed.
Qed.

(** X12 on the closing of an evaluation whose deal the snapshot does not
    hold. *)
Lemma update_loop_throws_iff_witness :
  for_of [MoreExamples.closingOfEvaluation] (updateDeal [] Examples.directory)
    (UpdateLoop.mk [] [] []) = Throw AssertionError.
Proof.
  assert (Hplain : Forall (λ action, DealUpdateAction.license action = None)
                      [MoreExamples.closingOfEvaluation]).
  { constructor; [reflexivity|constructor]. }
  apply (proj2 (proj1 (update_loop_throws_iff (H := exampleCollaborators) []
                         Examples.directory [MoreExamples.closingOfEvaluation]
                         (UpdateLoop.mk [] [] []) Hplain))).
  apply Exists_cons_hd. intros Hin. by apply elem_of_nil in Hin.
Defined.

(** X13 on the classification of an evaluation that ran out, over the deal
    of its active days. *)
Lemma update_actions_name_snapshot_deals_witness :
  Forall (λ action,
            DealUpdateAction.id action ∈ map Deal.id [MoreExamples.evalDeal]
            ∧ ∃ oldDeal,
                List.find (λ oldDeal,
                             bool_decide (Deal.id oldDeal = DealUpdateAction.id action))
                  [MoreExamples.evalDeal] = Some oldDeal)
    [MoreExamples.closingOfEvaluation].
Proof.
  apply (update_actions_name_snapshot_deals (H := exampleCollaborators)
           [MoreExamples.expiredGroup] [MoreExamples.evalDeal]
           Examples.providers Examples.partners
           (DealActions.mk [] [] [MoreExamples.closingOfEvaluation])).
  - intros records deal Hdeal. apply elem_of_map. exists deal. split; [done|].
    by eapply SpecDealFinder_finds_snapshot_deals.
  - vm_compute. reflexivity.
Defined.

(** X14 on the deal created for [Examples.evalGroup]. *)
Lemma created_deal_comes_from_a_license_witness :
  ∃ groups license,
    groups ∈ [Examples.oldGroup; Examples.evalGroup]
    ∧ hasRecentLicense (H := exampleCollaborators) groups = true
    ∧ license ∈ map LicenseContext.license groups
    ∧ NewDeal.properties MoreExamples.evalCreated !! "addonlicenseid"
        = Some (VString (License.addonLicenseId license))
    ∧ dom (NewDeal.properties MoreExamples.evalCreated) = generatedKeys ∪ {["dealstage"]}.
Proof.
  assert (Hrun : Examples.run [Examples.oldGroup; Examples.evalGroup] []
                 = Ok ([], MoreExamples.evalRun)) by (vm_compute; reflexivity).
  assert (Hin : MoreExamples.evalCreated ∈ GeneratedDeals.dealsToCreate MoreExamples.evalRun).
  { apply elem_of_cons. by left. }
  destruct (created_deal_comes_from_a_license (H := exampleCollaborators) _ _ _ _ Hrun Hin)
    as (groups & license & Hgroups & Hrecent & Hlicense & Hid & Hdom & _).
  exists groups, license. by repeat split.
Defined.

(** X15 on the run over a deal whose contact the license no longer names. *)
Lemma associations_change_the_snapshot_witness :
  Examples.run [Examples.paidGroup] [Examples.staleDeal] = Ok ([], MoreExamples.staleRun)
  ∧ ∀ a, a ∈ GeneratedDeals.associationsToCreate MoreExamples.staleRun →
         a ∉ GeneratedDeals.associationsToRemove MoreExamples.staleRun.
Proof.
  assert (Hrun : Examples.run [Examples.paidGroup] [Examples.staleDeal]
                 = Ok ([], MoreExamples.staleRun)) by (vm_compute; reflexivity).
  split; [exact Hrun|].
  exact (proj2 (proj2 (associations_change_the_snapshot (H := exampleCollaborators)
                         _ _ _ Hrun))).
Defined.

(** X18 on the email Bob@Partner.example. *)
Lemma domain_is_lower_case_text_after_at_sign_witness :
  domainOf Examples.partnerLicense = Some "partner.example".
Proof.
  apply (domain_is_lower_case_text_after_at_sign Examples.partnerLicense
           "Bob" "Partner.example").
  - reflexivity.
  - unfold JS.isASCII. apply (bool_decide_unpack _). vm_compute. exact I.
  - apply (bool_decide_unpack _). vm_compute. exact I.
  - apply (bool_decide_unpack _). vm_compute. exact I.
Defined.

(** X19 on a license with the email ann.corp.example. *)
Lemma email_without_at_sign_is_never_excluded_witness :
  domainOf MoreExamples.noAtLicense = None
  ∧ ¬ domainExcluded {["corp.example"; "ann.corp.example"]} Examples.providers
        MoreExamples.noAtGroup.
Proof.
  apply (email_without_at_sign_is_never_excluded _ _ MoreExamples.noAtGroup
           (LicenseContext.mk MoreExamples.noAtLicense [])).
  - apply elem_of_cons. by left.
  - apply (bool_decide_unpack _). vm_compute. exact I.
Defined.

(** X21 on the refund of Scenario C. *)
Lemma event_updates_are_for_eval_deals_or_closings_witness :
  dealstageOf Examples.wonDeal = Some (VStage EVAL)
  ∨ (dealstageOf Examples.wonDeal ≠ Some (VStage CLOSED_LOST)
     ∧ ({["dealstage" := VStage CLOSED_LOST]} : Properties)
       = {["dealstage" := VStage CLOSED_LOST]}).
Proof.
  apply (event_updates_are_for_eval_deals_or_closings (H := exampleCollaborators)
           (ActionGenerator.mk (SpecDealFinder.new [Examples.wonDeal]))
           [Examples.refundEvent] Examples.refundedGroup).
  assert (Hgen : generateFrom (H := exampleCollaborators)
                   (ActionGenerator.mk (SpecDealFinder.new [Examples.wonDeal]))
                   [Examples.refundEvent]
                 = [Action.update Examples.refundedGroup Examples.wonDeal
                      {["dealstage" := VStage CLOSED_LOST]}])
    by (vm_compute; reflexivity).
  rewrite Hgen. apply elem_of_cons. by left.
Defined.

(** X24 on an index built from a deal with ids and a deal without. *)
Lemma index_holds_deals_under_their_own_id_witness :
  MoreExamples.storedDeal ∈ [MoreExamples.looseDeal; MoreExamples.storedDeal]
  ∧ DealData.addonLicenseId (DealEntity.data MoreExamples.storedDeal) = Some "L-2"
  ∧ "L-2" ≠ "".
Proof.
  apply (index_holds_deals_under_their_own_id (DealManager.mk ∅ ∅)).
  vm_compute. reflexivity.
Defined.

(** X25 on an array that holds one original twice and an empty string. *)
Lemma equal_originals_get_equal_redactions_witness :
  List.length ["K1"; ""; "K1"; "K2"] = List.length ["a"; ""; "a"; "b"]
  ∧ (∀ i j old r1 r2,
       ["a"; ""; "a"; "b"] !! i = Some old → ["a"; ""; "a"; "b"] !! j = Some old →
       ["K1"; ""; "K1"; "K2"] !! i = Some r1 → ["K1"; ""; "K1"; "K2"] !! j = Some r2 →
       r1 = r2)
  ∧ (∀ i old, ["a"; ""; "a"; "b"] !! i = Some old → MoreExamples.emptyString old = true →
              ["K1"; ""; "K1"; "K2"] !! i = Some old).
Proof.
  apply (equal_originals_get_equal_redactions MoreExamples.emptyString MoreExamples.scripted
           true 1 ["a"; ""; "a"; "b"] (Redactor.mk ["K1"; "K2"; "K3"] ∅)
           ["K1"; ""; "K1"; "K2"]
           (Redactor.mk ["K3"] (<["b" := "K2"]> (<["a" := "K1"]> ∅)))).
  vm_compute. reflexivity.
Defined.

(** X26 on the same redactor: the redaction of "a" after that of "b". *)
Lemma redaction_is_remembered_witness :
  Redactor.redact MoreExamples.emptyString MoreExamples.scripted true 0 "a"
    (Redactor.mk ["K3"] (<["b" := "K2"]> (<["a" := "K1"]> ∅)))
  = Some ("K1", Redactor.mk ["K3"] (<["b" := "K2"]> (<["a" := "K1"]> ∅))).
Proof.
  apply (redaction_is_remembered MoreExamples.emptyString MoreExamples.scripted true
           1 1 0 "a" ["b"] (Redactor.mk ["K1"; "K2"; "K3"] ∅)
           (Redactor.mk ["K2"; "K3"] (<["a" := "K1"]> ∅))
           (Redactor.mk ["K3"] (<["b" := "K2"]> (<["a" := "K1"]> ∅)))
           "K1" ["K2"]).
  - vm_compute. reflexivity.
  - vm_compute. reflexivity.
Defined.

(** X27 on a script whose first value is an original redacted before. *)
Lemma unique_redaction_is_no_earlier_original_witness :
  Redactor.redactions (Redactor.mk ["a"; "K2"; "K3"] {["a" := "K1"]}) !! "K2" = None
  ∧ Redactor.redactions (Redactor.mk ["K3"] (<["b" := "K2"]> {["a" := "K1"]}))
    = <["b" := "K2"]>
        (Redactor.redactions (Redactor.mk ["a"; "K2"; "K3"] {["a" := "K1"]})).
Proof.
  assert (Hnew : Redactor.redactions (Redactor.mk ["a"; "K2"; "K3"] {["a" := "K1"]}) !! "b"
                 = None) by (vm_compute; reflexivity).
  assert (Hrun : Redactor.redact MoreExamples.emptyString MoreExamples.scripted true 2 "b"
                   (Redactor.mk ["a"; "K2"; "K3"] {["a" := "K1"]})
                 = Some ("K2", Redactor.mk ["K3"] (<["b" := "K2"]> {["a" := "K1"]})))
    by (vm_compute; reflexivity).
  exact (unique_redaction_is_no_earlier_original MoreExamples.emptyString
           MoreExamples.scripted true 2 "b" _ "K2" _ eq_refl eq_refl Hnew Hrun).
Defined.

(** X28 on a script that gives the redaction of "a" again for "b". *)
Lemma unique_mode_accepts_a_used_redaction_witness :
  ∃ st',
    Redactor.redact MoreExamples.emptyString MoreExamples.scripted true 1 "b"
      (Redactor.mk ["K1"; "K2"] {["a" := "K1"]}) = Some ("K1", st')
    ∧ Redactor.redactions st' !! "b" = Some "K1"
    ∧ Redactor.redactions st' !! "a" = Some "K1"
    ∧ "b" ≠ "a".
Proof.
  apply (unique_mode_accepts_a_used_redaction MoreExamples.emptyString MoreExamples.scripted
           true 0 "b" "a" (Redactor.mk ["K1"; "K2"] {["a" := "K1"]}) "K1" ["K2"]).
  - reflexivity.
  - vm_compute. reflexivity.
  - vm_compute. reflexivity.
  - vm_compute. reflexivity.
  - reflexivity.
Defined.

(** X29 on a redactor made without [mustBeUnique], as [Redact.amount] is. *)
Lemma plain_redactor_always_returns_witness :
  ∃ redacted st',
    Redactor.redactAll MoreExamples.emptyString MoreExamples.scripted false 1
      ["a"; "b"; "a"] (Redactor.mk ["K1"; "K1"] ∅) = Some (redacted, st').
Proof.
  apply (plain_redactor_always_returns MoreExamples.emptyString MoreExamples.scripted false).
  reflexivity.
Defined.

(** X30 on a partner whose billing contact is Ann. *)
Lemma partner_contact_name_is_redacted_as_an_email_witness :
  ∃ redacted,
    Some "e2@x.example" = Some redacted
    ∧ Redactor.redactions
        (Redactor.mk (@nil string)
           (<["Ann" := "e2@x.example"]> {["ann@corp.example" := "e1@x.example"]}))
        !! "Ann" = Some redacted
    ∧ ("Ann" ≠ "Corp" →
       Redactor.redactions (Redactor.mk ["Name-2"] {["Corp" := "Name-1"]}) !! "Ann"
       = Redactor.redactions (Redact.name MoreExamples.redactors) !! "Ann").
Proof.
  assert (Hrun : Redact.redactPartnerDetails MoreExamples.scriptedValue
                   MoreExamples.scriptedValue 1 (Some MoreExamples.partnerInfo)
                   MoreExamples.redactors
                 = Some (Some (PartnerInfo.mk
                                 (ContactInfo.mk "e1@x.example" (Some "e2@x.example"))
                                 "Name-1" "Reseller"),
                         Redact.mk (Redactor.mk ["Name-2"] {["Corp" := "Name-1"]})
                           (Redactor.mk (@nil string)
                              (<["Ann" := "e2@x.example"]>
                                 {["ann@corp.example" := "e1@x.example"]}))))
    by (vm_compute; reflexivity).
  assert (Hne : "Ann" ≠ "") by discriminate.
  exact (proj1 (partner_contact_name_is_redacted_as_an_email _ _ _ _ _ "Ann" Hne)
           _ _ Hrun eq_refl).
Defined.

End OnMoreExamples.
